(** * Matrix Operations App: a shallow embedding of [matrix_operations.py]

    The application is a thin layer over NumPy.  The embedding follows the
    source function by function:

    - Python exceptions are values of [exn]; a function that may raise
      returns a [result];
    - a 2-D [numpy.ndarray] is a record holding its [shape] and its rows,
      generic in the element type (NumPy's dtype); the application always
      builds arrays with [dtype=float], modelled by Rocq's primitive
      binary64 floats, and the test file uses integer arrays ([int64]);
    - [numpy.linalg.cond] and [numpy.linalg.inv] are LAPACK routines that
      live outside the repository: [invert_matrix] takes them as
      parameters;
    - [print] and the calls into [numpy.linalg] are recorded, in program
      order, in a trace. *)

From Stdlib Require Import String Ascii Bool Arith ZArith Lia Floats List.
Import ListNotations.

Set Implicit Arguments.
Set Warnings "-inexact-float".

(** ** Exceptions *)

(** The two exception classes the source raises or catches.
    [numpy.linalg.LinAlgError] is a subclass of [ValueError]. *)
Inductive exn : Type :=
| ValueError (msg : string)
| LinAlgError (msg : string).

Definition result (X : Type) : Type := (exn + X)%type.

Definition isinstance_ValueError (e : exn) : bool :=
  match e with
  | ValueError _ => true
  | LinAlgError _ => true
  end.

Definition isinstance_LinAlgError (e : exn) : bool :=
  match e with
  | ValueError _ => false
  | LinAlgError _ => true
  end.

(** ** Element types *)

(** What the array operations of the source need from a dtype. *)
Class DType (F : Type) : Type := {
  dzero : F;
  dadd : F -> F -> F;
  dsub : F -> F -> F;
  dmul : F -> F -> F
}.

(** [dtype=float]: IEEE-754 binary64. *)
#[export] Instance float64 : DType float := {
  dzero := 0%float;
  dadd := PrimFloat.add;
  dsub := PrimFloat.sub;
  dmul := PrimFloat.mul
}.

(** Two's complement wrap-around of a 64-bit signed integer. *)
Definition wrap64 (z : Z) : Z :=
  ((z + 9223372036854775808) mod 18446744073709551616 - 9223372036854775808)%Z.

(** [dtype=int64], the dtype of [np.array([[1, 2], [3, 4]])] in the tests. *)
#[export] Instance int64 : DType Z := {
  dzero := 0%Z;
  dadd := fun a b => wrap64 (a + b);
  dsub := fun a b => wrap64 (a - b);
  dmul := fun a b => wrap64 (a * b)
}.

(** ** Two-dimensional arrays *)

Record ndarray (F : Type) : Type := mk_ndarray {
  shape : nat * nat;
  data : list (list F)
}.

Arguments mk_ndarray {F} shape data.

(** The invariant of an array object: [shape[0]] rows of [shape[1]]
    elements each. *)
Definition wf {F : Type} (A : ndarray F) : Prop :=
  length (data A) = fst (shape A) /\
  Forall (fun r => length r = snd (shape A)) (data A).

(** [np.array(rows, dtype=...)] for a non-empty literal. *)
Definition np_array {F : Type} (rows : list (list F)) : ndarray F :=
  mk_ndarray (length rows, length (hd [] rows)) rows.

Definition shape_eqb (s t : nat * nat) : bool :=
  Nat.eqb (fst s) (fst t) && Nat.eqb (snd s) (snd t).

Section Arrays.
Context {F : Type} `{DType F}.

(** [A[i, j]] *)
Definition entry (A : ndarray F) (i j : nat) : F :=
  nth j (nth i (data A) []) dzero.

Fixpoint map2 (f : F -> F -> F) (u v : list F) : list F :=
  match u, v with
  | x :: u', y :: v' => f x y :: map2 f u' v'
  | _, _ => []
  end.

Fixpoint map2_rows (f : F -> F -> F) (a b : list (list F)) : list (list F) :=
  match a, b with
  | r :: a', s :: b' => map2 f r s :: map2_rows f a' b'
  | _, _ => []
  end.

(** [A + B] and [A - B] on arrays of one shape (the guards of the
    callers rule out broadcasting). *)
Definition ndarray_add (A B : ndarray F) : ndarray F :=
  mk_ndarray (shape A) (map2_rows dadd (data A) (data B)).

Definition ndarray_sub (A B : ndarray F) : ndarray F :=
  mk_ndarray (shape A) (map2_rows dsub (data A) (data B)).

(** Column [j] of the rows [b]. *)
Definition column (b : list (list F)) (j : nat) : list F :=
  map (fun r => nth j r dzero) b.

(** Inner product of a row and a column, accumulated from the left. *)
Fixpoint inner (acc : F) (u v : list F) : F :=
  match u, v with
  | x :: u', y :: v' => inner (dadd acc (dmul x y)) u' v'
  | _, _ => acc
  end.

(** [A.dot(B)] for 2-D operands whose inner dimensions agree. *)
Definition ndarray_dot (A B : ndarray F) : ndarray F :=
  mk_ndarray (fst (shape A), snd (shape B))
    (map (fun r => map (fun j => inner dzero r (column (data B) j))
                       (seq 0 (snd (shape B))))
         (data A)).

(** The sum [f 0 + f 1 + ... + f (n-1)], taken in index order. *)
Fixpoint sum_upto (n : nat) (f : nat -> F) : F :=
  match n with
  | O => dzero
  | S n' => dadd (sum_upto n' f) (f n')
  end.

(** The same sum on top of [acc]: the running value of [inner]. *)
Fixpoint sum_from (acc : F) (n : nat) (f : nat -> F) : F :=
  match n with
  | O => acc
  | S n' => dadd (sum_from acc n' f) (f n')
  end.

(** *** The three binary operations of the application *)

Definition add_matrices (A B : ndarray F) : result (ndarray F) :=
  if negb (shape_eqb (shape A) (shape B)) then
    inl (ValueError "Addition requires matrices of the same shape.")
  else inr (ndarray_add A B).

Definition sub_matrices (A B : ndarray F) : result (ndarray F) :=
  if negb (shape_eqb (shape A) (shape B)) then
    inl (ValueError "Subtraction requires matrices of the same shape.")
  else inr (ndarray_sub A B).

Definition mul_matrices (A B : ndarray F) : result (ndarray F) :=
  if negb (Nat.eqb (snd (shape A)) (fst (shape B))) then
    inl (ValueError
           "Matrix multiplication requires inner dimensions to match (A.cols == B.rows).")
  else inr (ndarray_dot A B).
(** [sub_matrices(add_matrices(A, B), B)] *)
Definition sub_add (A B : ndarray F) : result (ndarray F) :=
  match add_matrices A B with
  | inl e => inl e
  | inr C => sub_matrices C B
  end.
End Arrays.

(** The failures of the specification's taxonomy, as the exceptions the
    source raises for them. *)
Definition ShapeMismatch_add : exn :=
  ValueError "Addition requires matrices of the same shape.".
Definition ShapeMismatch_sub : exn :=
  ValueError "Subtraction requires matrices of the same shape.".
Definition InnerDimensionMismatch : exn :=
  ValueError
    "Matrix multiplication requires inner dimensions to match (A.cols == B.rows).".
Definition NotSquare : exn :=
  ValueError "Only square matrices can be inverted.".
Definition SingularMatrix : exn :=
  ValueError "Matrix is singular and cannot be inverted.".

(** Distance between two floats. *)
Definition fdist (x y : float) : float := PrimFloat.abs (x - y)%float.

(** [x] differs from [target] by at most [tol]. *)
Definition within (tol target x : float) : bool :=
  ((target - tol <=? x) && (x <=? target + tol))%float.

(** Every entry of the [n] x [n] array [P] is within [tol] of the
    corresponding entry of the identity matrix. *)
Definition close_to_identity (tol : float) (n : nat) (P : ndarray float)
    : bool :=
  forallb
    (fun i =>
       forallb
         (fun j =>
            within tol (if Nat.eqb i j then 1%float else 0%float) (entry P i j))
         (seq 0 n))
    (seq 0 n).

(** A 1 x 1 matrix holding the smallest positive double. *)
Definition tiny_A : ndarray float := np_array [[5e-324%float]].

(** The matrices of the demo branch of [main]. *)
Definition demo_A : ndarray float :=
  np_array [[1%float; 2%float]; [3%float; 4%float]].
Definition demo_B : ndarray float :=
  np_array [[5%float; 6%float]; [7%float; 8%float]].

(** ** Effects: exceptions and the trace *)

(** What [invert_matrix] prints: the ill-conditioning warning, which
    carries the estimate it formats. *)
Inductive line : Type :=
| ConditionWarning (cond : float).

(** Observable actions, in program order. *)
Inductive event : Type :=
| Printed (l : line)
| Called_cond
| Called_inv.

Definition trace : Type := list event.

(** A Python computation: it extends the trace and either returns or
    raises.  What was printed before an exception stays printed. *)
Definition Py (X : Type) : Type := trace -> result X * trace.

Definition ret {X : Type} (x : X) : Py X := fun t => (inr x, t).

Definition raise {X : Type} (e : exn) : Py X := fun t => (inl e, t).

Definition bind {X Y : Type} (c : Py X) (k : X -> Py Y) : Py Y :=
  fun t =>
    match c t with
    | (inr x, t') => k x t'
    | (inl e, t') => (inl e, t')
    end.

Definition emit (ev : event) : Py unit := fun t => (inr tt, t ++ [ev]).

Definition print (l : line) : Py unit := emit (Printed l).

(** [try: body  except cls: handler], with [catches] the test
    [isinstance(e, cls)]. *)
Definition try_except {X : Type} (body : Py X) (catches : exn -> bool)
    (handler : exn -> Py X) : Py X :=
  fun t =>
    match body t with
    | (inl e, t') => if catches e then handler e t' else (inl e, t')
    | (inr x, t') => (inr x, t')
    end.

(** [for x in xs: body], threading the variables the body assigns. *)
Fixpoint for_in {S X : Type} (xs : list X) (body : X -> S -> Py S) (s : S)
    : Py S :=
  match xs with
  | [] => ret s
  | x :: xs' => bind (body x s) (for_in xs' body)
  end.

Declare Scope py_scope.
Delimit Scope py_scope with py.
Notation "x <- c ;; k" := (bind c (fun x => k))
  (at level 61, c at next level, right associativity) : py_scope.
Notation "c ;;; k" := (bind c (fun _ => k))
  (at level 61, right associativity) : py_scope.

(** ** Inversion *)

Section Linalg.
(** [numpy.linalg.cond] and [numpy.linalg.inv] on a 2-D float array:
    either a [LinAlgError] with its message, or the value. *)
Variable linalg_cond : ndarray float -> string + float.
Variable linalg_inv : ndarray float -> string + ndarray float.

Definition np_linalg_cond (A : ndarray float) : Py float :=
  (emit Called_cond ;;;
   match linalg_cond A with
   | inl msg => raise (LinAlgError msg)
   | inr c => ret c
   end)%py.

Definition np_linalg_inv (A : ndarray float) : Py (ndarray float) :=
  (emit Called_inv ;;;
   match linalg_inv A with
   | inl msg => raise (LinAlgError msg)
   | inr M => ret M
   end)%py.

Definition invert_matrix (A : ndarray float) : Py (ndarray float) :=
  if negb (Nat.eqb (fst (shape A)) (snd (shape A))) then
    raise (ValueError "Only square matrices can be inverted.")
  else
    (cond <- np_linalg_cond A ;;
     (if (1e12 <? cond)%float then print (ConditionWarning cond)
      else ret tt) ;;;
     try_except
       (inv <- np_linalg_inv A ;; ret inv)
       isinstance_LinAlgError
       (fun _ => raise (ValueError "Matrix is singular and cannot be inverted.")))%py.
End Linalg.

(** The outcome of the [try] block of [invert_matrix] once
    [numpy.linalg.inv] has answered. *)
Definition inversion_outcome (r : string + ndarray float)
    : result (ndarray float) :=
  match r with
  | inl _ => inl SingularMatrix
  | inr M => inr M
  end.

(** What [invert_matrix] prints for the estimate [c]. *)
Definition warning_for (c : float) : trace :=
  if (1e12 <? c)%float then [Printed (ConditionWarning c)] else [].

(** *** The two routines on diagonal matrices

    On a square diagonal matrix both routines have a closed form: the
    singular values are the absolute values of the diagonal, and the
    inverse is the diagonal matrix of the reciprocals unless a pivot is
    zero.  This instance lets [invert_matrix] run on concrete inputs. *)

Fixpoint is_diagonal_from (i : nat) (rows : list (list float)) : bool :=
  match rows with
  | [] => true
  | r :: rows' =>
      forallb (fun j => Nat.eqb j i || PrimFloat.eqb (nth j r 0%float) 0%float)
              (seq 0 (length r))
      && is_diagonal_from (S i) rows'
  end.

Definition diagonal (A : ndarray float) : list float :=
  map (fun i => nth i (nth i (data A) []) 0%float) (seq 0 (fst (shape A))).

Definition fmax (x y : float) : float := if (x <? y)%float then y else x.
Definition fmin (x y : float) : float := if (y <? x)%float then y else x.

Definition is_square_diagonal (A : ndarray float) : bool :=
  Nat.eqb (fst (shape A)) (snd (shape A))
  && Nat.eqb (length (data A)) (fst (shape A))
  && forallb (fun r => Nat.eqb (length r) (snd (shape A))) (data A)
  && is_diagonal_from 0 (data A).

Definition diag_cond (A : ndarray float) : string + float :=
  if is_square_diagonal A then
    match map PrimFloat.abs (diagonal A) with
    | [] => inl "cond is not defined on empty arrays"%string
    | s :: ss =>
        let r := (fold_left fmax ss s / fold_left fmin ss s)%float in
        inr (if PrimFloat.is_nan r
                && negb (existsb PrimFloat.is_nan (diagonal A))
             then PrimFloat.infinity else r)
    end
  else inl "not a diagonal matrix"%string.

Definition diag_inv (A : ndarray float) : string + ndarray float :=
  if is_square_diagonal A then
    if existsb (fun d => PrimFloat.eqb d 0%float) (diagonal A) then
      inl "Singular matrix"%string
    else
      inr (mk_ndarray (shape A)
             (map (fun i =>
                     map (fun j => if Nat.eqb i j
                                   then (1 / nth i (diagonal A) 0)%float
                                   else 0%float)
                         (seq 0 (snd (shape A))))
                  (seq 0 (fst (shape A)))))
  else inl "not a diagonal matrix"%string.

(** ** Python strings

    A [str] is modelled by a [string] whose characters are the code
    points below 256. *)

(** [c.isspace()], the separator test of [str.split()]. *)
Definition isspace (c : ascii) : bool :=
  let n := nat_of_ascii c in
  (Nat.leb 9 n && Nat.leb n 13) || (Nat.leb 28 n && Nat.leb n 32)
  || Nat.eqb n 133 || Nat.eqb n 160.

(** [s.replace(old, new)] for one-character [old] and [new]. *)
Fixpoint str_replace (old new : ascii) (s : string) : string :=
  match s with
  | EmptyString => EmptyString
  | String c s' =>
      String (if Ascii.eqb c old then new else c) (str_replace old new s')
  end.

Definition flush (cur : string) (rest : list string) : list string :=
  match cur with
  | EmptyString => rest
  | _ => cur :: rest
  end.

(** The maximal runs of non-separators of [s], [cur] being the run read
    so far. *)
Fixpoint split_from (sep : ascii -> bool) (cur : string) (s : string)
    : list string :=
  match s with
  | EmptyString => flush cur []
  | String c s' =>
      if sep c then flush cur (split_from sep EmptyString s')
      else split_from sep (cur ++ String c EmptyString) s'
  end.

(** [s.split()] *)
Definition str_split (s : string) : list string :=
  split_from isspace EmptyString s.

(** *** [float(s)] *)

(** The whitespace [float] ignores around a number: ASCII whitespace, and
    the two spaces above 127, which the conversion of the text to ASCII
    turns into blanks. *)
Definition float_isspace (c : ascii) : bool :=
  let n := nat_of_ascii c in
  (Nat.leb 9 n && Nat.leb n 13) || Nat.eqb n 32
  || Nat.eqb n 133 || Nat.eqb n 160.

Fixpoint lstrip (s : list ascii) : list ascii :=
  match s with
  | c :: s' => if float_isspace c then lstrip s' else s
  | [] => []
  end.

Definition strip (s : list ascii) : list ascii :=
  rev (lstrip (rev (lstrip s))).

Definition is_digit (c : ascii) : bool :=
  let n := nat_of_ascii c in Nat.leb 48 n && Nat.leb n 57.

Definition digit_val (c : ascii) : Z := Z.of_nat (nat_of_ascii c - 48).

Definition is_underscore (c : ascii) : bool := Ascii.eqb c "_".

(** Underscores are legal only between two digits, and are dropped
    ([prev] is the character read last). *)
Fixpoint drop_underscores (prev : ascii) (s : list ascii)
    : option (list ascii) :=
  match s with
  | [] => if is_underscore prev then None else Some []
  | c :: s' =>
      if is_underscore c then
        if is_digit prev then drop_underscores c s' else None
      else if is_underscore prev && negb (is_digit c) then None
      else option_map (cons c) (drop_underscores c s')
  end.

Fixpoint span_digits (s : list ascii) : list ascii * list ascii :=
  match s with
  | c :: s' =>
      if is_digit c then let (ds, r) := span_digits s' in (c :: ds, r)
      else ([], s)
  | [] => ([], [])
  end.

Definition parse_sign (s : list ascii) : bool * list ascii :=
  match s with
  | c :: r =>
      if Ascii.eqb c "-" then (true, r)
      else if Ascii.eqb c "+" then (false, r)
      else (false, s)
  | [] => (false, [])
  end.

Definition digits_value (ds : list ascii) : Z :=
  fold_left (fun acc d => (acc * 10 + digit_val d)%Z) ds 0%Z.

(** ASCII lower case. *)
Definition tolower (c : ascii) : ascii :=
  let n := nat_of_ascii c in
  if Nat.leb 65 n && Nat.leb n 90 then ascii_of_nat (n + 32) else c.

Definition lower_is (s : list ascii) (w : string) : bool :=
  String.eqb (string_of_list_ascii (map tolower s)) w.

(** [num / den] rounded to the nearest integer, ties to even
    ([den] positive). *)
Definition div_half_even (num den : Z) : Z :=
  let q := (num / den)%Z in
  match (2 * (num mod den) ?= den)%Z with
  | Lt => q
  | Gt => (q + 1)%Z
  | Eq => if Z.even q then q else (q + 1)%Z
  end.

(** The binary64 number nearest to [num / den] (both positive), ties to
    even, with gradual underflow and overflow to infinity. *)
Definition nearest_float (neg : bool) (num den : Z) : float :=
  let k0 := (Z.log2 num - Z.log2 den)%Z in
  let k :=
    if (num * 2 ^ Z.max 0 (- k0) <? den * 2 ^ Z.max 0 k0)%Z
    then (k0 - 1)%Z else k0 in
  let q := Z.max (k - 52) (-1074) in
  match div_half_even (num * 2 ^ Z.max 0 (- q)) (den * 2 ^ Z.max 0 q) with
  | Zpos m => SF2Prim (S754_finite neg m q)
  | _ => if neg then PrimFloat.neg_zero else PrimFloat.zero
  end.

(** The value of the decimal [mant * 10^e10] ([mant] has [nd] digits). *)
Definition decimal_to_float (neg : bool) (mant : Z) (nd : nat) (e10 : Z)
    : float :=
  if (mant =? 0)%Z then
    (if neg then PrimFloat.neg_zero else PrimFloat.zero)
  else if (400 <? e10)%Z then
    (if neg then PrimFloat.neg_infinity else PrimFloat.infinity)
  else if (e10 + Z.of_nat nd <? -400)%Z then
    (if neg then PrimFloat.neg_zero else PrimFloat.zero)
  else if (0 <=? e10)%Z then nearest_float neg (mant * 10 ^ e10) 1
  else nearest_float neg mant (10 ^ (- e10)).

(** The exponent part: empty, or [e] or [E], an optional sign and at
    least one digit, up to the end of the text. *)
Definition parse_exponent (s : list ascii) : option Z :=
  match s with
  | [] => Some 0%Z
  | c :: r =>
      if Ascii.eqb (tolower c) "e" then
        let (eneg, r1) := parse_sign r in
        match span_digits r1 with
        | ([], _) => None
        | (ds, []) =>
            Some (if eneg then (- digits_value ds)%Z else digits_value ds)
        | (_, _ :: _) => None
        end
      else None
  end.

(** A decimal literal: sign, digits with an optional point (at least one
    digit), exponent. *)
Definition parse_decimal (s : list ascii) : option float :=
  let (neg, s1) := parse_sign s in
  let (ip, s2) := span_digits s1 in
  let (fp, s3) :=
    match s2 with
    | c :: r => if Ascii.eqb c "." then span_digits r else ([], s2)
    | [] => ([], [])
    end in
  match ip ++ fp with
  | [] => None
  | ds =>
      match parse_exponent s3 with
      | Some e =>
          Some (decimal_to_float neg (digits_value ds) (length ds)
                  (e - Z.of_nat (length fp)))
      | None => None
      end
  end.

(** [inf], [infinity] and [nan], signed, in any case. *)
Definition parse_inf_or_nan (s : list ascii) : option float :=
  let (neg, r) := parse_sign s in
  if lower_is r "inf" || lower_is r "infinity" then
    Some (if neg then PrimFloat.neg_infinity else PrimFloat.infinity)
  else if lower_is r "nan" then Some PrimFloat.nan
  else None.

Definition string_to_double (s : list ascii) : option float :=
  match parse_decimal s with
  | Some x => Some x
  | None => parse_inf_or_nan s
  end.

(** [float(s)] for a [str]: underscores between digits are dropped,
    surrounding whitespace is ignored, and the whole of what is left must
    be a number; raises [ValueError] otherwise. *)
Definition py_float (s : string) : Py float :=
  match drop_underscores "000" (list_ascii_of_string s) with
  | Some t =>
      match string_to_double (strip t) with
      | Some x => ret x
      | None => raise (ValueError ("could not convert string to float: " ++ s))
      end
  | None => raise (ValueError ("could not convert string to float: " ++ s))
  end.

(** ** Line parsing *)

Definition parse_numbers_from_line (line : string) : Py (list float) :=
  let parts := str_split (str_replace "," " " line) in
  for_in parts
    (fun p nums =>
       try_except
         (x <- py_float p ;; ret (nums ++ [x]))%py
         isinstance_ValueError
         (fun _ => ret nums))
    [].

(** The tokens of a line as the specification describes them: the maximal
    runs of characters that are neither whitespace nor a comma. *)
Definition is_separator (c : ascii) : bool :=
  isspace c || Ascii.eqb c ",".

Definition tokens (line : string) : list string :=
  split_from is_separator EmptyString line.

(** The number a token denotes, if it is numeric. *)
Definition numeric_value (p : string) : option float :=
  match fst (py_float p []) with
  | inr x => Some x
  | inl _ => None
  end.

Fixpoint filter_map {X Y : Type} (f : X -> option Y) (xs : list X) : list Y :=
  match xs with
  | [] => []
  | x :: xs' =>
      match f x with
      | Some y => y :: filter_map f xs'
      | None => filter_map f xs'
      end
  end.

(** * The interactive shell

    The rest of [matrix_operations.py]: [pretty_print], [input_matrix],
    [load_matrix_from_file], [choose_matrix], [save_matrix],
    [visualize_matrix] and [main].  They read lines from standard input
    and write to standard output: a computation transforms a [world] and
    returns, raises, or fails to terminate.  The file system, the random
    generator and the plotting library are parameters, like
    [numpy.linalg]. *)

(** ** More of Python's strings and numbers *)

Fixpoint str_lstrip (s : string) : string :=
  match s with
  | String c s' => if isspace c then str_lstrip s' else s
  | EmptyString => EmptyString
  end.

Definition str_rev (s : string) : string :=
  string_of_list_ascii (rev (list_ascii_of_string s)).

(** [s.strip()] *)
Definition str_strip (s : string) : string :=
  str_rev (str_lstrip (str_rev (str_lstrip s))).

(** [c.lower()] for a code point below 256. *)
Definition lower_char (c : ascii) : ascii :=
  let n := nat_of_ascii c in
  if (Nat.leb 65 n && Nat.leb n 90)
     || (Nat.leb 192 n && Nat.leb n 222 && negb (Nat.eqb n 215))
  then ascii_of_nat (n + 32) else c.

(** [s.lower()] *)
Fixpoint str_lower (s : string) : string :=
  match s with
  | EmptyString => EmptyString
  | String c s' => String (lower_char c) (str_lower s')
  end.

(** [s or d]: the empty string is false. *)
Definition str_or (s d : string) : string :=
  match s with
  | EmptyString => d
  | _ => s
  end.

(** The decimal digits of [n] in front of [acc]; [fuel] bounds their
    number. *)
Fixpoint decimal_digits (fuel : nat) (n : Z) (acc : string) : string :=
  match fuel with
  | O => acc
  | S fuel' =>
      let acc' := String (ascii_of_nat (48 + Z.to_nat (n mod 10))) acc in
      if (n / 10 =? 0)%Z then acc' else decimal_digits fuel' (n / 10) acc'
  end.

(** [str(n)] for [n >= 0]. *)
Definition str_of_nonneg (n : Z) : string :=
  decimal_digits (S (Z.to_nat (Z.log2 n))) n EmptyString.

(** [str(z)] for an [int]. *)
Definition str_of_int (z : Z) : string :=
  if (z <? 0)%Z then String "-" (str_of_nonneg (- z)) else str_of_nonneg z.

Definition str_of_nat (n : nat) : string := str_of_nonneg (Z.of_nat n).

Fixpoint repeat_char (c : ascii) (n : nat) : string :=
  match n with
  | O => EmptyString
  | S n' => String c (repeat_char c n')
  end.

(** [s.rjust(w)] and [s.zfill(w)] (for an unsigned [s]). *)
Definition rjust (w : nat) (s : string) : string :=
  (repeat_char " " (w - String.length s) ++ s)%string.

Definition zfill (w : nat) (s : string) : string :=
  (repeat_char "0" (w - String.length s) ++ s)%string.

(** [sep.join(parts)] *)
Fixpoint join (sep : string) (parts : list string) : string :=
  match parts with
  | [] => EmptyString
  | [p] => p
  | p :: rest => (p ++ sep ++ join sep rest)%string
  end.

(** [|x| * 10^p] rounded to an integer, ties to even, for a finite
    [x = m * 2^e]. *)
Definition fixed_units (p : nat) (m : positive) (e : Z) : Z :=
  if (0 <=? e)%Z then (Zpos m * 2 ^ e * 10 ^ Z.of_nat p)%Z
  else div_half_even (Zpos m * 10 ^ Z.of_nat p) (2 ^ (- e)).

(** The digits of [format(x, '.pf')] for [n = |x| * 10^p] rounded. *)
Definition fixed_digits (p : nat) (n : Z) : string :=
  match p with
  | O => str_of_nonneg n
  | S _ =>
      (str_of_nonneg (n / 10 ^ Z.of_nat p) ++ "."
       ++ zfill p (str_of_nonneg (n mod 10 ^ Z.of_nat p)))%string
  end.

(** [format(x, '.pf')]: the decimal expansion of [x] correctly rounded
    to [p] places, ties to even. *)
Definition format_fixed (p : nat) (x : float) : string :=
  match Prim2SF x with
  | S754_nan => "nan"%string
  | S754_infinity s => if s then "-inf"%string else "inf"%string
  | S754_zero s =>
      ((if s then "-" else "") ++ fixed_digits p 0)%string
  | S754_finite s m e =>
      ((if s then "-" else "") ++ fixed_digits p (fixed_units p m e))%string
  end.

(** [int(s)] for a [str]: an optional sign and decimal digits, where
    single underscores may separate digits, surrounded by whitespace.
    The interpreter's limit on the length of the text is not modelled. *)
Definition parse_int (s : string) : option Z :=
  match drop_underscores "000" (strip (list_ascii_of_string s)) with
  | Some t =>
      let (neg, r) := parse_sign t in
      match span_digits r with
      | ([], _) => None
      | (ds, []) => Some (if neg then (- digits_value ds)%Z else digits_value ds)
      | (_, _ :: _) => None
      end
  | None => None
  end.

(** [np.array(nums, dtype=float).reshape(rows, cols)] *)
Definition np_reshape (rows cols : nat) (nums : list float) : ndarray float :=
  mk_ndarray (rows, cols)
    (map (fun i => firstn cols (skipn (i * cols) nums)) (seq 0 rows)).

(** What NumPy's array constructors make of a shape [(rows, cols)] of
    Python integers, for 8-byte elements.  A dimension outside the range
    of the index type ([npy_intp], 64 bits) is refused when the tuple is
    converted.  Then the dimensions are gone through in order, a zero one
    skipped, a negative one refused, and the others multiplied into the
    size in bytes, which must stay in the range of the index type.  All
    three failures are [ValueError]s.  The [MemoryError] of an allocation
    the machine cannot serve depends on the machine and is not modelled. *)
Definition intp_max : Z := 9223372036854775807.

Definition is_intp (d : Z) : bool :=
  ((- intp_max - 1 <=? d) && (d <=? intp_max))%Z.

Fixpoint nbytes_error (nbytes : Z) (dims : list Z) : option string :=
  match dims with
  | [] => None
  | d :: dims' =>
      if (d =? 0)%Z then nbytes_error nbytes dims'
      else if (d <? 0)%Z then Some "negative dimensions are not allowed"%string
      else if (intp_max <? nbytes * d)%Z then
        Some "array is too big; `arr.size * arr.dtype.itemsize` is larger than the maximum possible size."%string
      else nbytes_error (nbytes * d) dims'
  end.

Definition shape_error (rows cols : Z) : option string :=
  if negb (is_intp rows && is_intp cols) then
    Some "Maximum allowed dimension exceeded"%string
  else nbytes_error 8 [rows; cols].

(** [np.zeros((rows, cols), dtype=float)] *)
Definition np_zeros (rows cols : Z) : result (ndarray float) :=
  match shape_error rows cols with
  | Some msg => inl (ValueError msg)
  | None =>
      inr (mk_ndarray (Z.to_nat rows, Z.to_nat cols)
             (repeat (repeat 0%float (Z.to_nat cols)) (Z.to_nat rows)))
  end.

Fixpoint replace_nth {X : Type} (n : nat) (x : X) (l : list X) : list X :=
  match l, n with
  | [], _ => []
  | _ :: l', O => x :: l'
  | y :: l', S n' => y :: replace_nth n' x l'
  end.

(** [mat[r, :] = nums], for [nums] of the width of [mat]. *)
Definition set_row (mat : ndarray float) (r : nat) (nums : list float)
    : ndarray float :=
  mk_ndarray (shape mat) (replace_nth r nums (data mat)).

(** [mat * scale] *)
Definition np_scale (mat : ndarray float) (scale : float) : ndarray float :=
  mk_ndarray (shape mat) (map (map (fun x => (x * scale)%float)) (data mat)).

(** [str(mat.shape)] *)
Definition str_of_shape (s : nat * nat) : string :=
  ("(" ++ str_of_nat (fst s) ++ ", " ++ str_of_nat (snd s) ++ ")")%string.

(** ** Worlds and computations *)

(** Exceptions of the shell: those of the numeric layer, the [EOFError]
    of [input] at the end of the input, and any other subclass of
    [Exception] (what file access and plotting raise). *)
Inductive pyexn : Type :=
| Std (e : exn)
| EOFError
| OtherError (msg : string).

(** [isinstance(e, ValueError)] and [isinstance(e, Exception)]. *)
Definition is_ValueError (e : pyexn) : bool :=
  match e with
  | Std e' => isinstance_ValueError e'
  | _ => false
  end.

Definition is_Exception (e : pyexn) : bool := true.

(** What reaches the terminal.  Text outside the modelled character range
    (the banner, the warning of [invert_matrix]) and the text of an
    exception are kept as items of their own. *)
Inductive output : Type :=
| Line (s : string)
| ErrorLine (s : string) (e : pyexn)
| Prompt (s : string)
| Banner
| Numeric (ev : event)
| Figure (title : string) (M : ndarray float).

Inductive outcome (X : Type) : Type :=
| Returns (x : X)
| Raises (e : pyexn)
| Diverges.

Arguments Returns {X} x.
Arguments Raises {X} e.
Arguments Diverges {X}.

(** One turn of a loop body: [continue] (or the end of the body), or
    [break] with the values the code after the loop uses. *)
Inductive step (X : Type) : Type :=
| Continue
| Break (x : X).

Arguments Continue {X}.
Arguments Break {X} x.

Section Shell.
(** The state of the file system, and the parameters:
    [np.atleast_2d(np.loadtxt(path, delimiter=","))], which leaves the
    files as they are; [np.savetxt(path, mat, delimiter=",", fmt="%.8g")],
    which gives the files it leaves behind and the exception it raised, if
    any (it opens the target for writing, so a failure can come after the
    files have changed); the numbers the random generator hands out;
    whether matplotlib was imported; and the failure of drawing a figure,
    if any. *)
Variable FS : Type.
Variable linalg_cond : ndarray float -> string + float.
Variable linalg_inv : ndarray float -> string + ndarray float.
Variable loadtxt : FS -> string -> pyexn + ndarray float.
Variable savetxt : FS -> string -> ndarray float -> FS * option pyexn.
Variable uniform : nat -> float.
Variable HAS_MPL : bool.
Variable show_figure : string -> ndarray float -> option pyexn.

Record world : Type := mk_world {
  stdin : list string;
  stdout : list output;
  drawn : nat;
  files : FS
}.

Definition IO (X : Type) : Type := world -> outcome X * world.

Definition io_ret {X : Type} (x : X) : IO X := fun w => (Returns x, w).

Definition io_raise {X : Type} (e : pyexn) : IO X := fun w => (Raises e, w).

Definition io_bind {X Y : Type} (c : IO X) (k : X -> IO Y) : IO Y :=
  fun w =>
    match c w with
    | (Returns x, w') => k x w'
    | (Raises e, w') => (Raises e, w')
    | (Diverges, w') => (Diverges, w')
    end.

Definition io_try {X : Type} (body : IO X) (catches : pyexn -> bool)
    (handler : pyexn -> IO X) : IO X :=
  fun w =>
    match body w with
    | (Raises e, w') => if catches e then handler e w' else (Raises e, w')
    | r => r
    end.

Definition write (o : output) : IO unit :=
  fun w =>
    (Returns tt,
     mk_world (stdin w) (stdout w ++ [o]) (drawn w) (files w)).

(** [print(s)] and [print(s, e)] *)
Definition io_print (s : string) : IO unit := write (Line s).

Definition io_print_exn (s : string) (e : pyexn) : IO unit :=
  write (ErrorLine s e).

(** Reading one line of standard input. *)
Definition read_line : IO string :=
  fun w =>
    match stdin w with
    | [] => (Raises EOFError, w)
    | l :: rest =>
        (Returns l, mk_world rest (stdout w) (drawn w) (files w))
    end.

(** [input(prompt)] *)
Definition input (prompt : string) : IO string :=
  io_bind (write (Prompt prompt)) (fun _ => read_line).

(** A computation of the numeric layer, run in the shell: what it
    recorded reaches the terminal in order. *)
Definition lift_py {X : Type} (c : Py X) : IO X :=
  fun w =>
    let (r, t) := c [] in
    let w' :=
      mk_world (stdin w) (stdout w ++ map Numeric t) (drawn w) (files w) in
    match r with
    | inl e => (Raises (Std e), w')
    | inr x => (Returns x, w')
    end.

Definition lift_result {X : Type} (r : result X) : IO X :=
  match r with
  | inl e => io_raise (Std e)
  | inr x => io_ret x
  end.

(** [int(s)] *)
Definition py_int (s : string) : IO Z :=
  match parse_int s with
  | Some z => io_ret z
  | None =>
      io_raise (Std (ValueError
                       ("invalid literal for int() with base 10: " ++ s)))
  end.

(** [while True: body], run for at most [fuel] turns. *)
Fixpoint while_fuel {X : Type} (fuel : nat) (body : IO (step X)) : IO X :=
  match fuel with
  | O => fun w => (Diverges, w)
  | S fuel' =>
      io_bind body
        (fun s =>
           match s with
           | Continue => while_fuel fuel' body
           | Break x => io_ret x
           end)
  end.

(** [while True: body] for a body that reads input on every turn it does
    not leave the loop: the lines left to read bound the turns. *)
Definition while_true {X : Type} (body : IO (step X)) : IO X :=
  fun w => while_fuel (S (length (stdin w))) body w.

(** [for x in xs: body], threading the variables the body assigns. *)
Fixpoint io_for {S X : Type} (xs : list X) (body : X -> S -> IO S) (s : S)
    : IO S :=
  match xs with
  | [] => io_ret s
  | x :: xs' => io_bind (body x s) (io_for xs' body)
  end.

Declare Scope io_scope.
Delimit Scope io_scope with io.
Notation "x <- c ;; k" := (io_bind c (fun x => k))
  (at level 61, c at next level, right associativity) : io_scope.
Notation "c ;;; k" := (io_bind c (fun _ => k))
  (at level 61, right associativity) : io_scope.

(** [np.random.rand(rows, cols)]: an array of the shape, if NumPy accepts
    it, filled with the next [rows * cols] numbers of the generator, row
    by row. *)
Definition np_random_rand (rows cols : Z) : IO (ndarray float) :=
  match shape_error rows cols with
  | Some msg => io_raise (Std (ValueError msg))
  | None =>
      fun w =>
        let r := Z.to_nat rows in
        let c := Z.to_nat cols in
        (Returns
           (mk_ndarray (r, c)
              (map (fun i => map (fun j => uniform (drawn w + i * c + j))
                                 (seq 0 c))
                   (seq 0 r))),
         mk_world (stdin w) (stdout w) (drawn w + r * c) (files w))
  end.

(** ** The functions of the shell *)

Definition pretty_print (mat : ndarray float) (precision : nat) : IO unit :=
  let rows := fst (shape mat) in
  let cols := snd (shape mat) in
  (io_for (seq 0 rows)
     (fun r _ =>
        io_print
          (join " "
             (map (fun c => rjust 8 (format_fixed precision (entry mat r c)))
                  (seq 0 cols))))
     tt ;;;
   io_print "")%io.

Definition input_matrix (name : string) : IO (ndarray float) :=
  (shp <- while_true
     (io_try
        (l1 <- input ("Number of rows for matrix " ++ name ++ ": ") ;;
         rows <- py_int (str_strip l1) ;;
         l2 <- input ("Number of columns for matrix " ++ name ++ ": ") ;;
         cols <- py_int (str_strip l2) ;;
         if ((rows <=? 0) || (cols <=? 0))%Z then
           io_print "Rows and columns must be positive integers. Try again." ;;;
           io_ret Continue
         else io_ret (Break (rows, cols)))
        is_ValueError
        (fun _ => io_print "Invalid integer. Try again." ;;; io_ret Continue)) ;;
   let rows := fst shp in
   let cols := snd shp in
   io_print "Choose entry mode:" ;;;
   io_print "  1) Enter row-by-row" ;;;
   io_print "  2) Paste all numbers (space/comma separated)" ;;;
   io_print "  3) Fill with random numbers" ;;;
   l <- input "Mode (1/2/3) [1]: " ;;
   let mode := str_or (str_strip l) "1" in
   if String.eqb mode "3" then np_random_rand rows cols
   else
     pasted <-
       (if String.eqb mode "2" then
          io_print ("Paste " ++ str_of_int (rows * cols)
                    ++ " numbers (space or comma separated), then press Enter:") ;;;
          s <- read_line ;;
          nums <- lift_py (parse_numbers_from_line (str_strip s)) ;;
          if negb (Z.eqb (Z.of_nat (length nums)) (rows * cols)) then
            io_print ("Expected " ++ str_of_int (rows * cols)
                      ++ " numbers but got " ++ str_of_nat (length nums)
                      ++ ". Falling back to row-by-row input.") ;;;
            io_ret None
          else
            io_ret (Some (np_reshape (Z.to_nat rows) (Z.to_nat cols) nums))
        else io_ret None) ;;
     match pasted with
     | Some mat => io_ret mat
     | None =>
         zeros <- lift_result (np_zeros rows cols) ;;
         io_for (seq 0 (Z.to_nat rows))
           (fun r mat =>
              nums <- while_true
                (line <- input ("Row " ++ str_of_nat (r + 1) ++ " (enter "
                                ++ str_of_int cols
                                ++ " numbers separated by spaces or commas): ") ;;
                 nums <- lift_py (parse_numbers_from_line (str_strip line)) ;;
                 if negb (Z.eqb (Z.of_nat (length nums)) cols) then
                   io_print ("Expected " ++ str_of_int cols
                             ++ " numbers but got " ++ str_of_nat (length nums)
                             ++ ". Try again.") ;;;
                   io_ret Continue
                 else io_ret (Break nums)) ;;
              io_ret (set_row mat r nums))
           zeros
     end)%io.

Definition load_matrix_from_file : IO (option (ndarray float)) :=
  (l <- input "Enter file path (CSV or whitespace-separated): " ;;
   let path := str_strip l in
   io_try
     (mat <- (fun w =>
                match loadtxt (files w) path with
                | inl e => (Raises e, w)
                | inr mat => (Returns mat, w)
                end) ;;
      io_print ("Loaded matrix from " ++ path ++ ": shape "
                ++ str_of_shape (shape mat)) ;;;
      io_ret (Some mat))
     is_Exception
     (fun e => io_print_exn "Failed to load file:" e ;;; io_ret None))%io.

Definition choose_matrix (name : string) : IO (ndarray float) :=
  (io_print ("Options to provide matrix " ++ name ++ ":") ;;;
   io_print "  1) Type/paste interactively" ;;;
   io_print "  2) Load from file" ;;;
   io_print "  3) Random matrix" ;;;
   l <- input "Choose (1/2/3) [1]: " ;;
   let choice := str_or (str_strip l) "1" in
   if String.eqb choice "2" then
     m <- load_matrix_from_file ;;
     match m with
     | None =>
         io_print "Falling back to interactive input." ;;;
         input_matrix name
     | Some mat => io_ret mat
     end
   else if String.eqb choice "3" then
     lr <- input "rows: " ;;
     rows <- py_int lr ;;
     lc <- input "cols: " ;;
     cols <- py_int lc ;;
     ls <- input "scale (max value) [1.0]: " ;;
     scale <- match ls with
              | EmptyString => io_ret 1%float
              | _ => lift_py (py_float ls)
              end ;;
     mat <- np_random_rand rows cols ;;
     io_ret (np_scale mat scale)
   else input_matrix name)%io.

Definition save_matrix (mat : ndarray float) : IO unit :=
  (l <- input "Enter filename to save (CSV) or leave blank to skip: " ;;
   let path := str_strip l in
   match path with
   | EmptyString => io_ret tt
   | _ =>
       io_try
         ((fun w =>
             let (fs', failure) := savetxt (files w) path mat in
             let w' := mk_world (stdin w) (stdout w) (drawn w) fs' in
             match failure with
             | Some e => (Raises e, w')
             | None => (Returns tt, w')
             end) ;;;
          io_print ("Saved to " ++ path))
         is_Exception
         (fun e => io_print_exn "Failed to save:" e)
   end)%io.

Definition visualize_matrix (mat : ndarray float) (title : string) : IO unit :=
  if negb HAS_MPL then
    io_print
      "matplotlib not available. Install it with 'pip install matplotlib' to visualize."
  else
    match show_figure title mat with
    | Some e => io_raise e
    | None => write (Figure title mat)
    end.

(** The menu of [main]. *)
Definition print_menu : IO unit :=
  (io_print "Select operation:" ;;;
   io_print "  1) Add (A + B)" ;;;
   io_print "  2) Subtract (A - B)" ;;;
   io_print "  3) Multiply (A * B)" ;;;
   io_print "  4) Inverse (A^-1)" ;;;
   io_print "  5) Demo (sample matrices)" ;;;
   io_print "  q) Quit")%io.

(** The demo branch of [main]. *)
Definition demo : IO unit :=
  (io_print "" ;;;
   io_print "Demo with A=[[1,2],[3,4]] and B=[[5,6],[7,8]]" ;;;
   let A := demo_A in
   let B := demo_B in
   io_print "Matrix A:" ;;;
   pretty_print A 3 ;;;
   io_print "Matrix B:" ;;;
   pretty_print B 3 ;;;
   io_print "A + B:" ;;;
   s <- lift_result (add_matrices A B) ;;
   pretty_print s 3 ;;;
   io_print "A - B:" ;;;
   d <- lift_result (sub_matrices A B) ;;
   pretty_print d 3 ;;;
   io_print "A * B:" ;;;
   p <- lift_result (mul_matrices A B) ;;
   pretty_print p 3 ;;;
   io_print "Inverse of A:" ;;;
   io_try
     (inv <- lift_py (invert_matrix linalg_cond linalg_inv A) ;;
      pretty_print inv 3)
     is_ValueError
     (fun e => io_print_exn "Inverse error:" e))%io.

(** The branch of [main] for the choices 1, 2 and 3. *)
Definition binary_operation (choice : string) : IO unit :=
  (A <- choose_matrix "A" ;;
   io_print "" ;;;
   io_print "Matrix A:" ;;;
   pretty_print A 3 ;;;
   B <- choose_matrix "B" ;;
   io_print "" ;;;
   io_print "Matrix B:" ;;;
   pretty_print B 3 ;;;
   res <-
     (if String.eqb choice "1" then
        res <- lift_result (add_matrices A B) ;;
        io_print "Result (A + B):" ;;;
        pretty_print res 3 ;;;
        io_ret res
      else if String.eqb choice "2" then
        res <- lift_result (sub_matrices A B) ;;
        io_print "Result (A - B):" ;;;
        pretty_print res 3 ;;;
        io_ret res
      else
        res <- lift_result (mul_matrices A B) ;;
        io_print "Result (A * B):" ;;;
        pretty_print res 3 ;;;
        io_ret res) ;;
   save_matrix res ;;;
   l <- input "Visualize result? (y/N): " ;;
   if String.eqb (str_lower (str_strip l)) "y" then
     visualize_matrix res "Result"
   else io_ret tt)%io.

(** The branch of [main] for the choice 4. *)
Definition inverse_operation : IO unit :=
  (A <- choose_matrix "A" ;;
   io_print "" ;;;
   io_print "Matrix A:" ;;;
   pretty_print A 3 ;;;
   io_try
     (inv <- lift_py (invert_matrix linalg_cond linalg_inv A) ;;
      io_print "Inverse (A^-1):" ;;;
      pretty_print inv 3 ;;;
      save_matrix inv ;;;
      l <- input "Visualize inverse? (y/N): " ;;
      if String.eqb (str_lower (str_strip l)) "y" then
        visualize_matrix inv "Inverse"
      else io_ret tt)
     is_ValueError
     (fun e => io_print_exn "Error:" e))%io.

Definition main : IO unit :=
  (write Banner ;;;
   io_print "" ;;;
   while_true
     (print_menu ;;;
      l <- input "Choice: " ;;
      let choice := str_lower (str_strip l) in
      if String.eqb choice "q" then
        io_print "Goodbye!" ;;;
        io_ret (Break tt)
      else if String.eqb choice "5" then
        demo ;;;
        io_ret Continue
      else
        io_try
          (if String.eqb choice "1" || String.eqb choice "2"
              || String.eqb choice "3"
           then binary_operation choice
           else if String.eqb choice "4" then inverse_operation
           else io_print "Unknown choice. Try again.")
          is_Exception
          (fun e => io_print_exn "Operation failed:" e) ;;;
        io_ret Continue))%io.
End Shell.

(** ** Specifications of computations *)

(** [io_spec strict E Q c]: from every world, [c] terminates; when it
    returns [x], [Q x] holds; when it raises [e], [E e] holds; it never
    puts lines back on the input, and when [strict] it has read at least
    one line by the time it returns. *)
Definition io_spec {FS X : Type} (strict : bool) (E : pyexn -> Prop)
    (Q : X -> Prop) (c : IO FS X) : Prop :=
  forall w : world FS,
    match c w with
    | (Returns x, w') =>
        Q x /\
        (if strict then length (stdin w') < length (stdin w)
         else length (stdin w') <= length (stdin w))
    | (Raises e, w') => E e /\ length (stdin w') <= length (stdin w)
    | (Diverges, _) => False
    end.

(** What a loop body must establish for the loop to return a value
    satisfying [Q]. *)
Definition step_post {X : Type} (Q : X -> Prop) (s : step X) : Prop :=
  match s with
  | Continue => True
  | Break x => Q x
  end.

(** A line of [input_matrix] holds exactly [cols] numbers. *)
Definition row_of (line : string) : list float :=
  filter_map numeric_value (tokens (str_strip line)).

Definition good_row (cols : Z) (line : string) : bool :=
  Z.eqb (Z.of_nat (length (row_of line))) cols.

(** The lines read for one row: the rejected ones, then the accepted
    one. *)
Definition row_attempts (g : list string * string) : list string :=
  fst g ++ [snd g].

(** ** Exact sums of doubles *)

(** The value of a zero or a finite double in units of [2^-1074], the
    smallest positive double. *)
Definition sf_units (x : spec_float) : option Z :=
  match x with
  | S754_zero _ => Some 0%Z
  | S754_finite s m e => Some (cond_Zopp s (Zpos m) * 2 ^ (e + 1074))%Z
  | _ => None
  end.

Definition float_units (x : float) : option Z := sf_units (Prim2SF x).

(** [a + b] is computed without rounding: the operands are zeros or
    finite numbers, and so is the sum the arithmetic gives, whose value is
    the sum of their values. *)
Definition exact_sum (a b : float) : bool :=
  match float_units a, float_units b, float_units (a + b) with
  | Some u, Some v, Some w => Z.eqb w (u + v)
  | _, _, _ => false
  end.

(** ** Notions used by the properties of the shell *)

(** [input] at the end of the input, or a [ValueError]. *)
Definition eof_or_value (e : pyexn) : Prop :=
  e = EOFError \/ exists msg, e = Std (ValueError msg).

(** A [ValueError] of NumPy's for a shape of positive sizes it refuses. *)
Definition shape_refused (e : pyexn) : Prop :=
  exists rows cols msg,
    (0 < rows)%Z /\ (0 < cols)%Z /\
    shape_error rows cols = Some msg /\ e = Std (ValueError msg).

(** A rectangular array with at least one row and one column. *)
Definition proper_matrix (M : ndarray float) : Prop :=
  wf M /\ 0 < fst (shape M) /\ 0 < snd (shape M).

(** [c] reads no input, draws no random number and leaves the files. *)
Definition quiet {FS X : Type} (c : IO FS X) : Prop :=
  forall w : world FS,
    stdin (snd (c w)) = stdin w /\ drawn (snd (c w)) = drawn w /\
    files (snd (c w)) = files w.

(** ** A sample environment

    Surroundings to run the shell in: no file can be read, every file can
    be written, the random generator always answers one half, matplotlib
    is missing. *)
Definition sample_loadtxt (fs : unit) (path : string)
    : pyexn + ndarray float :=
  inl (OtherError (path ++ " not found.")).

Definition sample_savetxt (fs : unit) (path : string) (mat : ndarray float)
    : unit * option pyexn :=
  (tt, None).

Definition sample_uniform (n : nat) : float := 0.5%float.

Definition sample_show_figure (title : string) (M : ndarray float)
    : option pyexn :=
  None.

Definition sample_world (lines : list string) : world unit :=
  mk_world lines [] 0 tt.

(** * Properties *)

(** ** Arrays *)

Section ArrayFacts.
Context {F : Type} `{DType F}.

Lemma shape_eqb_eq (s t : nat * nat) : shape_eqb s t = true <-> s = t.
Proof.
  destruct s as [a b], t as [c d]; unfold shape_eqb; simpl.
  rewrite andb_true_iff, !Nat.eqb_eq.
  split; [intros [-> ->]; reflexivity | intros E; inversion E; auto].
Qed.

Lemma shape_eqb_neq (s t : nat * nat) : shape_eqb s t = false <-> s <> t.
Proof.
  rewrite <- shape_eqb_eq. destruct (shape_eqb s t); split; congruence.
Qed.

Lemma nth_nil_dzero (j : nat) : nth j (@nil F) dzero = dzero.
Proof. destruct j; reflexivity. Qed.

Lemma map2_length (f : F -> F -> F) (u v : list F) :
  length (map2 f u v) = Nat.min (length u) (length v).
Proof.
  revert v; induction u as [|x u IH]; intros [|y v]; simpl; auto.
Qed.

Lemma map2_rows_length (f : F -> F -> F) (a b : list (list F)) :
  length (map2_rows f a b) = Nat.min (length a) (length b).
Proof.
  revert b; induction a as [|r a IH]; intros [|s b]; simpl; auto.
Qed.

Lemma nth_map2 (f : F -> F -> F) (u v : list F) (j : nat) (d : F) :
  j < length u -> j < length v ->
  nth j (map2 f u v) d = f (nth j u d) (nth j v d).
Proof.
  revert v j; induction u as [|x u IH]; intros [|y v] [|j]; simpl;
    try lia; auto.
  intros; apply IH; lia.
Qed.

Lemma nth_map2_rows (f : F -> F -> F) (a b : list (list F)) (i : nat) :
  i < length a -> i < length b ->
  nth i (map2_rows f a b) [] = map2 f (nth i a []) (nth i b []).
Proof.
  revert b i; induction a as [|r a IH]; intros [|s b] [|i]; simpl;
    try lia; auto.
  intros; apply IH; lia.
Qed.

Lemma map2_rows_Forall (f : F -> F -> F) (a b : list (list F)) (n : nat) :
  Forall (fun r => length r = n) a ->
  Forall (fun r => length r = n) b ->
  Forall (fun r => length r = n) (map2_rows f a b).
Proof.
  intros Ha; revert b; induction Ha as [|r a Hr Ha IH];
    intros b Hb; destruct Hb as [|s b Hs Hb]; simpl; constructor.
  - rewrite map2_length, Hr, Hs. apply Nat.min_id.
  - apply IH, Hb.
Qed.

Lemma wf_row (A : ndarray F) (i : nat) :
  wf A -> i < fst (shape A) -> length (nth i (data A) []) = snd (shape A).
Proof.
  intros [Hl Hr] Hi. rewrite Forall_forall in Hr.
  apply Hr, nth_In. lia.
Qed.

(** Element-wise operations: shape, invariant and entries. *)
Lemma map2_rows_entry (f : F -> F -> F) (A B : ndarray F) (i j : nat) :
  wf A -> wf B -> shape A = shape B ->
  i < fst (shape A) -> j < snd (shape A) ->
  entry (mk_ndarray (shape A) (map2_rows f (data A) (data B))) i j
  = f (entry A i j) (entry B i j).
Proof.
  intros HA HB E Hi Hj. unfold entry; simpl.
  pose proof (wf_row HA Hi) as RA.
  assert (Hi' : i < fst (shape B)) by (rewrite <- E; exact Hi).
  pose proof (wf_row HB Hi') as RB.
  destruct HA as [LA _], HB as [LB _].
  rewrite nth_map2_rows by lia.
  apply nth_map2; rewrite ?RA, ?RB, <- ?E; assumption.
Qed.

Lemma map2_rows_wf (f : F -> F -> F) (A B : ndarray F) :
  wf A -> wf B -> shape A = shape B ->
  wf (mk_ndarray (shape A) (map2_rows f (data A) (data B))).
Proof.
  intros [LA RA] [LB RB] E. split; simpl.
  - rewrite map2_rows_length, LA, LB, E. apply Nat.min_id.
  - apply map2_rows_Forall; [exact RA | rewrite E; exact RB].
Qed.

Lemma sum_upto_from (n : nat) (f : nat -> F) :
  sum_upto n f = sum_from dzero n f.
Proof. induction n as [|n IH]; simpl; [reflexivity | now rewrite IH]. Qed.

Lemma sum_from_shift (acc : F) (n : nat) (f : nat -> F) :
  sum_from acc (S n) f = sum_from (dadd acc (f 0)) n (fun k => f (S k)).
Proof.
  induction n as [|n IH]; [reflexivity|].
  change (sum_from acc (S (S n)) f)
    with (dadd (sum_from acc (S n) f) (f (S n))).
  rewrite IH. reflexivity.
Qed.

Lemma sum_from_ext (acc : F) (n : nat) (f g : nat -> F) :
  (forall k, k < n -> f k = g k) -> sum_from acc n f = sum_from acc n g.
Proof.
  induction n as [|n IH]; intros E; simpl; [reflexivity|].
  rewrite IH, E by (intros; auto with arith). reflexivity.
Qed.

Lemma inner_sum_from (u v : list F) (acc : F) :
  length u = length v ->
  inner acc u v
  = sum_from acc (length u) (fun k => dmul (nth k u dzero) (nth k v dzero)).
Proof.
  revert v acc; induction u as [|x u IH]; intros [|y v] acc E;
    simpl in E; try discriminate; [reflexivity|].
  cbn [length]. rewrite sum_from_shift. cbn [inner nth].
  apply IH. now inversion E.
Qed.

Lemma nth_column (b : list (list F)) (j k : nat) :
  nth k (column b j) dzero = nth j (nth k b []) dzero.
Proof.
  unfold column.
  rewrite <- (nth_nil_dzero j) at 1.
  apply (map_nth (fun r => nth j r dzero)).
Qed.

(** The entries of [A.dot(B)] are the sums of products. *)
Lemma ndarray_dot_entry (A B : ndarray F) (i j : nat) :
  wf A -> wf B -> snd (shape A) = fst (shape B) ->
  i < fst (shape A) -> j < snd (shape B) ->
  entry (ndarray_dot A B) i j
  = sum_upto (snd (shape A)) (fun k => dmul (entry A i k) (entry B k j)).
Proof.
  intros HA HB E Hi Hj. unfold entry, ndarray_dot; simpl.
  pose proof (wf_row HA Hi) as RA.
  destruct HA as [LA _], HB as [LB _].
  set (g := fun r : list F =>
              map (fun j => inner dzero r (column (data B) j))
                  (seq 0 (snd (shape B)))).
  rewrite (nth_indep _ [] (g [])) by (rewrite length_map; lia).
  rewrite (map_nth g). unfold g.
  set (h := fun j => inner dzero (nth i (data A) []) (column (data B) j)).
  rewrite (nth_indep _ dzero (h 0)) by (rewrite length_map, length_seq; lia).
  rewrite (map_nth h), seq_nth by lia. unfold h; simpl.
  rewrite inner_sum_from
    by (unfold column; rewrite length_map, RA, LB; exact E).
  rewrite RA, sum_upto_from.
  apply sum_from_ext. intros k _. now rewrite nth_column.
Qed.

Lemma ndarray_dot_wf (A B : ndarray F) : wf A -> wf (ndarray_dot A B).
Proof.
  intros [LA _]. split; simpl.
  - now rewrite length_map.
  - rewrite Forall_forall. intros r Hr. apply in_map_iff in Hr.
    destruct Hr as [r0 [<- _]]. now rewrite length_map, length_seq.
Qed.

End ArrayFacts.

(** ** The binary operations *)

(** The invariant of an array given by a literal. *)
Ltac wf_literal := split; [reflexivity | repeat constructor].

(** C1. For 2-D matrices [A] (m x n) and [B] (q x p): when [n = q],
    [mul_matrices A B] returns a matrix of shape (m, p) whose entry (i, j)
    is the sum over k of [A[i][k] * B[k][j]]; when [n <> q] it fails with
    the inner-dimension error. *)
Theorem mul_matrices_spec (F : Type) (D : DType F) (A B : ndarray F) :
  wf A -> wf B ->
  (snd (shape A) = fst (shape B) ->
   exists C,
     mul_matrices A B = inr C /\ wf C /\
     shape C = (fst (shape A), snd (shape B)) /\
     forall i j, i < fst (shape A) -> j < snd (shape B) ->
       entry C i j
       = sum_upto (snd (shape A)) (fun k => dmul (entry A i k) (entry B k j)))
  /\
  (snd (shape A) <> fst (shape B) ->
   mul_matrices A B = inl InnerDimensionMismatch).
Proof.
  intros HA HB. unfold mul_matrices. split; intros E.
  - apply Nat.eqb_eq in E as Eb. rewrite Eb; simpl.
    exists (ndarray_dot A B).
    split; [reflexivity | split; [| split; [reflexivity |]]].
    + now apply ndarray_dot_wf.
    + intros i j Hi Hj. now apply ndarray_dot_entry.
  - apply Nat.eqb_neq in E. rewrite E. reflexivity.
Qed.

Lemma mul_matrices_spec_witness :
  wf demo_A /\ wf demo_B /\
  ((snd (shape demo_A) = fst (shape demo_B) ->
    exists C,
      mul_matrices demo_A demo_B = inr C /\ wf C /\
      shape C = (fst (shape demo_A), snd (shape demo_B)) /\
      forall i j, i < fst (shape demo_A) -> j < snd (shape demo_B) ->
        entry C i j
        = sum_upto (snd (shape demo_A))
            (fun k => dmul (entry demo_A i k) (entry demo_B k j)))
   /\
   (snd (shape demo_A) <> fst (shape demo_B) ->
    mul_matrices demo_A demo_B = inl InnerDimensionMismatch)).
Proof.
  assert (HA : wf demo_A) by wf_literal.
  assert (HB : wf demo_B) by wf_literal.
  split; [exact HA | split; [exact HB |]].
  exact (mul_matrices_spec float64 HA HB).
Defined.

(** C2. [add_matrices A B] and [sub_matrices A B] succeed exactly when
    the shapes are equal; they then return the element-wise sum,
    respectively difference, in the shape of the operands; when the shapes
    differ each fails with its shape error. *)
Theorem add_sub_matrices_spec (F : Type) (D : DType F) (A B : ndarray F) :
  wf A -> wf B ->
  (((exists C, add_matrices A B = inr C) <-> shape A = shape B) /\
   (shape A = shape B ->
    exists C,
      add_matrices A B = inr C /\ wf C /\ shape C = shape A /\
      forall i j, i < fst (shape A) -> j < snd (shape A) ->
        entry C i j = dadd (entry A i j) (entry B i j)) /\
   (shape A <> shape B -> add_matrices A B = inl ShapeMismatch_add))
  /\
  (((exists C, sub_matrices A B = inr C) <-> shape A = shape B) /\
   (shape A = shape B ->
    exists C,
      sub_matrices A B = inr C /\ wf C /\ shape C = shape A /\
      forall i j, i < fst (shape A) -> j < snd (shape A) ->
        entry C i j = dsub (entry A i j) (entry B i j)) /\
   (shape A <> shape B -> sub_matrices A B = inl ShapeMismatch_sub)).
Proof.
  intros HA HB. unfold add_matrices, sub_matrices.
  destruct (shape_eqb (shape A) (shape B)) eqn:Eb; simpl.
  - apply shape_eqb_eq in Eb.
    split; (split; [split; [intros _; exact Eb | intros _; eexists; reflexivity]
                   | split; [intros _ | intros N; contradiction]]).
    + exists (ndarray_add A B).
      split; [reflexivity | split; [| split; [reflexivity |]]].
      * apply (map2_rows_wf dadd HA HB Eb).
      * intros i j Hi Hj. now apply map2_rows_entry.
    + exists (ndarray_sub A B).
      split; [reflexivity | split; [| split; [reflexivity |]]].
      * apply (map2_rows_wf dsub HA HB Eb).
      * intros i j Hi Hj. now apply map2_rows_entry.
  - apply shape_eqb_neq in Eb.
    split; (split; [split; [intros [C HC]; discriminate | intros E; contradiction]
                   | split; [intros E; contradiction | intros _; reflexivity]]).
Qed.

Lemma add_sub_matrices_spec_witness :
  wf demo_A /\ wf demo_B /\
  (exists C, add_matrices demo_A demo_B = inr C /\ shape C = (2, 2) /\
             entry C 1 0 = (3 + 7)%float) /\
  (exists C, sub_matrices demo_A demo_B = inr C /\ shape C = (2, 2) /\
             entry C 1 0 = (3 - 7)%float).
Proof.
  assert (HA : wf demo_A) by wf_literal.
  assert (HB : wf demo_B) by wf_literal.
  split; [exact HA | split; [exact HB |]].
  destruct (add_sub_matrices_spec float64 HA HB)
    as [[_ [Hadd _]] [_ [Hsub _]]].
  destruct (Hadd eq_refl) as [C [EC [_ [SC HC]]]].
  destruct (Hsub eq_refl) as [C' [EC' [_ [SC' HC']]]].
  split; [exists C | exists C'];
    (split; [assumption | split; [assumption |]]).
  - apply (HC 1 0); simpl; lia.
  - apply (HC' 1 0); simpl; lia.
Defined.

(** ** Adding then subtracting *)

Section RoundTrip.
Context {F : Type} `{DType F}.

(** Two arrays of one shape with the same entries are the same array. *)
Lemma ndarray_ext (A B : ndarray F) :
  wf A -> wf B -> shape A = shape B ->
  (forall i j, i < fst (shape A) -> j < snd (shape A) ->
     entry A i j = entry B i j) ->
  A = B.
Proof.
  intros HA HB E Hent.
  destruct A as [sA dA], B as [sB dB]; simpl in *. subst sB. f_equal.
  destruct HA as [LA RA], HB as [LB RB]; simpl in *.
  apply (nth_ext _ _ [] []); [congruence|].
  intros i Hi. rewrite LA in Hi.
  assert (La : length (nth i dA []) = snd sA)
    by (apply (wf_row (A := mk_ndarray sA dA)); [split; assumption | exact Hi]).
  assert (Lb : length (nth i dB []) = snd sA)
    by (apply (wf_row (A := mk_ndarray sA dB)); [split; assumption | exact Hi]).
  apply (nth_ext _ _ dzero dzero); [congruence|].
  intros j Hj. rewrite La in Hj. exact (Hent i j Hi Hj).
Qed.

Lemma sub_add_value (A B : ndarray F) :
  shape A = shape B ->
  sub_add A B = inr (ndarray_sub (ndarray_add A B) B).
Proof.
  intros E. unfold sub_add, add_matrices, sub_matrices.
  apply shape_eqb_eq in E. rewrite E; simpl. rewrite E. reflexivity.
Qed.

End RoundTrip.

(** C5, the claim as stated fails on doubles.  With [A = [[1]]] and
    [B = [[1e16]]] the sum rounds to [1e16], so subtracting [B] again
    gives [[0]], which is neither [A] nor within [1e-9] of it.  With
    [A = B = [[1e308]]] the sum overflows, and the result is infinitely
    far from [A]. *)
Lemma sub_add_not_identity :
  (wf (np_array [[1%float]]) /\ wf (np_array [[1e16%float]]) /\
   shape (np_array [[1%float]]) = shape (np_array [[1e16%float]]) /\
   sub_add (np_array [[1%float]]) (np_array [[1e16%float]])
   = inr (np_array [[0%float]]) /\
   sub_add (np_array [[1%float]]) (np_array [[1e16%float]])
   <> inr (np_array [[1%float]]) /\
   (1e-9 <? fdist 0 1)%float = true)
  /\
  (wf (np_array [[1e308%float]]) /\
   sub_add (np_array [[1e308%float]]) (np_array [[1e308%float]])
   = inr (np_array [[PrimFloat.infinity]]) /\
   fdist PrimFloat.infinity 1e308 = PrimFloat.infinity).
Proof.
  split.
  - split; [wf_literal |].
    split; [wf_literal |].
    split; [reflexivity |].
    split; [reflexivity |].
    split; [| reflexivity].
    intros E.
    apply (f_equal (fun r => match r with
                             | inr M => PrimFloat.eqb (entry M 0 0) 0%float
                             | inl _ => false
                             end)) in E.
    vm_compute in E. discriminate E.
  - split; [wf_literal |].
    split; reflexivity.
Qed.

(** ** Inversion *)

Section InvertFacts.
Variable linalg_cond : ndarray float -> string + float.
Variable linalg_inv : ndarray float -> string + ndarray float.

Abbreviation invert := (invert_matrix linalg_cond linalg_inv).

Lemma invert_matrix_not_square (A : ndarray float) (t : trace) :
  fst (shape A) <> snd (shape A) ->
  invert A t = (inl NotSquare, t).
Proof.
  intros N. unfold invert_matrix.
  apply Nat.eqb_neq in N. rewrite N. reflexivity.
Qed.

(** An exception raised by the estimate propagates out of
    [invert_matrix]: the call is outside the [try] block. *)
Lemma invert_matrix_cond_raises (A : ndarray float) (t : trace) (msg : string) :
  fst (shape A) = snd (shape A) -> linalg_cond A = inl msg ->
  invert A t = (inl (LinAlgError msg), t ++ [Called_cond]).
Proof.
  intros E C. unfold invert_matrix, np_linalg_cond, bind, emit, raise.
  apply Nat.eqb_eq in E. rewrite E, C. reflexivity.
Qed.

Lemma invert_matrix_square (A : ndarray float) (t : trace) (c : float) :
  fst (shape A) = snd (shape A) -> linalg_cond A = inr c ->
  invert A t
  = (inversion_outcome (linalg_inv A),
     t ++ [Called_cond] ++ warning_for c ++ [Called_inv]).
Proof.
  intros E C.
  unfold invert_matrix, np_linalg_cond, np_linalg_inv, try_except, bind,
    print, emit, raise, ret, warning_for.
  apply Nat.eqb_eq in E. rewrite E, C. simpl.
  destruct (1e12 <? c)%float; destruct (linalg_inv A) as [m | M]; simpl;
    rewrite <- !app_assoc; reflexivity.
Qed.

(** A returned matrix is the one [numpy.linalg.inv] computed, for a
    square argument. *)
Lemma invert_matrix_inr (A M : ndarray float) (t : trace) :
  fst (invert A t) = inr M ->
  fst (shape A) = snd (shape A) /\ linalg_inv A = inr M.
Proof.
  intros R.
  destruct (Nat.eq_dec (fst (shape A)) (snd (shape A))) as [E | N].
  - split; [exact E |].
    destruct (linalg_cond A) as [msg | c] eqn:C.
    + rewrite (@invert_matrix_cond_raises A t msg E C) in R. discriminate.
    + rewrite (@invert_matrix_square A t c E C) in R. simpl in R.
      destruct (linalg_inv A); simpl in R; congruence.
  - rewrite (@invert_matrix_not_square A t N) in R. discriminate.
Qed.

Lemma inversion_outcome_singular (r : string + ndarray float) :
  inversion_outcome r = inl SingularMatrix <-> exists msg, r = inl msg.
Proof.
  destruct r as [m | M]; simpl; split.
  - intros _. now exists m.
  - reflexivity.
  - discriminate.
  - intros [m Hm]. discriminate.
Qed.

End InvertFacts.

(** Two diagonal inputs for the examples: an ill-conditioned invertible
    matrix and a singular one. *)
Lemma diag_ill_conditioned :
  diag_cond (np_array [[1; 0]; [0; 1e-13]]%float) = inr 1e13%float /\
  diag_inv (np_array [[1; 0]; [0; 1e-13]]%float)
  = inr (np_array [[1; 0]; [0; 1e13]]%float).
Proof. split; reflexivity. Qed.

Lemma diag_singular :
  diag_cond (np_array [[1; 0]; [0; 0]]%float) = inr PrimFloat.infinity /\
  diag_inv (np_array [[1; 0]; [0; 0]]%float) = inl "Singular matrix"%string.
Proof. split; reflexivity. Qed.

(** C3, the claim as stated leaves out an outcome.  The estimate is
    computed outside the [try] block, and [numpy.linalg.cond] raises on an
    empty array.  The 0 x 0 array is square and has an inverse (itself),
    the random option of [choose_matrix] builds it when asked for no row
    and no column, and on it [invert_matrix] neither fails with the
    singular-matrix error nor returns a matrix: the [LinAlgError] of the
    estimate leaves it, before [numpy.linalg.inv] is called. *)
Lemma invert_matrix_estimate_fails :
  fst (choose_matrix sample_loadtxt sample_uniform "A"
         (sample_world ["3"; "0"; "0"; ""]%string))
  = Returns (mk_ndarray (0, 0) []) /\
  wf (mk_ndarray (0, 0) ([] : list (list float))) /\
  fst (shape (mk_ndarray (0, 0) ([] : list (list float))))
  = snd (shape (mk_ndarray (0, 0) ([] : list (list float)))) /\
  diag_inv (mk_ndarray (0, 0) []) = inr (mk_ndarray (0, 0) []) /\
  invert_matrix diag_cond diag_inv (mk_ndarray (0, 0) []) []
  = (inl (LinAlgError "cond is not defined on empty arrays"), [Called_cond])
  /\
  LinAlgError "cond is not defined on empty arrays" <> SingularMatrix.
Proof.
  split; [vm_compute; reflexivity |].
  split; [split; [reflexivity | constructor] |].
  split; [reflexivity |].
  split; [reflexivity |].
  split; [reflexivity | discriminate].
Qed.

(** C3, amended.  [invert_matrix A] fails with the not-square error
    exactly when the two dimensions differ.  For a square [A] the
    condition number is estimated first: when the estimate raises, its
    [LinAlgError] leaves [invert_matrix]; when it returns,
    [invert_matrix] fails with the singular-matrix error exactly when
    [numpy.linalg.inv] finds no inverse, and otherwise returns the matrix
    [numpy.linalg.inv] computed.  A matrix is returned, and the
    singular-matrix error raised, only for a square [A] whose estimate
    returned; the matrix is then the complete result of
    [numpy.linalg.inv]. *)
Theorem invert_matrix_errors
    (linalg_cond : ndarray float -> string + float)
    (linalg_inv : ndarray float -> string + ndarray float)
    (A : ndarray float) (t : trace) :
  (fst (invert_matrix linalg_cond linalg_inv A t) = inl NotSquare
   <-> fst (shape A) <> snd (shape A))
  /\
  (fst (shape A) = snd (shape A) ->
   forall msg, linalg_cond A = inl msg ->
     invert_matrix linalg_cond linalg_inv A t
     = (inl (LinAlgError msg), t ++ [Called_cond]))
  /\
  (fst (shape A) = snd (shape A) ->
   forall c, linalg_cond A = inr c ->
     (fst (invert_matrix linalg_cond linalg_inv A t) = inl SingularMatrix
      <-> exists msg, linalg_inv A = inl msg)
     /\
     (forall M, linalg_inv A = inr M ->
        fst (invert_matrix linalg_cond linalg_inv A t) = inr M))
  /\
  (forall M, fst (invert_matrix linalg_cond linalg_inv A t) = inr M ->
     fst (shape A) = snd (shape A) /\
     (exists c, linalg_cond A = inr c) /\ linalg_inv A = inr M)
  /\
  (fst (invert_matrix linalg_cond linalg_inv A t) = inl SingularMatrix ->
   fst (shape A) = snd (shape A) /\
   (exists c, linalg_cond A = inr c) /\ exists msg, linalg_inv A = inl msg).
Proof.
  destruct (Nat.eq_dec (fst (shape A)) (snd (shape A))) as [E | N].
  - destruct (linalg_cond A) as [msg | c] eqn:C.
    + rewrite (invert_matrix_cond_raises linalg_cond linalg_inv A t E C).
      simpl. split; [| split; [| split; [| split]]].
      * split; [discriminate | intros N; contradiction].
      * intros _ msg0 Hmsg0. inversion Hmsg0. reflexivity.
      * intros _ c0 Hc0. discriminate.
      * discriminate.
      * discriminate.
    + rewrite (invert_matrix_square linalg_cond linalg_inv A t E C).
      simpl. split; [| split; [| split; [| split]]].
      * split; [| intros N; contradiction].
        destruct (linalg_inv A); discriminate.
      * intros _ msg0 Hmsg0. discriminate.
      * intros _ c0 _. split.
        -- apply inversion_outcome_singular.
        -- intros M HM. rewrite HM. reflexivity.
      * intros M HM. split; [exact E |]. split; [now exists c |].
        apply (invert_matrix_inr linalg_cond linalg_inv A t).
        now rewrite (invert_matrix_square linalg_cond linalg_inv A t E C).
      * intros HS. split; [exact E |]. split; [now exists c |].
        now apply inversion_outcome_singular.
  - rewrite (invert_matrix_not_square linalg_cond linalg_inv A t N).
    simpl. split; [| split; [| split; [| split]]].
    + split; [intros _; exact N | reflexivity].
    + intros E. contradiction.
    + intros E. contradiction.
    + discriminate.
    + discriminate.
Qed.

Lemma invert_matrix_errors_witness :
  fst (invert_matrix diag_cond diag_inv (np_array [[1; 0]; [0; 0]]%float) [])
  = inl SingularMatrix /\
  fst (invert_matrix diag_cond diag_inv
         (np_array [[1; 0]; [0; 1e-13]]%float) [])
  = inr (np_array [[1; 0]; [0; 1e13]]%float) /\
  invert_matrix diag_cond diag_inv (mk_ndarray (0, 0) []) []
  = (inl (LinAlgError "cond is not defined on empty arrays"), [Called_cond]).
Proof.
  split; [| split].
  - destruct (invert_matrix_errors diag_cond diag_inv
                (np_array [[1; 0]; [0; 0]]%float) []) as [_ [_ [H _]]].
    destruct (H eq_refl PrimFloat.infinity eq_refl) as [[_ S] _].
    apply S. exists "Singular matrix"%string. reflexivity.
  - destruct (invert_matrix_errors diag_cond diag_inv
                (np_array [[1; 0]; [0; 1e-13]]%float) []) as [_ [_ [H _]]].
    destruct (H eq_refl 1e13%float eq_refl) as [_ R].
    apply R. reflexivity.
  - destruct (invert_matrix_errors diag_cond diag_inv
                (mk_ndarray (0, 0) []) []) as [_ [H _]].
    exact (H eq_refl "cond is not defined on empty arrays"%string eq_refl).
Defined.

(** C4. For a square [A] whose condition estimate exceeds [1e12],
    [invert_matrix A] prints the warning after the estimate and before
    the inversion, the inversion is still carried out and its matrix
    returned, and the outcome is the one any other estimate would have
    led to: the warning neither blocks nor aborts. *)
Theorem invert_matrix_warns
    (linalg_cond : ndarray float -> string + float)
    (linalg_inv : ndarray float -> string + ndarray float)
    (A : ndarray float) (t : trace) (c : float) :
  fst (shape A) = snd (shape A) ->
  linalg_cond A = inr c ->
  (1e12 <? c)%float = true ->
  snd (invert_matrix linalg_cond linalg_inv A t)
  = t ++ [Called_cond; Printed (ConditionWarning c); Called_inv]
  /\
  (forall M, linalg_inv A = inr M ->
     fst (invert_matrix linalg_cond linalg_inv A t) = inr M)
  /\
  (forall (linalg_cond' : ndarray float -> string + float) (c' : float),
     linalg_cond' A = inr c' ->
     fst (invert_matrix linalg_cond' linalg_inv A t)
     = fst (invert_matrix linalg_cond linalg_inv A t)).
Proof.
  intros E C L.
  rewrite (invert_matrix_square linalg_cond linalg_inv A t E C).
  unfold warning_for. rewrite L. simpl. split; [reflexivity | split].
  - intros M HM. rewrite HM. reflexivity.
  - intros cond' c' C'.
    rewrite (invert_matrix_square cond' linalg_inv A t E C'). reflexivity.
Qed.

Lemma invert_matrix_warns_witness :
  snd (invert_matrix diag_cond diag_inv
         (np_array [[1; 0]; [0; 1e-13]]%float) [])
  = [Called_cond; Printed (ConditionWarning 1e13); Called_inv] /\
  fst (invert_matrix diag_cond diag_inv
         (np_array [[1; 0]; [0; 1e-13]]%float) [])
  = inr (np_array [[1; 0]; [0; 1e13]]%float).
Proof.
  destruct (@invert_matrix_warns diag_cond diag_inv
              (np_array [[1; 0]; [0; 1e-13]]%float) [] 1e13%float
              eq_refl eq_refl eq_refl) as [T [R _]].
  split; [exact T | apply R; reflexivity].
Defined.




(** ** The product of a matrix with its inverse *)

(** *** Rounding of very small products *)

Section SpecFloatFacts.
Local Open Scope Z_scope.

Lemma iter_pos_invariant {A : Type} (f : A -> A) (P : A -> Prop) :
  (forall x, P x -> P (f x)) ->
  forall (p : positive) (x : A), P x -> P (iter_pos f p x).
Proof.
  intros Hf. induction p as [p IH | p IH |]; intros x Hx; simpl; auto.
Qed.

Lemma shr_1_bound (B : Z) (r : shr_record) :
  0 <= shr_m r <= B -> 0 <= shr_m (shr_1 r) <= B.
Proof.
  destruct r as [m rr s]; simpl.
  destruct m as [| [p | p |] | [p | p |]]; simpl; lia.
Qed.

Lemma round_nearest_even_bound (m : Z) (l : location) :
  m <= round_nearest_even m l <= m + 1.
Proof.
  destruct l as [| []]; simpl; try lia. destruct (Z.even m); lia.
Qed.

Lemma digits2_pos_log2 (p : positive) :
  Zpos (digits2_pos p) = Z.log2 (Zpos p) + 1.
Proof.
  assert (E : forall q, digits2_pos q = Pos.size q)
    by (induction q; simpl; congruence).
  rewrite E. destruct p; simpl; lia.
Qed.

Lemma Zdigits2_bound (z k : Z) : 0 <= z < 2 ^ k -> 0 <= k -> Zdigits2 z <= k.
Proof.
  intros [Hz Hk] K. destruct z as [| p | p]; simpl; try lia.
  rewrite digits2_pos_log2.
  assert (Z.log2 (Zpos p) < k) by (apply Z.log2_lt_pow2; lia). lia.
Qed.

Lemma digits2_pos_value (p : positive) (k : Z) :
  Zpos (digits2_pos p) <= k -> Zpos p < 2 ^ k.
Proof.
  rewrite digits2_pos_log2. intros H.
  apply Z.log2_lt_pow2; lia.
Qed.

(** Rounding a product of magnitude below [2^-50]: the result is zero or
    has a small exponent. *)
Lemma binary_round_aux_tiny (s : bool) (m : positive) (e : Z) :
  Zpos (digits2_pos m) <= 53 -> e <= -103 ->
  match binary_round_aux prec emax s (Zpos m) e loc_Exact with
  | S754_finite _ _ e'' => e'' <= -100
  | S754_infinity _ => False
  | _ => True
  end.
Proof.
  intros Hd He.
  pose proof (@digits2_pos_value m 53 Hd) as Hm.
  unfold binary_round_aux, shr_fexp.
  set (r0 := shr_record_of_loc (Zpos m) loc_Exact).
  assert (Hr0 : 0 <= shr_m r0 <= Zpos m) by (simpl; lia).
  destruct (shr r0 e (fexp prec emax (Zdigits2 (Zpos m) + e) - e))
    as [mrs' e'] eqn:S1.
  assert (H1 : 0 <= shr_m mrs' <= Zpos m /\ e' <= -103).
  { unfold shr in S1. simpl Zdigits2 in S1.
    destruct (fexp prec emax (Zpos (digits2_pos m) + e) - e) as [| n | n] eqn:N;
      inversion S1; subst; clear S1.
    - split; [exact Hr0 | exact He].
    - split.
      + apply (@iter_pos_invariant _ shr_1 (fun r => 0 <= shr_m r <= Zpos m));
          [intros x; apply shr_1_bound | exact Hr0].
      + unfold fexp, SpecFloat.emin, prec, emax in N. lia.
    - split; [exact Hr0 | exact He]. }
  destruct H1 as [Hm' He'].
  set (m1 := round_nearest_even (shr_m mrs') (loc_of_shr_record mrs')).
  pose proof (round_nearest_even_bound (shr_m mrs') (loc_of_shr_record mrs'))
    as Hm1. fold m1 in Hm1.
  assert (Hd1 : Zdigits2 m1 <= 54).
  { apply Zdigits2_bound; [| lia]. split; [lia |].
    change (2 ^ 54) with (2 * 2 ^ 53). lia. }
  destruct (shr (shr_record_of_loc m1 loc_Exact) e'
              (fexp prec emax (Zdigits2 m1 + e') - e')) as [mrs'' e''] eqn:S2.
  assert (H2 : e'' <= -100).
  { unfold shr in S2.
    destruct (fexp prec emax (Zdigits2 m1 + e') - e') as [| n | n] eqn:N;
      inversion S2; subst; clear S2; try lia.
    unfold fexp, SpecFloat.emin, prec, emax in N. lia. }
  destruct (shr_m mrs'') as [| q | q]; try exact I.
  replace (e'' <=? emax - prec) with true; [exact H2 |].
  symmetry. apply Z.leb_le. unfold emax, prec. lia.
Qed.

Lemma valid_binary_finite (s : bool) (m : positive) (e : Z) :
  valid_binary (S754_finite s m e) = true ->
  Zpos (digits2_pos m) <= 53 /\ -1074 <= e <= 971.
Proof.
  simpl. unfold bounded, canonical_mantissa, fexp, SpecFloat.emin, prec, emax.
  rewrite andb_true_iff, Z.eqb_eq, Z.leb_le. lia.
Qed.
End SpecFloatFacts.

(** No double [y] brings [5e-324 * y] between [lo] and [hi] when [lo] is
    a positive number of exponent above [-100]. *)
Lemma tiny_times_any (lo hi y : float) (ml mh : positive) (el eh : Z) :
  Prim2SF lo = S754_finite false ml el -> (-100 < el)%Z ->
  Prim2SF hi = S754_finite false mh eh ->
  ((lo <=? 0 + 5e-324 * y) && (0 + 5e-324 * y <=? hi))%float = false.
Proof.
  intros Hlo Hel Hhi.
  rewrite !leb_spec, add_spec, mul_spec, Hlo, Hhi.
  change (Prim2SF 0) with (S754_zero false).
  change (Prim2SF 5e-324) with (S754_finite false 1 (-1074)).
  pose proof (Prim2SF_valid y) as V.
  destruct (Prim2SF y) as [sy | sy | | sy my ey].
  - destruct sy; reflexivity.
  - destruct sy; reflexivity.
  - reflexivity.
  - apply valid_binary_finite in V. destruct V as [Vd Ve].
    pose proof (@binary_round_aux_tiny sy my (-1074 + ey) Vd ltac:(lia)) as T.
    change (SF64mul (S754_finite false 1 (-1074)) (S754_finite sy my ey))
      with (binary_round_aux prec emax sy (Zpos my) (-1074 + ey) loc_Exact).
    destruct (binary_round_aux prec emax sy (Zpos my) (-1074 + ey) loc_Exact)
      as [s | s | | s m e].
    + destruct s; reflexivity.
    + contradiction.
    + reflexivity.
    + destruct s; [reflexivity |].
      unfold SF64add. cbn [SFadd SFleb SFcompare].
      replace (el ?= e)%Z with Gt by (symmetry; apply Z.compare_gt_iff; lia).
      reflexivity.
Qed.

Lemma below_one_sf :
  Prim2SF (1 - 1e-9)%float = S754_finite false 9007199245733793 (-53).
Proof. reflexivity. Qed.

Lemma above_one_sf :
  Prim2SF (1 + 1e-9)%float = S754_finite false 4503599631874096 (-52).
Proof. reflexivity. Qed.

(** Whatever the second factor, the product with [tiny_A] has no entry
    (0, 0) within [1e-9] of 1. *)
Lemma tiny_product_far (M : ndarray float) :
  within 1e-9 1 (entry (ndarray_dot tiny_A M) 0 0) = false.
Proof.
  unfold entry, ndarray_dot; simpl.
  destruct (snd (shape M)) as [| q]; [reflexivity |]. simpl.
  destruct (data M) as [| r rows]; [reflexivity |]. simpl.
  unfold within.
  apply (@tiny_times_any (1 - 1e-9) (1 + 1e-9) (nth 0 r 0%float) _ _ _ _
           below_one_sf ltac:(lia) above_one_sf).
Qed.

(** C6, the claim as stated fails.  [tiny_A] is invertible, but its
    inverse exceeds the range of doubles: whatever matrix
    [numpy.linalg.inv] returns for it, the product with [tiny_A] is not
    within [1e-9] of the identity.  With the inverse taken entry by entry,
    [invert_matrix] returns [[inf]] and the product is [[inf]]. *)
Lemma inverse_product_not_identity :
  (wf tiny_A /\ shape tiny_A = (1, 1)) /\
  (forall (linalg_cond : ndarray float -> string + float)
          (linalg_inv : ndarray float -> string + ndarray float)
          (t : trace) (M P : ndarray float),
     fst (invert_matrix linalg_cond linalg_inv tiny_A t) = inr M ->
     mul_matrices tiny_A M = inr P ->
     close_to_identity 1e-9 1 P = false) /\
  (fst (invert_matrix diag_cond diag_inv tiny_A [])
   = inr (np_array [[PrimFloat.infinity]]) /\
   mul_matrices tiny_A (np_array [[PrimFloat.infinity]])
   = inr (np_array [[PrimFloat.infinity]]) /\
   close_to_identity 1e-9 1 (np_array [[PrimFloat.infinity]]) = false).
Proof.
  split; [split; [wf_literal | reflexivity] |].
  split; [| repeat split; reflexivity].
  intros linalg_cond linalg_inv t M P _ HP.
  unfold mul_matrices in HP.
  destruct (negb (Nat.eqb (snd (shape tiny_A)) (fst (shape M))));
    [discriminate |].
  inversion HP; subst P; clear HP.
  unfold close_to_identity. cbn [seq forallb Nat.eqb].
  now rewrite tiny_product_far.
Qed.

(** C6, amended.  When [invert_matrix A] returns a matrix [M] of the
    shape of [A], [M] is the result of [numpy.linalg.inv], and
    [mul_matrices A M] succeeds with the shape of [A] and the sums of
    products [A[i][k] * M[k][j]] as entries; no bound on their distance to
    the identity follows from the code. *)
Theorem mul_invert_spec
    (linalg_cond : ndarray float -> string + float)
    (linalg_inv : ndarray float -> string + ndarray float)
    (A M : ndarray float) (t : trace) :
  wf A -> wf M -> shape M = shape A ->
  fst (invert_matrix linalg_cond linalg_inv A t) = inr M ->
  linalg_inv A = inr M /\
  exists P,
    mul_matrices A M = inr P /\ wf P /\ shape P = shape A /\
    forall i j, i < fst (shape A) -> j < snd (shape A) ->
      entry P i j
      = sum_upto (snd (shape A)) (fun k => dmul (entry A i k) (entry M k j)).
Proof.
  intros HA HM ES R.
  destruct (@invert_matrix_inr linalg_cond linalg_inv A M t R) as [E I].
  split; [exact I |].
  assert (EI : snd (shape A) = fst (shape M)) by (rewrite ES; symmetry; exact E).
  exists (ndarray_dot A M). unfold mul_matrices.
  apply Nat.eqb_eq in EI as Eb. rewrite Eb. cbn [negb].
  split; [reflexivity | split; [now apply ndarray_dot_wf | split]].
  - unfold ndarray_dot; cbn [shape]. rewrite ES.
    destruct (shape A); reflexivity.
  - intros i j Hi Hj. apply ndarray_dot_entry; try assumption.
    now rewrite ES.
Qed.

Lemma mul_invert_spec_witness :
  exists P,
    mul_matrices (np_array [[1; 0]; [0; 1e-13]]%float)
                 (np_array [[1; 0]; [0; 1e13]]%float) = inr P /\
    shape P = (2, 2) /\
    entry P 1 1 = (0 + 0 * 0 + 1e-13 * 1e13)%float.
Proof.
  assert (HA : wf (np_array [[1; 0]; [0; 1e-13]]%float))
    by wf_literal.
  assert (HM : wf (np_array [[1; 0]; [0; 1e13]]%float))
    by wf_literal.
  destruct (@mul_invert_spec diag_cond diag_inv
              (np_array [[1; 0]; [0; 1e-13]]%float)
              (np_array [[1; 0]; [0; 1e13]]%float) [] HA HM eq_refl eq_refl)
    as [_ [P [EP [_ [SP HP]]]]].
  exists P. split; [exact EP | split; [exact SP |]].
  apply (HP 1 1); simpl; lia.
Defined.

(** ** Line parsing *)

(** Replacing commas by spaces and splitting on whitespace is splitting
    on whitespace and commas. *)
Lemma split_from_replace (s cur : string) :
  split_from isspace cur (str_replace "," " " s)
  = split_from is_separator cur s.
Proof.
  revert cur; induction s as [|c s IH]; intros cur; [reflexivity|].
  cbn [str_replace split_from]. unfold is_separator at 1.
  destruct (Ascii.eqb c ",") eqn:Ec.
  - rewrite orb_true_r. change (isspace " ") with true. cbv iota.
    now rewrite IH.
  - rewrite orb_false_r. destruct (isspace c); now rewrite IH.
Qed.

(** [float(s)] returns or raises [ValueError], and prints nothing. *)
Lemma py_float_cases (s : string) :
  (exists x, py_float s = ret x) \/
  (exists msg, py_float s = raise (ValueError msg)).
Proof.
  unfold py_float.
  destruct (drop_underscores _ _) as [u|]; [| right; eexists; reflexivity].
  destruct (string_to_double (strip u)) as [x|];
    [left; eexists | right; eexists]; reflexivity.
Qed.

(** One iteration of the loop of [parse_numbers_from_line]. *)
Lemma parse_step (p : string) (nums : list float) (t : trace) :
  try_except (bind (py_float p) (fun x => ret (nums ++ [x])))
    isinstance_ValueError (fun _ => ret nums) t
  = (inr (nums ++ filter_map numeric_value [p]), t).
Proof.
  unfold numeric_value, filter_map, try_except, bind.
  destruct (py_float_cases p) as [[x Hx] | [msg Hm]].
  - rewrite Hx. reflexivity.
  - rewrite Hm. unfold raise, ret; simpl. now rewrite app_nil_r.
Qed.

Lemma filter_map_cons {X Y : Type} (f : X -> option Y) (x : X) (xs : list X) :
  filter_map f (x :: xs) = filter_map f [x] ++ filter_map f xs.
Proof. simpl. destruct (f x); reflexivity. Qed.

Lemma parse_loop (parts : list string) (nums : list float) (t : trace) :
  for_in parts
    (fun p nums =>
       try_except (bind (py_float p) (fun x => ret (nums ++ [x])))
         isinstance_ValueError (fun _ => ret nums))
    nums t
  = (inr (nums ++ filter_map numeric_value parts), t).
Proof.
  revert nums; induction parts as [|p parts IH]; intros nums.
  - simpl. unfold ret. now rewrite app_nil_r.
  - cbn [for_in]. unfold bind at 1. rewrite parse_step, IH.
    rewrite (filter_map_cons numeric_value p parts), app_assoc. reflexivity.
Qed.

Lemma list_ascii_of_string_snoc (cur : string) (c : ascii) :
  list_ascii_of_string (cur ++ String c EmptyString)
  = list_ascii_of_string cur ++ [c].
Proof. induction cur as [|a cur IH]; simpl; [reflexivity | now rewrite IH]. Qed.

(** Every run [split_from] returns is non-empty and free of separators. *)
Lemma split_from_runs (sep : ascii -> bool) (s cur p : string) :
  forallb (fun c => negb (sep c)) (list_ascii_of_string cur) = true ->
  In p (split_from sep cur s) ->
  p <> EmptyString /\
  forallb (fun c => negb (sep c)) (list_ascii_of_string p) = true.
Proof.
  revert cur; induction s as [|c s IH]; intros cur Hcur Hin.
  - destruct cur; simpl in Hin; [contradiction|].
    destruct Hin as [<- | []]. split; [discriminate | exact Hcur].
  - cbn [split_from] in Hin. destruct (sep c) eqn:Ec.
    + destruct cur; simpl in Hin.
      * apply (IH EmptyString); [reflexivity | exact Hin].
      * destruct Hin as [<- | Hin]; [split; [discriminate | exact Hcur]|].
        apply (IH EmptyString); [reflexivity | exact Hin].
    + apply (IH (cur ++ String c EmptyString)%string); [| exact Hin].
      rewrite list_ascii_of_string_snoc, forallb_app, Hcur. simpl.
      now rewrite Ec.
Qed.

Lemma parse_numbers_from_line_eq (line : string) (t : trace) :
  parse_numbers_from_line line t
  = (inr (filter_map numeric_value (tokens line)), t).
Proof.
  unfold parse_numbers_from_line, str_split, tokens.
  rewrite split_from_replace. apply (parse_loop _ []).
Qed.

(** C8. The line [1,2,3 4 5,6] parses to [1, 2, 3, 4, 5, 6]; in general
    the parser cuts the line at whitespace and commas, drops the tokens
    [float] rejects, and keeps the numbers of the others in the order of
    the line. *)
Theorem parse_numbers_from_line_spec :
  parse_numbers_from_line "1,2,3 4 5,6" []
  = (inr [1; 2; 3; 4; 5; 6]%float, [])
  /\
  (forall (line : string) (t : trace),
     parse_numbers_from_line line t
     = (inr (filter_map numeric_value (tokens line)), t))
  /\
  (forall (line p : string),
     In p (tokens line) ->
     p <> EmptyString /\
     forallb (fun c => negb (isspace c || Ascii.eqb c ","))
       (list_ascii_of_string p) = true).
Proof.
  split; [vm_compute; reflexivity |].
  split; [exact parse_numbers_from_line_eq |].
  intros line p Hin.
  apply (split_from_runs is_separator line EmptyString p eq_refl Hin).
Qed.

(** C9. On every string, the empty one and those without a number
    included, [parse_numbers_from_line] returns a list of floats: it never
    raises, whatever the input. *)
Theorem parse_numbers_from_line_total :
  (forall (line : string) (t : trace),
     exists nums : list float,
       parse_numbers_from_line line t = (inr nums, t))
  /\ parse_numbers_from_line "" [] = (inr [], [])
  /\ parse_numbers_from_line "no numbers, here" [] = (inr [], []).
Proof.
  split; [| split; vm_compute; reflexivity].
  intros line t. eexists. apply parse_numbers_from_line_eq.
Qed.

(** ** The demo of [main] and the tests *)

Example demo_add :
  add_matrices demo_A demo_B = inr (np_array [[6; 8]; [10; 12]]%float).
Proof. reflexivity. Qed.

Example demo_sub :
  sub_matrices demo_A demo_B
  = inr (np_array [[-4; -4]; [-4; -4]]%float).
Proof. reflexivity. Qed.

Example demo_mul :
  mul_matrices demo_A demo_B = inr (np_array [[19; 22]; [43; 50]]%float).
Proof. reflexivity. Qed.

(** On the demo matrices no rounding occurs: subtracting [demo_B] from
    the sum gives [demo_A] back. *)
Example demo_sub_add : sub_add demo_A demo_B = inr demo_A.
Proof. reflexivity. Qed.

(** The inverse the demo prints is whatever [numpy.linalg.inv] returns
    for [demo_A]. *)
Lemma demo_invert
    (linalg_cond : ndarray float -> string + float)
    (linalg_inv : ndarray float -> string + ndarray float)
    (c : float) (M : ndarray float) (t : trace) :
  linalg_cond demo_A = inr c -> linalg_inv demo_A = inr M ->
  fst (invert_matrix linalg_cond linalg_inv demo_A t) = inr M.
Proof.
  intros C I.
  rewrite (invert_matrix_square linalg_cond linalg_inv demo_A t eq_refl C).
  simpl. now rewrite I.
Qed.

(** The matrix the specification gives as the inverse of [demo_A] is
    its inverse exactly, also in double arithmetic. *)
Example demo_inverse_exact :
  mul_matrices demo_A (np_array [[-2; 1]; [1.5; -0.5]]%float)
  = inr (np_array [[1; 0]; [0; 1]]%float) /\
  mul_matrices (np_array [[-2; 1]; [1.5; -0.5]]%float) demo_A
  = inr (np_array [[1; 0]; [0; 1]]%float).
Proof. split; reflexivity. Qed.

(** [test_addition], [test_subtraction] and [test_multiplication] of
    [tests/test_matrix.py], on integer arrays. *)
Example test_addition :
  ndarray_add (np_array [[1; 2]; [3; 4]]%Z) (np_array [[5; 6]; [7; 8]]%Z)
  = np_array [[6; 8]; [10; 12]]%Z.
Proof. reflexivity. Qed.

Example test_subtraction :
  ndarray_sub (np_array [[5; 6]; [7; 8]]%Z) (np_array [[1; 2]; [3; 4]]%Z)
  = np_array [[4; 4]; [4; 4]]%Z.
Proof. reflexivity. Qed.

Example test_multiplication :
  ndarray_dot (np_array [[1; 2]; [3; 4]]%Z) (np_array [[5; 6]; [7; 8]]%Z)
  = np_array [[19; 22]; [43; 50]]%Z.
Proof. reflexivity. Qed.

(** * Properties of the shell *)

(** ** Rules for computations *)

Section ShellLogic.
Variable FS : Type.

Lemma world_eta (w : world FS) :
  mk_world (stdin w) (stdout w) (drawn w) (files w) = w.
Proof. destruct w; reflexivity. Qed.

Lemma io_spec_ret (X : Type) (E : pyexn -> Prop) (Q : X -> Prop) (x : X) :
  Q x -> io_spec (FS := FS) false E Q (io_ret x).
Proof. intros H w. simpl. auto. Qed.

Lemma io_spec_raise (X : Type) (b : bool) (E : pyexn -> Prop) (Q : X -> Prop)
    (e : pyexn) :
  E e -> io_spec (FS := FS) b E Q (io_raise e).
Proof. intros H w. simpl. auto. Qed.

Lemma io_spec_weaken (X : Type) (b b' : bool) (E E' : pyexn -> Prop)
    (Q Q' : X -> Prop) (c : IO FS X) :
  io_spec b E Q c ->
  (b' = true -> b = true) ->
  (forall e, E e -> E' e) -> (forall x, Q x -> Q' x) ->
  io_spec b' E' Q' c.
Proof.
  intros H Hb HE HQ w. specialize (H w).
  destruct (c w) as [[x | e |] w'].
  - destruct H as [Hq Hl]. split; [auto |].
    destruct b'; destruct b; first [lia | discriminate (Hb eq_refl)].
  - destruct H; auto.
  - exact H.
Qed.

Lemma io_spec_bind (X Y : Type) (b1 b2 : bool) (E : pyexn -> Prop)
    (P : X -> Prop) (Q : Y -> Prop) (c : IO FS X) (k : X -> IO FS Y) :
  io_spec b1 E P c ->
  (forall x, P x -> io_spec b2 E Q (k x)) ->
  io_spec (b1 || b2) E Q (io_bind c k).
Proof.
  intros Hc Hk w. unfold io_bind. specialize (Hc w).
  destruct (c w) as [[x | e |] w1]; [| exact Hc | exact Hc].
  destruct Hc as [Hp Hl]. specialize (Hk x Hp w1).
  destruct (k x w1) as [[y | e |] w2]; [| | exact Hk].
  - destruct Hk as [Hq Hl2]. split; [exact Hq |].
    destruct b1, b2; simpl; lia.
  - destruct Hk as [He Hl2]. split; [exact He |].
    destruct b1; lia.
Qed.

Lemma io_spec_try (X : Type) (b : bool) (E E' : pyexn -> Prop)
    (Q : X -> Prop) (body : IO FS X) (catches : pyexn -> bool)
    (handler : pyexn -> IO FS X) :
  io_spec b E' Q body ->
  (forall e, E' e -> catches e = true -> io_spec false E Q (handler e)) ->
  (forall e, E' e -> catches e = false -> E e) ->
  io_spec false E Q (io_try body catches handler).
Proof.
  intros Hb Hh Hu w. unfold io_try. specialize (Hb w).
  destruct (body w) as [[x | e |] w1]; [| | exact Hb].
  - destruct Hb as [Hq Hl]. split; [exact Hq | destruct b; lia].
  - destruct Hb as [He Hl]. destruct (catches e) eqn:C.
    + specialize (Hh e He C w1).
      destruct (handler e w1) as [[y | e2 |] w2]; [| | exact Hh].
      * destruct Hh; split; [assumption | lia].
      * destruct Hh; split; [assumption | lia].
    + split; auto.
Qed.

Lemma io_spec_write (E : pyexn -> Prop) (o : output) :
  io_spec (FS := FS) false E (fun _ => True) (write o).
Proof. intros w. simpl. auto. Qed.

Lemma io_spec_read_line (E : pyexn -> Prop) :
  E EOFError -> io_spec (FS := FS) true E (fun _ => True) (@read_line FS).
Proof.
  intros H w. unfold read_line. destruct (stdin w) as [| l ls] eqn:I; simpl.
  - split; [exact H | rewrite I; simpl; lia].
  - split; [exact Logic.I | try rewrite I; simpl; lia].
Qed.

Lemma io_spec_input (E : pyexn -> Prop) (prompt : string) :
  E EOFError -> io_spec (FS := FS) true E (fun _ => True) (input prompt).
Proof.
  intros H. unfold input.
  apply (io_spec_bind (b1 := false) (b2 := true) (P := fun _ => True)).
  - apply io_spec_write.
  - intros _ _. now apply io_spec_read_line.
Qed.

(** A [try] that starts by reading a line: the handler runs only after
    the line was read. *)
Lemma io_spec_try_input (X : Type) (E E' : pyexn -> Prop) (Q : X -> Prop)
    (prompt : string) (rest : string -> IO FS X) (catches : pyexn -> bool)
    (handler : pyexn -> IO FS X) :
  catches EOFError = false -> E EOFError ->
  (forall l, io_spec false E' Q (rest l)) ->
  (forall e, E' e -> catches e = true -> io_spec false E Q (handler e)) ->
  (forall e, E' e -> catches e = false -> E e) ->
  io_spec true E Q (io_try (io_bind (input prompt) rest) catches handler).
Proof.
  intros Hc He Hr Hh Hu w. unfold io_try, io_bind, input, io_bind, write, read_line.
  simpl. destruct (stdin w) as [| l ls] eqn:I; simpl.
  - rewrite Hc. simpl. split; [exact He | lia].
  - set (w1 := mk_world ls (stdout w ++ [Prompt prompt]) (drawn w) (files w)).
    specialize (Hr l w1).
    destruct (rest l w1) as [[x | e |] w2]; simpl in *; [| | exact Hr].
    + destruct Hr; split; [assumption | lia].
    + destruct Hr as [HE Hl]. destruct (catches e) eqn:C.
      * specialize (Hh e HE C w2).
        destruct (handler e w2) as [[y | e2 |] w3]; [| | exact Hh].
        -- destruct Hh; split; [assumption | lia].
        -- destruct Hh; split; [assumption | lia].
      * split; [auto | lia].
Qed.

Lemma while_fuel_spec (X : Type) (E : pyexn -> Prop) (Q : X -> Prop)
    (body : IO FS (step X)) :
  io_spec true E (step_post Q) body ->
  forall (fuel : nat) (w : world FS),
    length (stdin w) < fuel ->
    match while_fuel fuel body w with
    | (Returns x, w') => Q x /\ length (stdin w') < length (stdin w)
    | (Raises e, w') => E e /\ length (stdin w') <= length (stdin w)
    | (Diverges, _) => False
    end.
Proof.
  intros Hb. induction fuel as [| fuel IH]; intros w Hf; [lia |].
  simpl. unfold io_bind. specialize (Hb w).
  destruct (body w) as [[[| x] | e |] w1]; [| exact Hb | exact Hb | exact Hb].
  destruct Hb as [_ Hl]. specialize (IH w1 ltac:(lia)).
  destruct (while_fuel fuel body w1) as [[y | e |] w2]; [| | exact IH].
  - destruct IH; split; [assumption | lia].
  - destruct IH; split; [assumption | lia].
Qed.

Lemma io_spec_while (X : Type) (E : pyexn -> Prop) (Q : X -> Prop)
    (body : IO FS (step X)) :
  io_spec true E (step_post Q) body ->
  io_spec true E Q (while_true body).
Proof.
  intros Hb w. unfold while_true.
  apply (while_fuel_spec Hb). lia.
Qed.

(** With enough fuel the result of a loop does not depend on the fuel. *)
Lemma while_fuel_enough (X : Type) (E : pyexn -> Prop) (Q : X -> Prop)
    (body : IO FS (step X)) :
  io_spec true E (step_post Q) body ->
  forall (fuel fuel' : nat) (w : world FS),
    length (stdin w) < fuel -> length (stdin w) < fuel' ->
    while_fuel fuel body w = while_fuel fuel' body w.
Proof.
  intros Hb. induction fuel as [| fuel IH]; intros fuel' w Hf Hf'; [lia |].
  destruct fuel' as [| fuel']; [lia |].
  simpl. unfold io_bind. specialize (Hb w).
  destruct (body w) as [[[| x] | e |] w1]; try reflexivity.
  destruct Hb as [_ Hl]. apply IH; lia.
Qed.

(** One turn of [while True]. *)
Lemma while_true_unfold (X : Type) (E : pyexn -> Prop) (Q : X -> Prop)
    (body : IO FS (step X)) (w : world FS) :
  io_spec true E (step_post Q) body ->
  while_true body w
  = io_bind body
      (fun s =>
         match s with
         | Continue => while_true body
         | Break x => io_ret x
         end) w.
Proof.
  intros Hb. unfold while_true at 1. simpl. unfold io_bind.
  pose proof (Hb w) as Hw.
  destruct (body w) as [[[| x] | e |] w1]; try reflexivity.
  destruct Hw as [_ Hl]. unfold while_true.
  apply (while_fuel_enough Hb); lia.
Qed.

Lemma io_spec_for (S X : Type) (E : pyexn -> Prop) (I : S -> Prop)
    (xs : list X) (body : X -> S -> IO FS S) (s : S) :
  (forall x s, In x xs -> I s -> io_spec false E I (body x s)) ->
  I s -> io_spec false E I (io_for xs body s).
Proof.
  revert s. induction xs as [| x xs IH]; intros s Hb Hs.
  - now apply io_spec_ret.
  - simpl. apply (io_spec_bind (b1 := false) (b2 := false) (P := I)).
    + apply Hb; [now left | exact Hs].
    + intros s' Hs'. apply IH; [| exact Hs'].
      intros x' s'' Hin. apply Hb. now right.
Qed.

Lemma io_spec_lift_result (X : Type) (E : pyexn -> Prop) (Q : X -> Prop)
    (r : result X) :
  match r with
  | inl e => E (Std e)
  | inr x => Q x
  end ->
  io_spec (FS := FS) false E Q (lift_result r).
Proof.
  destruct r as [e | x]; intros H; [now apply io_spec_raise | now apply io_spec_ret].
Qed.

Lemma io_spec_lift_py (X : Type) (E : pyexn -> Prop) (Q : X -> Prop)
    (c : Py X) :
  match fst (c []) with
  | inl e => E (Std e)
  | inr x => Q x
  end ->
  io_spec (FS := FS) false E Q (lift_py c).
Proof.
  intros H w. unfold lift_py. destruct (c []) as [[e | x] t]; simpl in *; auto.
Qed.

(** The line parser, run in the shell, returns and leaves the world
    alone. *)
Lemma lift_parse (line : string) (w : world FS) :
  lift_py (parse_numbers_from_line line) w
  = (Returns (filter_map numeric_value (tokens line)), w).
Proof.
  unfold lift_py. rewrite parse_numbers_from_line_eq. simpl.
  now rewrite app_nil_r, world_eta.
Qed.

Lemma io_spec_py_int (E : pyexn -> Prop) (s : string) :
  (forall msg, E (Std (ValueError msg))) ->
  io_spec (FS := FS) false E (fun _ => True) (py_int s).
Proof.
  intros H. unfold py_int. destruct (parse_int s).
  - now apply io_spec_ret.
  - apply io_spec_raise, H.
Qed.

End ShellLogic.

(** ** Arrays built by the shell *)

Lemma np_reshape_wf (rows cols : nat) (nums : list float) :
  length nums = rows * cols -> wf (np_reshape rows cols nums).
Proof.
  intros L. split; simpl.
  - now rewrite length_map, length_seq.
  - rewrite Forall_forall. intros r Hr. apply in_map_iff in Hr.
    destruct Hr as [i [<- Hi]]. apply in_seq in Hi.
    rewrite length_firstn, length_skipn, L. nia.
Qed.

Lemma np_reshape_entry (rows cols : nat) (nums : list float) (i j : nat) :
  i < rows -> j < cols ->
  entry (np_reshape rows cols nums) i j = nth (i * cols + j) nums 0%float.
Proof.
  intros Hi Hj. unfold entry, np_reshape; simpl.
  set (g := fun i => firstn cols (skipn (i * cols) nums)).
  rewrite (nth_indep _ [] (g 0)) by (rewrite length_map, length_seq; lia).
  rewrite (map_nth g), seq_nth by lia. unfold g; simpl.
  rewrite nth_firstn.
  destruct (Nat.ltb_spec j cols) as [_ | H]; [| lia].
  now rewrite nth_skipn.
Qed.

Lemma nbytes_error_nonneg (dims : list Z) :
  forall nbytes, nbytes_error nbytes dims = None ->
  Forall (fun d => (0 <= d)%Z) dims.
Proof.
  induction dims as [| d dims IH]; intros nbytes H; [constructor |].
  cbn [nbytes_error] in H.
  destruct (Z.eqb_spec d 0) as [-> | N].
  - constructor; [lia | exact (IH _ H)].
  - destruct (Z.ltb_spec d 0) as [L | L]; [discriminate H |].
    destruct (intp_max <? nbytes * d)%Z; [discriminate H |].
    constructor; [exact L | exact (IH _ H)].
Qed.

(** A shape NumPy accepts has no negative size. *)
Lemma shape_error_nonneg (rows cols : Z) :
  shape_error rows cols = None -> (0 <= rows)%Z /\ (0 <= cols)%Z.
Proof.
  unfold shape_error. intros H.
  destruct (negb (is_intp rows && is_intp cols)); [discriminate H |].
  apply nbytes_error_nonneg in H.
  inversion H as [| ? ? Hr H']; subst. inversion H' as [| ? ? Hc _]; subst.
  auto.
Qed.

(** A shape within the index range is accepted: with no negative size,
    and a size in bytes, not counting a size of zero, that fits. *)
Lemma shape_error_fits (rows cols : Z) :
  (0 <= rows)%Z -> (0 <= cols)%Z ->
  (8 * Z.max 1 rows * Z.max 1 cols <= intp_max)%Z ->
  shape_error rows cols = None.
Proof.
  intros Hr Hc Hb. unfold shape_error, is_intp.
  assert (R : (rows <= intp_max)%Z) by nia.
  assert (C : (cols <= intp_max)%Z) by nia.
  assert (I : ((- intp_max - 1 <=? rows) && (rows <=? intp_max)
               && ((- intp_max - 1 <=? cols) && (cols <=? intp_max)))%Z
              = true).
  { rewrite !andb_true_iff, !Z.leb_le. unfold intp_max in *. lia. }
  rewrite I. cbn [negb nbytes_error].
  destruct (Z.eqb_spec rows 0) as [-> | Nr].
  - destruct (Z.eqb_spec cols 0) as [-> | Nc]; [reflexivity |].
    destruct (Z.ltb_spec cols 0) as [L | _]; [lia |].
    destruct (Z.ltb_spec intp_max (8 * cols)) as [L | _]; [lia | reflexivity].
  - destruct (Z.ltb_spec rows 0) as [L | _]; [lia |].
    destruct (Z.ltb_spec intp_max (8 * rows)) as [L | _]; [nia |].
    destruct (Z.eqb_spec cols 0) as [-> | Nc]; [reflexivity |].
    destruct (Z.ltb_spec cols 0) as [L | _]; [lia |].
    destruct (Z.ltb_spec intp_max (8 * rows * cols)) as [L | _];
      [nia | reflexivity].
Qed.

(** Any other shape is refused. *)
Lemma shape_error_exceeds (rows cols : Z) :
  (rows < 0 \/ cols < 0 \/ intp_max < 8 * Z.max 1 rows * Z.max 1 cols)%Z ->
  exists msg, shape_error rows cols = Some msg.
Proof.
  intros H. destruct (shape_error rows cols) as [msg |] eqn:E;
    [now exists msg |].
  exfalso. destruct (shape_error_nonneg _ _ E) as [Hr Hc].
  destruct H as [H | [H | H]]; [lia | lia |].
  unfold shape_error in E.
  destruct (negb (is_intp rows && is_intp cols)); [discriminate E |].
  cbn [nbytes_error] in E.
  destruct (Z.eqb_spec rows 0) as [-> | Nr].
  - destruct (Z.eqb_spec cols 0) as [-> | Nc];
      [unfold intp_max in H; lia |].
    destruct (Z.ltb_spec cols 0) as [L | _]; [discriminate E |].
    destruct (Z.ltb_spec intp_max (8 * cols)) as [L | L];
      [discriminate E | lia].
  - destruct (Z.ltb_spec rows 0) as [L | _]; [discriminate E |].
    destruct (Z.ltb_spec intp_max (8 * rows)) as [L | L];
      [discriminate E |].
    destruct (Z.eqb_spec cols 0) as [-> | Nc]; [lia |].
    destruct (Z.ltb_spec cols 0) as [L' | _]; [discriminate E |].
    destruct (Z.ltb_spec intp_max (8 * rows * cols)) as [L' | L'];
      [discriminate E | nia].
Qed.

Lemma np_zeros_value (rows cols : Z) (M : ndarray float) :
  np_zeros rows cols = inr M ->
  shape_error rows cols = None /\
  M = mk_ndarray (Z.to_nat rows, Z.to_nat cols)
        (repeat (repeat 0%float (Z.to_nat cols)) (Z.to_nat rows)).
Proof.
  unfold np_zeros. destruct (shape_error rows cols); [discriminate |].
  intros H. inversion H. auto.
Qed.

Lemma np_zeros_wf (rows cols : Z) (M : ndarray float) :
  np_zeros rows cols = inr M ->
  wf M /\ shape M = (Z.to_nat rows, Z.to_nat cols).
Proof.
  intros H. apply np_zeros_value in H. destruct H as [_ ->].
  split; [| reflexivity]. split; simpl.
  - apply repeat_length.
  - rewrite Forall_forall. intros r Hr. apply repeat_spec in Hr. subst r.
    apply repeat_length.
Qed.

Lemma replace_nth_length (X : Type) (n : nat) (x : X) (l : list X) :
  length (replace_nth n x l) = length l.
Proof.
  revert n; induction l as [| y l IH]; intros [| n]; simpl; auto.
Qed.

Lemma replace_nth_Forall (X : Type) (P : X -> Prop) (n : nat) (x : X)
    (l : list X) :
  P x -> Forall P l -> Forall P (replace_nth n x l).
Proof.
  intros Hx Hl. revert n. induction Hl as [| y l Hy Hl IH]; intros [| n];
    simpl; auto.
Qed.

Lemma set_row_wf (mat : ndarray float) (r : nat) (nums : list float) :
  wf mat -> length nums = snd (shape mat) -> wf (set_row mat r nums).
Proof.
  intros [L R] Hn. split; simpl.
  - now rewrite replace_nth_length.
  - now apply replace_nth_Forall.
Qed.

Lemma np_scale_wf (mat : ndarray float) (scale : float) :
  wf mat -> wf (np_scale mat scale).
Proof.
  intros [L R]. split; simpl.
  - now rewrite length_map.
  - rewrite Forall_forall in *. intros r Hr. apply in_map_iff in Hr.
    destruct Hr as [r0 [<- Hr0]]. rewrite length_map. now apply R.
Qed.

(** ** The functions of the shell, one by one *)

Section ShellFacts.
Variable FS : Type.
Variable linalg_cond : ndarray float -> string + float.
Variable linalg_inv : ndarray float -> string + ndarray float.
Variable loadtxt : FS -> string -> pyexn + ndarray float.
Variable savetxt : FS -> string -> ndarray float -> FS * option pyexn.
Variable uniform : nat -> float.
Variable HAS_MPL : bool.
Variable show_figure : string -> ndarray float -> option pyexn.

Ltac io_bind b1 b2 P :=
  apply (io_spec_bind (FS := FS) (b1 := b1) (b2 := b2) (P := P)).

Ltac io_print_then :=
  first [io_bind false false (fun _ : unit => True)
        | io_bind false true (fun _ : unit => True)];
  [apply io_spec_write | intros _ _].

Lemma io_spec_relax (X : Type) (E : pyexn -> Prop) (Q : X -> Prop)
    (c : IO FS X) :
  io_spec true E Q c -> io_spec false E Q c.
Proof.
  intros H. apply (@io_spec_weaken FS X true false E E Q Q c H); auto.
Qed.

Tactic Notation "io_input_then" ident(l) :=
  first [io_bind true false (fun _ : string => True)
        | apply io_spec_relax; io_bind true false (fun _ : string => True)];
  [apply io_spec_input | intros l _].

Lemma np_random_rand_spec (E : pyexn -> Prop) (rows cols : Z) :
  (forall msg, shape_error rows cols = Some msg -> E (Std (ValueError msg))) ->
  io_spec (FS := FS) false E
    (fun M => wf M /\ shape M = (Z.to_nat rows, Z.to_nat cols))
    (np_random_rand uniform rows cols).
Proof.
  intros HE. unfold np_random_rand.
  destruct (shape_error rows cols) as [msg |].
  - apply io_spec_raise, HE. reflexivity.
  - intros w. simpl. split; [| lia]. split; [| reflexivity].
    split; simpl.
    + now rewrite length_map, length_seq.
    + rewrite Forall_forall. intros r Hr. apply in_map_iff in Hr.
      destruct Hr as [i [<- _]]. now rewrite length_map, length_seq.
Qed.

Lemma pretty_print_spec (E : pyexn -> Prop) (mat : ndarray float) (p : nat) :
  io_spec (FS := FS) false E (fun _ => True) (pretty_print mat p).
Proof.
  unfold pretty_print.
  io_bind false false (fun _ : unit => True).
  - apply io_spec_for; [| exact I]. intros r [] _ _. apply io_spec_write.
  - intros _ _. apply io_spec_write.
Qed.

(** The loop of [input_matrix] that asks for the shape. *)
Lemma ask_shape_body_spec (E : pyexn -> Prop) (name : string) :
  E EOFError ->
  io_spec (FS := FS) true E
    (step_post (fun shp : Z * Z => (0 < fst shp /\ 0 < snd shp)%Z))
    (io_try
       (io_bind (input ("Number of rows for matrix " ++ name ++ ": "))
          (fun l1 =>
           io_bind (py_int (str_strip l1))
             (fun rows =>
              io_bind (input ("Number of columns for matrix " ++ name ++ ": "))
                (fun l2 =>
                 io_bind (py_int (str_strip l2))
                   (fun cols =>
                    if ((rows <=? 0) || (cols <=? 0))%Z
                    then
                      io_bind
                        (io_print
                           "Rows and columns must be positive integers. Try again.")
                        (fun _ => io_ret Continue)
                    else io_ret (Break (rows, cols)))))))
       is_ValueError
       (fun _ =>
        io_bind (io_print "Invalid integer. Try again.")
          (fun _ => io_ret Continue))).
Proof.
  intros HE.
  apply (io_spec_try_input (E' := eof_or_value)).
  - reflexivity.
  - exact HE.
  - intros l1.
    io_bind false false (fun _ : Z => True).
    { apply io_spec_py_int. intros msg. right. now exists msg. }
    intros rows _.
    apply io_spec_relax. io_input_then l2; [now left |].
    io_bind false false (fun _ : Z => True).
    { apply io_spec_py_int. intros msg. right. now exists msg. }
    intros cols _.
    destruct ((rows <=? 0) || (cols <=? 0))%Z eqn:N.
    + io_print_then. now apply io_spec_ret.
    + apply io_spec_ret. simpl.
      apply orb_false_iff in N. rewrite !Z.leb_gt in N. exact N.
  - intros e _ _. io_print_then. now apply io_spec_ret.
  - intros e [-> | [msg ->]] C; [exact HE | discriminate C].
Qed.


Lemma io_spec_parse (E : pyexn -> Prop) (line : string) :
  io_spec (FS := FS) false E
    (fun nums => nums = filter_map numeric_value (tokens line))
    (lift_py (parse_numbers_from_line line)).
Proof.
  intros w. rewrite lift_parse. simpl. split; [reflexivity | lia].
Qed.

(** The loop of [input_matrix] that reads one row. *)
Lemma ask_row_body_spec (E : pyexn -> Prop) (r : nat) (cols : Z) :
  E EOFError ->
  io_spec (FS := FS) true E
    (step_post (fun nums : list float => Z.of_nat (length nums) = cols))
    (io_bind
       (input ("Row " ++ str_of_nat (r + 1) ++ " (enter " ++ str_of_int cols
               ++ " numbers separated by spaces or commas): "))
       (fun line =>
        io_bind (lift_py (parse_numbers_from_line (str_strip line)))
          (fun nums =>
           if negb (Z.eqb (Z.of_nat (length nums)) cols)
           then
             io_bind
               (io_print
                  ("Expected " ++ str_of_int cols ++ " numbers but got "
                   ++ str_of_nat (length nums) ++ ". Try again."))
               (fun _ => io_ret Continue)
           else io_ret (Break nums)))).
Proof.
  intros HE. io_input_then l; [exact HE |].
  io_bind false false
    (fun nums => nums = filter_map numeric_value (tokens (str_strip l))).
  { apply io_spec_parse. }
  intros nums _.
  destruct (Z.eqb (Z.of_nat (length nums)) cols) eqn:C; simpl.
  - apply io_spec_ret. simpl. now apply Z.eqb_eq.
  - io_print_then. now apply io_spec_ret.
Qed.

Lemma input_matrix_spec (E : pyexn -> Prop) (name : string) :
  E EOFError -> (forall e, shape_refused e -> E e) ->
  io_spec (FS := FS) true E proper_matrix (input_matrix uniform name).
Proof.
  intros HE HS. unfold input_matrix.
  io_bind true false (fun shp : Z * Z => (0 < fst shp /\ 0 < snd shp)%Z).
  { apply io_spec_while. now apply ask_shape_body_spec. }
  intros [rows cols] [Hr Hc]. simpl in Hr, Hc. cbn [fst snd].
  do 4 io_print_then.
  apply io_spec_relax. io_input_then l; [exact HE |].
  destruct (String.eqb (str_or (str_strip l) "1") "3").
  { apply (@io_spec_weaken FS _ false false E E
             (fun M => wf M /\ shape M = (Z.to_nat rows, Z.to_nat cols))
             proper_matrix _); auto.
    - apply np_random_rand_spec. intros msg Hmsg. apply HS.
      now exists rows, cols, msg.
    - intros M [W S]. split; [exact W |]. rewrite S. simpl. lia. }
  io_bind false false
    (fun pasted : option (ndarray float) =>
       match pasted with
       | Some M => proper_matrix M
       | None => True
       end).
  { destruct (String.eqb (str_or (str_strip l) "1") "2").
    - io_print_then. apply io_spec_relax.
      io_bind true false (fun _ : string => True).
      { now apply io_spec_read_line. }
      intros s _.
      io_bind false false
        (fun nums => nums = filter_map numeric_value (tokens (str_strip s))).
      { apply io_spec_parse. }
      intros nums _.
      destruct (Z.eqb (Z.of_nat (length nums)) (rows * cols)) eqn:C; simpl.
      + apply io_spec_ret. apply Z.eqb_eq in C.
        split; [apply np_reshape_wf; nia | simpl; lia].
      + io_print_then. now apply io_spec_ret.
    - now apply io_spec_ret. }
  intros [M |] HM.
  { now apply io_spec_ret. }
  io_bind false false
    (fun M : ndarray float =>
       wf M /\ shape M = (Z.to_nat rows, Z.to_nat cols)).
  { apply (io_spec_lift_result (FS := FS)).
    destruct (np_zeros rows cols) as [e | Z0] eqn:Hz.
    - unfold np_zeros in Hz.
      destruct (shape_error rows cols) as [msg |] eqn:Hs; [| discriminate Hz].
      inversion Hz. apply HS. now exists rows, cols, msg.
    - now apply np_zeros_wf. }
  intros zeros Hzeros.
  apply (@io_spec_weaken FS _ false false E E
           (fun M => wf M /\ shape M = (Z.to_nat rows, Z.to_nat cols))
           proper_matrix _); auto.
  - apply io_spec_for.
    + intros r mat _ [W S]. apply io_spec_relax.
      io_bind true false
        (fun nums : list float => Z.of_nat (length nums) = cols).
      { apply io_spec_while. now apply ask_row_body_spec. }
      intros nums Hn. apply io_spec_ret. split.
      * apply set_row_wf; [exact W |]. rewrite S. simpl. lia.
      * exact S.
    + exact Hzeros.
  - intros M [W S]. split; [exact W |]. rewrite S. simpl. lia.
Qed.

Lemma load_matrix_from_file_spec (E : pyexn -> Prop) :
  E EOFError ->
  io_spec (FS := FS) true E
    (fun m =>
       match m with
       | Some M => exists fs path, loadtxt fs path = inr M
       | None => True
       end)
    (load_matrix_from_file loadtxt).
Proof.
  intros HE. unfold load_matrix_from_file.
  io_input_then l; [exact HE |].
  apply (io_spec_try (b := false) (E' := fun _ => True)).
  - io_bind false false
      (fun M => exists fs path, loadtxt fs path = inr M).
    + intros w. destruct (loadtxt (files w) (str_strip l)) as [e | M] eqn:L;
        simpl; (split; [| lia]); [exact I |].
      now exists (files w), (str_strip l).
    + intros M HM. io_print_then. now apply io_spec_ret.
  - intros e _ _. io_bind false false (fun _ : unit => True).
    + apply io_spec_write.
    + intros _ _. now apply io_spec_ret.
  - intros e _ C. discriminate C.
Qed.

Lemma save_matrix_spec (E : pyexn -> Prop) (mat : ndarray float) :
  E EOFError ->
  io_spec (FS := FS) true E (fun _ => True) (save_matrix savetxt mat).
Proof.
  intros HE. unfold save_matrix.
  io_input_then l; [exact HE |].
  destruct (str_strip l) as [| a path] eqn:P.
  - now apply io_spec_ret.
  - apply (io_spec_try (b := false) (E' := fun _ => True)).
    + io_bind false false (fun _ : unit => True).
      * intros w.
        destruct (savetxt (files w) (String a path) mat) as [fs' [e |]];
          simpl; (split; [exact I | lia]).
      * intros _ _. apply io_spec_write.
    + intros e _ _. apply io_spec_write.
    + intros e _ C. discriminate C.
Qed.

Lemma visualize_matrix_spec (mat : ndarray float) (title : string) :
  io_spec (FS := FS) false
    (fun e => HAS_MPL = true /\ show_figure title mat = Some e)
    (fun _ => True)
    (visualize_matrix HAS_MPL show_figure mat title).
Proof.
  unfold visualize_matrix. destruct HAS_MPL; simpl.
  - destruct (show_figure title mat) as [e |].
    + now apply io_spec_raise.
    + apply io_spec_write.
  - apply io_spec_write.
Qed.

Lemma choose_matrix_spec (E : pyexn -> Prop) (name : string) :
  E EOFError -> (forall msg, E (Std (ValueError msg))) ->
  io_spec (FS := FS) true E
    (fun M => (exists fs path, loadtxt fs path = inr M) \/ wf M)
    (choose_matrix loadtxt uniform name).
Proof.
  intros HE HV. unfold choose_matrix.
  assert (HS : forall e, shape_refused e -> E e).
  { intros e [rows [cols [msg [_ [_ [_ ->]]]]]]. apply HV. }
  do 4 io_print_then.
  io_input_then l; [exact HE |].
  destruct (String.eqb (str_or (str_strip l) "1") "2").
  { apply io_spec_relax.
    io_bind true false
      (fun m : option (ndarray float) =>
         match m with
         | Some M => exists fs path, loadtxt fs path = inr M
         | None => True
         end).
    - now apply load_matrix_from_file_spec.
    - intros [M |] HM.
      + apply io_spec_ret. now left.
      + io_print_then. apply io_spec_relax.
        apply (@io_spec_weaken FS _ true true E E proper_matrix _ _
                 (@input_matrix_spec E name HE HS)); auto.
        intros M [W _]. now right. }
  destruct (String.eqb (str_or (str_strip l) "1") "3").
  { apply io_spec_relax. io_input_then lr; [exact HE |].
    io_bind false false (fun _ : Z => True).
    { now apply io_spec_py_int. }
    intros rows _. apply io_spec_relax. io_input_then lc; [exact HE |].
    io_bind false false (fun _ : Z => True).
    { now apply io_spec_py_int. }
    intros cols _. apply io_spec_relax. io_input_then ls; [exact HE |].
    io_bind false false (fun _ : float => True).
    { destruct ls as [| a ls].
      - now apply io_spec_ret.
      - apply (io_spec_lift_py (FS := FS)).
        destruct (py_float_cases (String a ls)) as [[x H] | [msg H]];
          rewrite H; simpl; auto. }
    intros scale _.
    io_bind false false (fun M : ndarray float => wf M).
    { apply (@io_spec_weaken FS _ false false E E
               (fun M => wf M /\ shape M = (Z.to_nat rows, Z.to_nat cols))
               _ _ (@np_random_rand_spec E rows cols (fun msg _ => HV msg)));
        auto.
      now intros M [W _]. }
    intros M W. apply io_spec_ret. right. now apply np_scale_wf. }
  apply io_spec_relax.
  apply (@io_spec_weaken FS _ true true E E proper_matrix _ _
           (@input_matrix_spec E name HE HS)); auto.
  intros M [W _]. now right.
Qed.

Lemma invert_matrix_raises_ValueError (A : ndarray float) :
  match fst (invert_matrix linalg_cond linalg_inv A []) with
  | inl e => is_ValueError (Std e) = true
  | inr _ => True
  end.
Proof.
  destruct (fst (invert_matrix linalg_cond linalg_inv A [])) as [[m | m] |];
    [reflexivity | reflexivity | exact I].
Qed.

Lemma invert_matrix_shell_spec (A : ndarray float) :
  io_spec (FS := FS) false (fun e => is_ValueError e = true) (fun _ => True)
    (lift_py (invert_matrix linalg_cond linalg_inv A)).
Proof.
  apply (io_spec_lift_py (FS := FS)).
  generalize (invert_matrix_raises_ValueError A).
  destruct (fst (invert_matrix linalg_cond linalg_inv A [])); auto.
Qed.

Lemma demo_spec (E : pyexn -> Prop) :
  io_spec (FS := FS) false E (fun _ => True) (demo linalg_cond linalg_inv).
Proof.
  unfold demo.
  do 3 io_print_then.
  io_bind false false (fun _ : unit => True); [apply pretty_print_spec |].
  intros _ _. io_print_then.
  io_bind false false (fun _ : unit => True); [apply pretty_print_spec |].
  intros _ _. io_print_then.
  io_bind false false (fun _ : ndarray float => True).
  { apply (io_spec_lift_result (FS := FS)). vm_compute. exact I. }
  intros s _.
  io_bind false false (fun _ : unit => True); [apply pretty_print_spec |].
  intros _ _. io_print_then.
  io_bind false false (fun _ : ndarray float => True).
  { apply (io_spec_lift_result (FS := FS)). vm_compute. exact I. }
  intros d _.
  io_bind false false (fun _ : unit => True); [apply pretty_print_spec |].
  intros _ _. io_print_then.
  io_bind false false (fun _ : ndarray float => True).
  { apply (io_spec_lift_result (FS := FS)). vm_compute. exact I. }
  intros p _.
  io_bind false false (fun _ : unit => True); [apply pretty_print_spec |].
  intros _ _. io_print_then.
  apply (io_spec_try (b := false) (E' := fun e => is_ValueError e = true)).
  - io_bind false false (fun _ : ndarray float => True).
    + apply invert_matrix_shell_spec.
    + intros inv _. apply pretty_print_spec.
  - intros e _ _. apply io_spec_write.
  - intros e C1 C2. congruence.
Qed.

Lemma visualize_any (mat : ndarray float) (title : string) :
  io_spec (FS := FS) false (fun _ => True) (fun _ => True)
    (visualize_matrix HAS_MPL show_figure mat title).
Proof.
  apply (@io_spec_weaken FS _ false false _ _ _ _ _
           (visualize_matrix_spec mat title)); auto.
Qed.

Lemma result_shell_spec (r : result (ndarray float)) :
  io_spec (FS := FS) false (fun _ => True) (fun _ => True) (lift_result r).
Proof.
  apply (io_spec_lift_result (FS := FS)). now destruct r.
Qed.

Lemma binary_operation_spec (choice : string) :
  io_spec (FS := FS) true (fun _ => True) (fun _ => True)
    (binary_operation loadtxt savetxt uniform HAS_MPL show_figure choice).
Proof.
  unfold binary_operation.
  io_bind true false (fun _ : ndarray float => True).
  { apply (@io_spec_weaken FS _ true true _ _ _ _ _
             (@choose_matrix_spec (fun _ => True) "A" I (fun _ => I))); auto. }
  intros A _. do 2 io_print_then.
  io_bind false false (fun _ : unit => True); [apply pretty_print_spec |].
  intros _ _. apply io_spec_relax.
  io_bind true false (fun _ : ndarray float => True).
  { apply (@io_spec_weaken FS _ true true _ _ _ _ _
             (@choose_matrix_spec (fun _ => True) "B" I (fun _ => I))); auto. }
  intros B _. do 2 io_print_then.
  io_bind false false (fun _ : unit => True); [apply pretty_print_spec |].
  intros _ _.
  io_bind false false (fun _ : ndarray float => True).
  { destruct (String.eqb choice "1"); [| destruct (String.eqb choice "2")];
      (io_bind false false (fun _ : ndarray float => True);
       [apply result_shell_spec |];
       intros res _; io_print_then;
       io_bind false false (fun _ : unit => True);
       [apply pretty_print_spec |];
       intros _ _; now apply io_spec_ret). }
  intros res _. apply io_spec_relax.
  io_bind true false (fun _ : unit => True).
  { now apply save_matrix_spec. }
  intros _ _. io_input_then l; [exact I |].
  destruct (String.eqb (str_lower (str_strip l)) "y").
  - apply visualize_any.
  - now apply io_spec_ret.
Qed.

Lemma inverse_operation_spec :
  io_spec (FS := FS) true (fun _ => True) (fun _ => True)
    (inverse_operation linalg_cond linalg_inv loadtxt savetxt uniform HAS_MPL
       show_figure).
Proof.
  unfold inverse_operation.
  io_bind true false (fun _ : ndarray float => True).
  { apply (@io_spec_weaken FS _ true true _ _ _ _ _
             (@choose_matrix_spec (fun _ => True) "A" I (fun _ => I))); auto. }
  intros A _. do 2 io_print_then.
  io_bind false false (fun _ : unit => True); [apply pretty_print_spec |].
  intros _ _.
  apply (io_spec_try (b := false) (E' := fun _ => True)).
  - io_bind false false (fun _ : ndarray float => True).
    { apply (@io_spec_weaken FS _ false false _ _ _ _ _
               (invert_matrix_shell_spec A)); auto. }
    intros inv _. io_print_then.
    io_bind false false (fun _ : unit => True); [apply pretty_print_spec |].
    intros _ _. apply io_spec_relax.
    io_bind true false (fun _ : unit => True).
    { now apply save_matrix_spec. }
    intros _ _. io_input_then l; [exact I |].
    destruct (String.eqb (str_lower (str_strip l)) "y").
    + apply visualize_any.
    + now apply io_spec_ret.
  - intros e _ _. apply io_spec_write.
  - intros e _ _. exact I.
Qed.

Lemma main_body_spec (E : pyexn -> Prop) :
  E EOFError ->
  io_spec (FS := FS) true E (step_post (fun _ : unit => True))
    (io_bind (@print_menu FS)
       (fun _ =>
        io_bind (input "Choice: ")
          (fun l =>
           let choice := str_lower (str_strip l) in
           if String.eqb choice "q"
           then io_bind (io_print "Goodbye!") (fun _ => io_ret (Break tt))
           else if String.eqb choice "5"
           then
             io_bind (demo linalg_cond linalg_inv)
               (fun _ => io_ret Continue)
           else
             io_bind
               (io_try
                  (if String.eqb choice "1" || String.eqb choice "2"
                      || String.eqb choice "3"
                   then
                     binary_operation loadtxt savetxt uniform HAS_MPL
                       show_figure choice
                   else if String.eqb choice "4"
                   then
                     inverse_operation linalg_cond linalg_inv loadtxt
                       savetxt uniform HAS_MPL show_figure
                   else io_print "Unknown choice. Try again.")
                  is_Exception
                  (fun e => io_print_exn "Operation failed:" e))
               (fun _ => io_ret Continue)))).
Proof.
  intros HE.
  io_bind false true (fun _ : unit => True).
  { unfold print_menu. do 6 io_print_then. apply io_spec_write. }
  intros _ _. io_input_then l; [exact HE |]. cbv zeta.
  destruct (String.eqb (str_lower (str_strip l)) "q").
  { io_print_then. now apply io_spec_ret. }
  destruct (String.eqb (str_lower (str_strip l)) "5").
  { io_bind false false (fun _ : unit => True); [apply demo_spec |].
    intros _ _. now apply io_spec_ret. }
  io_bind false false (fun _ : unit => True).
  - apply (io_spec_try (b := false) (E' := fun _ => True)
             (Q := fun _ : unit => True)).
    + destruct (String.eqb (str_lower (str_strip l)) "1"
                || String.eqb (str_lower (str_strip l)) "2"
                || String.eqb (str_lower (str_strip l)) "3").
      * apply io_spec_relax, binary_operation_spec.
      * destruct (String.eqb (str_lower (str_strip l)) "4").
        -- apply io_spec_relax, inverse_operation_spec.
        -- apply io_spec_write.
    + intros e _ _. apply io_spec_write.
    + intros e _ C. discriminate C.
  - intros _ _. now apply io_spec_ret.
Qed.

Lemma main_spec (E : pyexn -> Prop) :
  E EOFError ->
  io_spec (FS := FS) true E (fun _ => True)
    (main linalg_cond linalg_inv loadtxt savetxt uniform HAS_MPL show_figure).
Proof.
  intros HE. unfold main.
  io_bind false true (fun _ : unit => True); [apply io_spec_write |].
  intros _ _. io_print_then.
  apply io_spec_while. now apply main_body_spec.
Qed.

(** ** Computations that only print *)

Lemma quiet_ret (X : Type) (x : X) : quiet (FS := FS) (io_ret x).
Proof. intros w. simpl. auto. Qed.

Lemma quiet_raise (X : Type) (e : pyexn) : quiet (FS := FS) (@io_raise FS X e).
Proof. intros w. simpl. auto. Qed.

Lemma quiet_write (o : output) : quiet (FS := FS) (write o).
Proof. intros w. simpl. auto. Qed.

Lemma quiet_bind (X Y : Type) (c : IO FS X) (k : X -> IO FS Y) :
  quiet c -> (forall x, quiet (k x)) -> quiet (io_bind c k).
Proof.
  intros Hc Hk w. unfold io_bind. specialize (Hc w).
  destruct (c w) as [[x | e |] w1]; simpl in *; [| exact Hc | exact Hc].
  destruct (Hk x w1) as [A [B C]]. destruct Hc as [A' [B' C']].
  rewrite A, B, C. auto.
Qed.

Lemma quiet_try (X : Type) (body : IO FS X) (catches : pyexn -> bool)
    (handler : pyexn -> IO FS X) :
  quiet body -> (forall e, quiet (handler e)) ->
  quiet (io_try body catches handler).
Proof.
  intros Hc Hk w. unfold io_try. specialize (Hc w).
  destruct (body w) as [[x | e |] w1]; simpl in *; [exact Hc | | exact Hc].
  destruct (catches e); [| exact Hc].
  destruct (Hk e w1) as [A [B C]]. destruct Hc as [A' [B' C']].
  rewrite A, B, C. auto.
Qed.

Lemma quiet_for (S X : Type) (xs : list X) (body : X -> S -> IO FS S) (s : S) :
  (forall x s, quiet (body x s)) -> quiet (io_for xs body s).
Proof.
  intros Hb. revert s. induction xs as [| x xs IH]; intros s; simpl.
  - apply quiet_ret.
  - apply quiet_bind; [apply Hb | exact IH].
Qed.

Lemma quiet_lift_py (X : Type) (c : Py X) : quiet (FS := FS) (lift_py c).
Proof.
  intros w. unfold lift_py. destruct (c []) as [[e | x] t]; simpl; auto.
Qed.

Lemma quiet_lift_result (X : Type) (r : result X) :
  quiet (FS := FS) (lift_result r).
Proof. destruct r; [apply quiet_raise | apply quiet_ret]. Qed.

Lemma quiet_pretty_print (mat : ndarray float) (p : nat) :
  quiet (FS := FS) (pretty_print mat p).
Proof.
  unfold pretty_print. apply quiet_bind.
  - apply quiet_for. intros r []. apply quiet_write.
  - intros _. apply quiet_write.
Qed.

Lemma quiet_demo : quiet (FS := FS) (demo linalg_cond linalg_inv).
Proof.
  unfold demo.
  repeat
    match goal with
    | |- quiet (io_bind _ _) => apply quiet_bind; [| intro]
    | |- quiet (io_try _ _ _) => apply quiet_try; [| intro]
    | |- quiet (io_print _) => apply quiet_write
    | |- quiet (io_print_exn _ _) => apply quiet_write
    | |- quiet (pretty_print _ _) => apply quiet_pretty_print
    | |- quiet (lift_result _) => apply quiet_lift_result
    | |- quiet (lift_py _) => apply quiet_lift_py
    end.
Qed.


(** ** Running the shell on a given input *)

Lemma run_bind (X Y : Type) (c : IO FS X) (k : X -> IO FS Y) (w : world FS) :
  io_bind c k w
  = match c w with
    | (Returns x, w') => k x w'
    | (Raises e, w') => (Raises e, w')
    | (Diverges, w') => (Diverges, w')
    end.
Proof. reflexivity. Qed.

Lemma run_try (X : Type) (body : IO FS X) (catches : pyexn -> bool)
    (handler : pyexn -> IO FS X) (w : world FS) :
  io_try body catches handler w
  = match body w with
    | (Raises e, w') => if catches e then handler e w' else (Raises e, w')
    | r => r
    end.
Proof. reflexivity. Qed.

Lemma run_ret (X : Type) (x : X) (w : world FS) : io_ret x w = (Returns x, w).
Proof. reflexivity. Qed.

Lemma run_write (o : output) (w : world FS) :
  write o w
  = (Returns tt, mk_world (stdin w) (stdout w ++ [o]) (drawn w) (files w)).
Proof. reflexivity. Qed.

Lemma run_print (s : string) (w : world FS) :
  io_print s w
  = (Returns tt, mk_world (stdin w) (stdout w ++ [Line s]) (drawn w) (files w)).
Proof. reflexivity. Qed.

Lemma run_print_exn (s : string) (e : pyexn) (w : world FS) :
  io_print_exn s e w
  = (Returns tt,
     mk_world (stdin w) (stdout w ++ [ErrorLine s e]) (drawn w) (files w)).
Proof. reflexivity. Qed.

Lemma run_input (prompt l : string) (rest : list string) (so : list output)
    (dr : nat) (fs : FS) :
  input prompt (mk_world (l :: rest) so dr fs)
  = (Returns l, mk_world rest (so ++ [Prompt prompt]) dr fs).
Proof. reflexivity. Qed.

Lemma run_read_line (l : string) (rest : list string) (so : list output)
    (dr : nat) (fs : FS) :
  read_line (mk_world (l :: rest) so dr fs)
  = (Returns l, mk_world rest so dr fs).
Proof. reflexivity. Qed.

Lemma run_py_int (s : string) (z : Z) :
  parse_int s = Some z -> forall w : world FS, py_int s w = (Returns z, w).
Proof. intros H w. unfold py_int. now rewrite H. Qed.

Lemma run_py_int_error (s : string) :
  parse_int s = None ->
  forall w : world FS,
    py_int s w
    = (Raises (Std (ValueError
                      ("invalid literal for int() with base 10: " ++ s))), w).
Proof. intros H w. unfold py_int. now rewrite H. Qed.

Ltac io_step :=
  first [ rewrite run_bind | rewrite run_try | rewrite run_ret
        | rewrite run_print | rewrite run_print_exn | rewrite run_write
        | rewrite run_input | rewrite run_read_line
        | rewrite lift_parse ];
  cbn beta iota delta [stdin stdout drawn files].

Ltac io_run := repeat io_step.

Ltac shape_loop name :=
  rewrite (@while_true_unfold FS _ _ _ _ _
             (ask_shape_body_spec (fun _ => True) name I)).

(** X2. The shape loop of [input_matrix] asks again: a first answer that
    is no integer costs one line, the second prompt is not reached; a
    second answer that is no integer, or a number of rows or columns below
    one, costs both lines; then [input_matrix] starts over on the rest of
    the input. *)
Theorem input_matrix_asks_again (name l1 l2 : string) (rest : list string)
    (so : list output) (dr : nat) (fs : FS) :
  (parse_int (str_strip l1) = None ->
   input_matrix uniform name (mk_world (l1 :: rest) so dr fs)
   = input_matrix uniform name
       (mk_world rest
          (so ++ [Prompt ("Number of rows for matrix " ++ name ++ ": ");
                  Line "Invalid integer. Try again."]) dr fs))
  /\
  (parse_int (str_strip l1) <> None -> parse_int (str_strip l2) = None ->
   input_matrix uniform name (mk_world (l1 :: l2 :: rest) so dr fs)
   = input_matrix uniform name
       (mk_world rest
          (so ++ [Prompt ("Number of rows for matrix " ++ name ++ ": ");
                  Prompt ("Number of columns for matrix " ++ name ++ ": ");
                  Line "Invalid integer. Try again."])
          dr fs))
  /\
  (forall rows cols,
     parse_int (str_strip l1) = Some rows ->
     parse_int (str_strip l2) = Some cols ->
     (rows <= 0 \/ cols <= 0)%Z ->
     input_matrix uniform name (mk_world (l1 :: l2 :: rest) so dr fs)
     = input_matrix uniform name
         (mk_world rest
            (so ++ [Prompt ("Number of rows for matrix " ++ name ++ ": ");
                    Prompt ("Number of columns for matrix " ++ name ++ ": ");
                    Line "Rows and columns must be positive integers. Try again."])
            dr fs)).
Proof.
  split; [| split].
  - intros H. unfold input_matrix. rewrite 2 run_bind. shape_loop name.
    io_run. rewrite (@run_py_int_error _ H).
    cbn [is_ValueError isinstance_ValueError]. io_run.
    now rewrite <- app_assoc.
  - intros H1 H2. destruct (parse_int (str_strip l1)) as [rows |] eqn:P1;
      [| contradiction].
    unfold input_matrix. rewrite 2 run_bind. shape_loop name.
    io_run. rewrite (@run_py_int _ _ P1). io_run.
    rewrite (@run_py_int_error _ H2).
    cbn [is_ValueError isinstance_ValueError]. io_run.
    now rewrite <- !app_assoc.
  - intros rows cols P1 P2 N.
    assert (B : ((rows <=? 0) || (cols <=? 0))%Z = true).
    { apply orb_true_iff. rewrite !Z.leb_le. exact N. }
    unfold input_matrix. rewrite 2 run_bind. shape_loop name.
    io_run. rewrite (@run_py_int _ _ P1). io_run. rewrite (@run_py_int _ _ P2).
    cbn beta iota. rewrite B. io_run.
    now rewrite <- !app_assoc.
Qed.

Lemma positive_shape (rows cols : Z) :
  (0 < rows)%Z -> (0 < cols)%Z -> ((rows <=? 0) || (cols <=? 0))%Z = false.
Proof.
  intros Hr Hc. apply orb_false_iff. rewrite !Z.leb_gt. auto.
Qed.

(** The start of [input_matrix] on two lines that give a shape. *)
Ltac shape_given name P1 P2 Hr Hc :=
  unfold input_matrix; rewrite run_bind; shape_loop name;
  io_run; rewrite (@run_py_int _ _ P1); io_run; rewrite (@run_py_int _ _ P2);
  cbn beta iota; rewrite (positive_shape Hr Hc); io_run; cbn [fst snd].

(** X3. Paste mode of [input_matrix]: after a shape of positive integers
    and the mode 2, a line holding exactly [rows * cols] numbers is the
    whole matrix, filled row by row: entry (i, j) is number
    [i * cols + j] of the line.  Nothing after that line is read. *)
Theorem input_matrix_paste (name l1 l2 lm s : string) (rest : list string)
    (rows cols : Z) (so : list output) (dr : nat) (fs : FS) :
  parse_int (str_strip l1) = Some rows ->
  parse_int (str_strip l2) = Some cols ->
  (0 < rows)%Z -> (0 < cols)%Z ->
  str_strip lm = "2"%string ->
  Z.of_nat (length (row_of s)) = (rows * cols)%Z ->
  exists M out,
    input_matrix uniform name
      (mk_world (l1 :: l2 :: lm :: s :: rest) so dr fs)
    = (Returns M, mk_world rest (so ++ out) dr fs) /\
    wf M /\ shape M = (Z.to_nat rows, Z.to_nat cols) /\
    forall i j, i < Z.to_nat rows -> j < Z.to_nat cols ->
      entry M i j = nth (i * Z.to_nat cols + j) (row_of s) 0%float.
Proof.
  intros P1 P2 Hr Hc Hm Hn.
  exists (np_reshape (Z.to_nat rows) (Z.to_nat cols) (row_of s)).
  eexists. split; [| split; [| split]].
  - shape_given name P1 P2 Hr Hc.
    rewrite Hm. cbn [str_or String.eqb Ascii.eqb Bool.eqb]. io_run.
    fold (row_of s). apply Z.eqb_eq in Hn. rewrite Hn. cbn [negb]. io_run.
    rewrite <- !app_assoc. reflexivity.
  - apply np_reshape_wf. nia.
  - reflexivity.
  - intros i j Hi Hj. now apply np_reshape_entry.
Qed.

(** The loop of [input_matrix] for row [r]: the lines that do not hold
    [cols] numbers are answered with a message, the first that does is
    the row. *)
Lemma ask_row_run (r : nat) (cols : Z) (g : string) (rest : list string)
    (dr : nat) (fs : FS) (bads : list string) :
  Forall (fun l => good_row cols l = false) bads ->
  good_row cols g = true ->
  forall so, exists out,
    while_true
      (io_bind
         (input ("Row " ++ str_of_nat (r + 1) ++ " (enter " ++ str_of_int cols
                 ++ " numbers separated by spaces or commas): "))
         (fun line =>
          io_bind (lift_py (parse_numbers_from_line (str_strip line)))
            (fun nums =>
             if negb (Z.eqb (Z.of_nat (length nums)) cols)
             then
               io_bind
                 (io_print
                    ("Expected " ++ str_of_int cols ++ " numbers but got "
                     ++ str_of_nat (length nums) ++ ". Try again."))
                 (fun _ => io_ret Continue)
             else io_ret (Break nums))))
      (mk_world (bads ++ g :: rest) so dr fs)
    = (Returns (row_of g), mk_world rest (so ++ out) dr fs).
Proof.
  intros Hb Hg. induction Hb as [| b bads Hbad _ IH]; intros so.
  - eexists.
    rewrite (@while_true_unfold FS _ _ _ _ _
               (ask_row_body_spec (fun _ => True) r cols I)).
    cbn [app]. io_run. fold (row_of g). unfold good_row in Hg. rewrite Hg.
    cbn [negb]. io_run. reflexivity.
  - rewrite (@while_true_unfold FS _ _ _ _ _
               (ask_row_body_spec (fun _ => True) r cols I)).
    cbn [app]. io_run. fold (row_of b). unfold good_row in Hbad.
    rewrite Hbad. cbn [negb]. io_run.
    destruct (IH ((so
                   ++ [Prompt ("Row " ++ str_of_nat (r + 1) ++ " (enter "
                               ++ str_of_int cols
                               ++ " numbers separated by spaces or commas): ")])
                  ++ [Line ("Expected " ++ str_of_int cols
                            ++ " numbers but got "
                            ++ str_of_nat (length (row_of b))
                            ++ ". Try again.")]))
      as [out E].
    rewrite E. eexists. rewrite <- !app_assoc. reflexivity.
Qed.

Lemma replace_nth_app (X : Type) (done more : list X) (x y : X) :
  replace_nth (length done) x (done ++ y :: more) = done ++ x :: more.
Proof.
  induction done as [| d done IH]; simpl; [reflexivity | now rewrite IH].
Qed.

Lemma set_row_next (shp : nat * nat) (done more : list (list float))
    (x y : list float) :
  set_row (mk_ndarray shp (done ++ y :: more)) (length done) x
  = mk_ndarray shp (done ++ x :: more).
Proof. unfold set_row. simpl. now rewrite replace_nth_app. Qed.

(** The [for] loop of [input_matrix] from row [length done] on. *)
Lemma fill_rows_run (cols : Z) (shp : nat * nat) (zero : list float)
    (rest : list string) (dr : nat) (fs : FS)
    (groups : list (list string * string)) :
  Forall (fun g => Forall (fun l => good_row cols l = false) (fst g)
                   /\ good_row cols (snd g) = true) groups ->
  forall (done : list (list float)) (so : list output), exists out,
    io_for (seq (length done) (length groups))
      (fun r mat =>
         io_bind
           (while_true
              (io_bind
                 (input ("Row " ++ str_of_nat (r + 1) ++ " (enter "
                         ++ str_of_int cols
                         ++ " numbers separated by spaces or commas): "))
                 (fun line =>
                  io_bind (lift_py (parse_numbers_from_line (str_strip line)))
                    (fun nums =>
                     if negb (Z.eqb (Z.of_nat (length nums)) cols)
                     then
                       io_bind
                         (io_print
                            ("Expected " ++ str_of_int cols
                             ++ " numbers but got "
                             ++ str_of_nat (length nums) ++ ". Try again."))
                         (fun _ => io_ret Continue)
                     else io_ret (Break nums)))))
           (fun nums => io_ret (set_row mat r nums)))
      (mk_ndarray shp (done ++ repeat zero (length groups)))
      (mk_world (concat (map row_attempts groups) ++ rest) so dr fs)
    = (Returns (mk_ndarray shp (done ++ map (fun g => row_of (snd g)) groups)),
       mk_world rest (so ++ out) dr fs).
Proof.
  induction 1 as [| [bads g] groups [Hb Hg] _ IH]; intros done so.
  - exists []. simpl. now rewrite !app_nil_r.
  - cbn [length seq io_for map concat repeat].
    unfold row_attempts at 1. cbn [fst snd].
    rewrite <- !app_assoc. cbn [app].
    rewrite 2 run_bind.
    destruct (@ask_row_run (length done) cols g
                (concat (map row_attempts groups) ++ rest) dr fs bads Hb Hg so)
      as [out1 E1].
    rewrite E1. io_run. rewrite set_row_next.
    destruct (IH (done ++ [row_of g]) (so ++ out1)) as [out2 E2].
    rewrite length_app, Nat.add_1_r in E2. cbn [length] in E2.
    rewrite <- !app_assoc in E2. cbn [app] in E2.
    rewrite E2. exists (out1 ++ out2). now rewrite !app_assoc.
Qed.

Lemma good_rows_wf (cols : Z) (rows : nat)
    (groups : list (list string * string)) :
  length groups = rows ->
  Forall (fun g => Forall (fun l => good_row cols l = false) (fst g)
                   /\ good_row cols (snd g) = true) groups ->
  wf (mk_ndarray (rows, Z.to_nat cols) (map (fun g => row_of (snd g)) groups)).
Proof.
  intros L H. split; simpl.
  - now rewrite length_map.
  - rewrite Forall_forall in *. intros r Hr. apply in_map_iff in Hr.
    destruct Hr as [g [<- Hg]]. destruct (H g Hg) as [_ G].
    unfold good_row in G. apply Z.eqb_eq in G. lia.
Qed.

(** The rows of [input_matrix] on the array [np.zeros] made. *)
Ltac rows_given rows cols rest dr fs groups G L F :=
  unfold lift_result, np_zeros;
  rewrite (@shape_error_fits rows cols ltac:(lia) ltac:(lia) F);
  rewrite run_ret; cbn beta iota;
  match goal with
  | |- exists out, io_for _ _ _ (mk_world _ ?so' _ _) = _ =>
      let out := fresh "out" in
      let E := fresh "E" in
      destruct (@fill_rows_run cols (Z.to_nat rows, Z.to_nat cols)
                  (repeat 0%float (Z.to_nat cols)) rest dr fs groups G []
                  so') as [out E];
      cbn [length app] in E; rewrite L in E; rewrite E;
      eexists; rewrite <- !app_assoc; reflexivity
  end.

(** The refusal of [np.zeros], before any row is read. *)
Ltac rows_refused rows cols F :=
  let msg := fresh "msg" in
  let Hs := fresh "Hs" in
  destruct (@shape_error_exceeds rows cols (or_intror (or_intror F)))
    as [msg Hs];
  exists msg;
  unfold lift_result, np_zeros; rewrite Hs;
  eexists; unfold io_raise; rewrite <- !app_assoc; reflexivity.

(** X4. Row-by-row mode of [input_matrix]: after a shape of positive
    integers and a mode other than 2 and 3 (1, blank or anything else),
    each row in turn is the first line that holds exactly [cols] numbers;
    the lines before it that do not are answered with a message and
    dropped.  The matrix returned has these lines as rows, and nothing
    after the last of them is read.  This is so for a shape within
    NumPy's index range ([8 * rows * cols] bytes at most [intp_max]); for
    a larger one [np.zeros] raises its [ValueError] before any row is
    read. *)
Theorem input_matrix_row_by_row (name l1 l2 lm : string)
    (groups : list (list string * string)) (rest : list string)
    (rows cols : Z) (so : list output) (dr : nat) (fs : FS) :
  parse_int (str_strip l1) = Some rows ->
  parse_int (str_strip l2) = Some cols ->
  (0 < rows)%Z -> (0 < cols)%Z ->
  str_or (str_strip lm) "1" <> "2"%string ->
  str_or (str_strip lm) "1" <> "3"%string ->
  length groups = Z.to_nat rows ->
  Forall (fun g => Forall (fun l => good_row cols l = false) (fst g)
                   /\ good_row cols (snd g) = true) groups ->
  wf (mk_ndarray (Z.to_nat rows, Z.to_nat cols)
        (map (fun g => row_of (snd g)) groups)) /\
  ((8 * rows * cols <= intp_max)%Z ->
   exists out,
     input_matrix uniform name
       (mk_world (l1 :: l2 :: lm :: concat (map row_attempts groups) ++ rest)
          so dr fs)
     = (Returns
          (mk_ndarray (Z.to_nat rows, Z.to_nat cols)
             (map (fun g => row_of (snd g)) groups)),
        mk_world rest (so ++ out) dr fs)) /\
  ((intp_max < 8 * rows * cols)%Z ->
   exists msg out,
     input_matrix uniform name
       (mk_world (l1 :: l2 :: lm :: concat (map row_attempts groups) ++ rest)
          so dr fs)
     = (Raises (Std (ValueError msg)),
        mk_world (concat (map row_attempts groups) ++ rest) (so ++ out)
          dr fs)).
Proof.
  intros P1 P2 Hr Hc M2 M3 L G.
  split; [now apply good_rows_wf |].
  apply String.eqb_neq in M2. apply String.eqb_neq in M3.
  split; intros F.
  - assert (F' : (8 * Z.max 1 rows * Z.max 1 cols <= intp_max)%Z)
      by (rewrite !Z.max_r by lia; exact F).
    shape_given name P1 P2 Hr Hc.
    rewrite M3, M2. io_run.
    rows_given rows cols rest dr fs groups G L F'.
  - assert (F' : (intp_max < 8 * Z.max 1 rows * Z.max 1 cols)%Z)
      by (rewrite !Z.max_r by lia; exact F).
    shape_given name P1 P2 Hr Hc.
    rewrite M3, M2. io_run.
    rows_refused rows cols F'.
Qed.

(** X5. Paste mode of [input_matrix] falls back: when the pasted line
    does not hold exactly [rows * cols] numbers it is dropped with a
    message, and the rows are read one by one from the lines after it, as
    in row-by-row mode: for a shape within NumPy's index range the matrix
    of the accepted lines is returned, for a larger one [np.zeros] raises
    its [ValueError] before any row is read. *)
Theorem input_matrix_paste_falls_back (name l1 l2 lm s : string)
    (groups : list (list string * string)) (rest : list string)
    (rows cols : Z) (so : list output) (dr : nat) (fs : FS) :
  parse_int (str_strip l1) = Some rows ->
  parse_int (str_strip l2) = Some cols ->
  (0 < rows)%Z -> (0 < cols)%Z ->
  str_strip lm = "2"%string ->
  Z.of_nat (length (row_of s)) <> (rows * cols)%Z ->
  length groups = Z.to_nat rows ->
  Forall (fun g => Forall (fun l => good_row cols l = false) (fst g)
                   /\ good_row cols (snd g) = true) groups ->
  ((8 * rows * cols <= intp_max)%Z ->
   exists out,
     input_matrix uniform name
       (mk_world
          (l1 :: l2 :: lm :: s :: concat (map row_attempts groups) ++ rest)
          so dr fs)
     = (Returns
          (mk_ndarray (Z.to_nat rows, Z.to_nat cols)
             (map (fun g => row_of (snd g)) groups)),
        mk_world rest (so ++ out) dr fs)) /\
  ((intp_max < 8 * rows * cols)%Z ->
   exists msg out,
     input_matrix uniform name
       (mk_world
          (l1 :: l2 :: lm :: s :: concat (map row_attempts groups) ++ rest)
          so dr fs)
     = (Raises (Std (ValueError msg)),
        mk_world (concat (map row_attempts groups) ++ rest) (so ++ out)
          dr fs)).
Proof.
  intros P1 P2 Hr Hc Hm Hn L G.
  apply Z.eqb_neq in Hn.
  split; intros F.
  - assert (F' : (8 * Z.max 1 rows * Z.max 1 cols <= intp_max)%Z)
      by (rewrite !Z.max_r by lia; exact F).
    shape_given name P1 P2 Hr Hc.
    rewrite Hm. cbn [str_or String.eqb Ascii.eqb Bool.eqb]. io_run.
    fold (row_of s). rewrite Hn. cbn [negb]. io_run.
    rows_given rows cols rest dr fs groups G L F'.
  - assert (F' : (intp_max < 8 * Z.max 1 rows * Z.max 1 cols)%Z)
      by (rewrite !Z.max_r by lia; exact F).
    shape_given name P1 P2 Hr Hc.
    rewrite Hm. cbn [str_or String.eqb Ascii.eqb Bool.eqb]. io_run.
    fold (row_of s). rewrite Hn. cbn [negb]. io_run.
    rows_refused rows cols F'.
Qed.

Lemma np_random_rand_entry (rows cols : Z) (so : list output) (dr : nat)
    (fs : FS) (rest : list string) :
  shape_error rows cols = None ->
  exists M,
    np_random_rand uniform rows cols (mk_world rest so dr fs)
    = (Returns M,
       mk_world rest so (dr + Z.to_nat rows * Z.to_nat cols) fs) /\
    wf M /\ shape M = (Z.to_nat rows, Z.to_nat cols) /\
    forall i j, i < Z.to_nat rows -> j < Z.to_nat cols ->
      entry M i j = uniform (dr + i * Z.to_nat cols + j).
Proof.
  intros N. unfold np_random_rand.
  rewrite N. eexists. split; [reflexivity |].
  split; [| split; [reflexivity |]].
  - split; simpl.
    + now rewrite length_map, length_seq.
    + rewrite Forall_forall. intros r Hr'. apply in_map_iff in Hr'.
      destruct Hr' as [i [<- _]]. now rewrite length_map, length_seq.
  - intros i j Hi Hj. unfold entry. cbn [data stdin stdout drawn files].
    set (f := fun i0 => map (fun j0 => uniform (dr + i0 * Z.to_nat cols + j0))
                            (seq 0 (Z.to_nat cols))).
    rewrite (nth_indep _ [] (f 0)) by (rewrite length_map, length_seq; lia).
    rewrite (map_nth f), seq_nth by lia. unfold f. cbn [Nat.add].
    set (h := fun j0 => uniform (dr + i * Z.to_nat cols + j0)).
    rewrite (nth_indep _ _ (h 0)) by (rewrite length_map, length_seq; lia).
    rewrite (map_nth h), seq_nth by lia. reflexivity.
Qed.

(** X6. Random mode of [input_matrix]: after a shape of positive
    integers and the mode 3, no further line is read.  For a shape within
    NumPy's index range ([8 * rows * cols] bytes at most [intp_max]) the
    matrix is filled, row by row, with the next [rows * cols] numbers of
    the random generator; for a larger one [np.random.rand] raises its
    [ValueError], which leaves [input_matrix]. *)
Theorem input_matrix_random (name l1 l2 lm : string) (rest : list string)
    (rows cols : Z) (so : list output) (dr : nat) (fs : FS) :
  parse_int (str_strip l1) = Some rows ->
  parse_int (str_strip l2) = Some cols ->
  (0 < rows)%Z -> (0 < cols)%Z ->
  str_strip lm = "3"%string ->
  ((8 * rows * cols <= intp_max)%Z ->
   exists M out,
     input_matrix uniform name (mk_world (l1 :: l2 :: lm :: rest) so dr fs)
     = (Returns M,
        mk_world rest (so ++ out) (dr + Z.to_nat rows * Z.to_nat cols) fs) /\
     wf M /\ shape M = (Z.to_nat rows, Z.to_nat cols) /\
     forall i j, i < Z.to_nat rows -> j < Z.to_nat cols ->
       entry M i j = uniform (dr + i * Z.to_nat cols + j)) /\
  ((intp_max < 8 * rows * cols)%Z ->
   exists msg out,
     input_matrix uniform name (mk_world (l1 :: l2 :: lm :: rest) so dr fs)
     = (Raises (Std (ValueError msg)), mk_world rest (so ++ out) dr fs)).
Proof.
  intros P1 P2 Hr Hc Hm.
  assert (R : exists so',
             input_matrix uniform name
               (mk_world (l1 :: l2 :: lm :: rest) so dr fs)
             = np_random_rand uniform rows cols (mk_world rest so' dr fs)
             /\ exists out, so' = so ++ out).
  { eexists. split.
    - shape_given name P1 P2 Hr Hc.
      rewrite Hm. cbn [str_or String.eqb Ascii.eqb Bool.eqb]. reflexivity.
    - eexists. rewrite <- !app_assoc. reflexivity. }
  destruct R as [so' [R [out ->]]]. rewrite R.
  split; intros F.
  - assert (N : shape_error rows cols = None).
    { apply shape_error_fits; [lia | lia |].
      rewrite !Z.max_r by lia. exact F. }
    destruct (@np_random_rand_entry rows cols (so ++ out) dr fs rest N)
      as [M [E [W [S HE]]]].
    exists M, out. auto.
  - destruct (@shape_error_exceeds rows cols) as [msg Hs].
    { right. right. rewrite !Z.max_r by lia. exact F. }
    exists msg, out. unfold np_random_rand. rewrite Hs. reflexivity.
Qed.

Ltac choice_is H :=
  rewrite H; cbn [str_or String.eqb Ascii.eqb Bool.eqb].

(** X11. [choose_matrix] with the option 2 reads the path on the next
    line: when [numpy.loadtxt] gives a matrix for it, that matrix is
    returned as it is; when [numpy.loadtxt] raises, the failure is printed
    and [input_matrix] reads the matrix from the lines that follow. *)
Theorem choose_matrix_from_file (name l p : string) (rest : list string)
    (so : list output) (dr : nat) (fs : FS) :
  str_strip l = "2"%string ->
  exists out,
    choose_matrix loadtxt uniform name (mk_world (l :: p :: rest) so dr fs)
    = match loadtxt fs (str_strip p) with
      | inr M =>
          (Returns M,
           mk_world rest
             (so ++ out
                 ++ [Line ("Loaded matrix from " ++ str_strip p ++ ": shape "
                           ++ str_of_shape (shape M))])
             dr fs)
      | inl e =>
          input_matrix uniform name
            (mk_world rest
               (so ++ out
                   ++ [ErrorLine "Failed to load file:" e;
                       Line "Falling back to interactive input."])
               dr fs)
      end.
Proof.
  intros Hl.
  exists [Line ("Options to provide matrix " ++ name ++ ":");
          Line "  1) Type/paste interactively";
          Line "  2) Load from file";
          Line "  3) Random matrix";
          Prompt "Choose (1/2/3) [1]: ";
          Prompt "Enter file path (CSV or whitespace-separated): "].
  unfold choose_matrix. io_run. choice_is Hl.
  unfold load_matrix_from_file. io_run.
  destruct (loadtxt fs (str_strip p)) as [e | M];
    cbn beta iota delta [is_Exception]; io_run;
    rewrite <- !app_assoc; cbn [app]; reflexivity.
Qed.

Lemma np_scale_entry (M : ndarray float) (scale : float) (i j : nat) :
  i < length (data M) -> j < length (nth i (data M) []) ->
  entry (np_scale M scale) i j = (entry M i j * scale)%float.
Proof.
  intros Hi Hj. unfold entry, np_scale. cbn [data].
  set (f := map (fun x => (x * scale)%float)).
  rewrite (nth_indep _ [] (f [])) by (rewrite length_map; lia).
  rewrite (map_nth f). unfold f.
  set (g := fun x => (x * scale)%float).
  rewrite (nth_indep _ _ (g 0%float)) by (rewrite length_map; lia).
  now rewrite (map_nth g).
Qed.

Lemma run_py_float (s : string) (x : float) :
  numeric_value s = Some x ->
  forall w : world FS, lift_py (py_float s) w = (Returns x, w).
Proof.
  intros H w. unfold numeric_value in H. unfold lift_py.
  destruct (py_float_cases s) as [[y E] | [msg E]]; rewrite E in *;
    simpl in *; [| discriminate H].
  inversion H; subst y. now rewrite app_nil_r, world_eta.
Qed.


(** [float(s or 1.0)] for the answer [s] to the question for the scale. *)
Lemma run_scale (X : Type) (ls : string) (scale : float)
    (k : float -> IO FS X) :
  (ls = EmptyString /\ scale = 1%float) \/
  (ls <> EmptyString /\ numeric_value ls = Some scale) ->
  forall w : world FS,
    io_bind
      match ls with
      | EmptyString => io_ret 1%float
      | String _ _ => lift_py (py_float ls)
      end k w
    = k scale w.
Proof.
  intros [[E1 E2] | [Hne Hv]] w.
  - subst ls scale. reflexivity.
  - destruct ls as [| a ls]; [contradiction |].
    rewrite run_bind. now rewrite (@run_py_float _ _ Hv).
Qed.
(** X12. [choose_matrix] with the option 3 reads the numbers of rows and
    columns and the scale on the next three lines, a blank scale meaning
    1.0, and does not ask for positive sizes.  For sizes that are not
    negative (zero included) and within NumPy's index range (8 bytes
    times the sizes that are not zero, at most [intp_max]) the matrix has
    that shape and entry (i, j) is the next number of the random generator
    times the scale.  For any other sizes, negative or too large,
    [numpy.random.rand] raises a [ValueError], which leaves
    [choose_matrix] after all three lines are read. *)
Theorem choose_matrix_random (name l lr lc ls : string) (rest : list string)
    (rows cols : Z) (scale : float) (so : list output) (dr : nat) (fs : FS) :
  str_strip l = "3"%string ->
  parse_int lr = Some rows -> parse_int lc = Some cols ->
  (ls = EmptyString /\ scale = 1%float) \/
  (ls <> EmptyString /\ numeric_value ls = Some scale) ->
  ((0 <= rows)%Z -> (0 <= cols)%Z ->
   (8 * Z.max 1 rows * Z.max 1 cols <= intp_max)%Z ->
   exists M out,
     choose_matrix loadtxt uniform name
       (mk_world (l :: lr :: lc :: ls :: rest) so dr fs)
     = (Returns M,
        mk_world rest (so ++ out) (dr + Z.to_nat rows * Z.to_nat cols) fs) /\
     wf M /\ shape M = (Z.to_nat rows, Z.to_nat cols) /\
     forall i j, i < Z.to_nat rows -> j < Z.to_nat cols ->
       entry M i j = (uniform (dr + i * Z.to_nat cols + j) * scale)%float)
  /\
  ((rows < 0 \/ cols < 0 \/
    intp_max < 8 * Z.max 1 rows * Z.max 1 cols)%Z ->
   exists msg out,
     choose_matrix loadtxt uniform name
       (mk_world (l :: lr :: lc :: ls :: rest) so dr fs)
     = (Raises (Std (ValueError msg)), mk_world rest (so ++ out) dr fs))
  /\
  ((rows < 0 \/ cols < 0)%Z -> is_intp rows = true -> is_intp cols = true ->
   (8 * Z.max 1 rows <= intp_max)%Z ->
   exists out,
     choose_matrix loadtxt uniform name
       (mk_world (l :: lr :: lc :: ls :: rest) so dr fs)
     = (Raises (Std (ValueError "negative dimensions are not allowed")),
        mk_world rest (so ++ out) dr fs)).
Proof.
  intros Hl Pr Pc Hs.
  assert (R : exists so',
             choose_matrix loadtxt uniform name
               (mk_world (l :: lr :: lc :: ls :: rest) so dr fs)
             = io_bind (np_random_rand uniform rows cols)
                 (fun mat => io_ret (np_scale mat scale))
                 (mk_world rest so' dr fs)
             /\ exists out, so' = so ++ out).
  { eexists. split.
    - unfold choose_matrix. io_run. choice_is Hl. io_run.
      rewrite (@run_py_int _ _ Pr). io_run. rewrite (@run_py_int _ _ Pc).
      io_run. rewrite <- !run_bind. rewrite (@run_scale _ _ _ _ Hs).
      reflexivity.
    - eexists. rewrite <- !app_assoc. reflexivity. }
  destruct R as [so' [R [out ->]]]. rewrite R. split; [| split].
  - intros Hr Hc F.
    destruct (@np_random_rand_entry rows cols (so ++ out) dr fs rest
                (@shape_error_fits rows cols Hr Hc F))
      as [M [E [W [S HE]]]].
    exists (np_scale M scale), out. rewrite run_bind, E.
    split; [reflexivity |].
    split; [now apply np_scale_wf | split; [exact S |]].
    intros i j Hi Hj. destruct W as [WL WR]. rewrite S in WL, WR.
    cbn [fst snd] in WL, WR.
    rewrite np_scale_entry.
    + now rewrite HE.
    + lia.
    + rewrite Forall_forall in WR. rewrite WR; [lia |].
      apply nth_In. lia.
  - intros N. destruct (@shape_error_exceeds rows cols N) as [msg Hmsg].
    exists msg, out. rewrite run_bind. unfold np_random_rand.
    rewrite Hmsg. reflexivity.
  - intros N Ir Ic F. exists out. rewrite run_bind. unfold np_random_rand.
    replace (shape_error rows cols)
      with (Some "negative dimensions are not allowed"%string);
      [reflexivity |].
    unfold shape_error. rewrite Ir, Ic. cbn [andb negb nbytes_error].
    destruct (Z.eqb_spec rows 0) as [-> | Nr].
    + destruct (Z.eqb_spec cols 0) as [-> | Nc]; [lia |].
      destruct (Z.ltb_spec cols 0) as [L | L]; [reflexivity | lia].
    + destruct (Z.ltb_spec rows 0) as [L | L]; [reflexivity |].
      destruct (Z.ltb_spec intp_max (8 * rows)) as [L' | L']; [lia |].
      destruct (Z.eqb_spec cols 0) as [-> | Nc]; [lia |].
      destruct (Z.ltb_spec cols 0) as [L'' | L'']; [reflexivity | lia].
Qed.

Lemma while_fuel_break (X : Type) (P : X -> world FS -> Prop)
    (body : IO FS (step X)) :
  (forall w x w', body w = (Returns (Break x), w') -> P x w') ->
  forall fuel w x w', while_fuel fuel body w = (Returns x, w') -> P x w'.
Proof.
  intros Hb. induction fuel as [| fuel IH]; intros w x w' H; simpl in H.
  - discriminate H.
  - rewrite run_bind in H.
    destruct (body w) as [[[| y] | e |] w1] eqn:B; try discriminate H.
    + now apply (IH w1).
    + rewrite run_ret in H. inversion H; subst. now apply (Hb w).
Qed.

Lemma then_continue_no_break (X Y : Type) (c : IO FS X) (w w' : world FS)
    (y : Y) :
  io_bind c (fun _ => io_ret (@Continue Y)) w <> (Returns (Break y), w').
Proof.
  rewrite run_bind. destruct (c w) as [[x | e |] w1]; discriminate.
Qed.

(** X15. Quitting [main]: an answer to the menu that is [q] once
    stripped and lowered ends the session: [main] prints the farewell last
    and returns, leaving the rest of the input unread, the files and the
    random generator untouched. *)
Theorem main_quit (l : string) (rest : list string) (so : list output)
    (dr : nat) (fs : FS) :
  str_lower (str_strip l) = "q"%string ->
  exists out,
    main linalg_cond linalg_inv loadtxt savetxt uniform HAS_MPL show_figure
      (mk_world (l :: rest) so dr fs)
    = (Returns tt, mk_world rest (so ++ out ++ [Line "Goodbye!"]) dr fs).
Proof.
  intros Hq.
  exists [Banner; Line ""; Line "Select operation:"; Line "  1) Add (A + B)";
          Line "  2) Subtract (A - B)"; Line "  3) Multiply (A * B)";
          Line "  4) Inverse (A^-1)"; Line "  5) Demo (sample matrices)";
          Line "  q) Quit"; Prompt "Choice: "].
  unfold main. io_run.
  rewrite (@while_true_unfold FS _ _ _ _ _
             (main_body_spec (fun _ => True) I)).
  unfold print_menu. io_run. rewrite Hq.
  cbn [String.eqb Ascii.eqb Bool.eqb]. io_run.
  rewrite <- !app_assoc. reflexivity.
Qed.

(** X16. [main] returns only through the quit branch: whenever it
    returns, the last thing it printed is the farewell. *)
Theorem main_returns_after_goodbye (w w' : world FS) (u : unit) :
  main linalg_cond linalg_inv loadtxt savetxt uniform HAS_MPL show_figure w
  = (Returns u, w') ->
  exists out, stdout w' = out ++ [Line "Goodbye!"].
Proof.
  unfold main. io_run. unfold while_true.
  apply (@while_fuel_break unit
           (fun _ w' => exists out, stdout w' = out ++ [Line "Goodbye!"])).
  clear. intros [[| l rest] so dr fs] x w' H.
  - unfold print_menu in H. revert H. io_run. discriminate.
  - unfold print_menu in H. revert H. io_run.
    destruct (String.eqb (str_lower (str_strip l)) "q").
    + io_run. intros H. inversion H; subst. cbn [stdout]. eexists.
      reflexivity.
    + destruct (String.eqb (str_lower (str_strip l)) "5"); intros H.
      * now apply then_continue_no_break in H.
      * now apply then_continue_no_break in H.
Qed.

Lemma io_for_print_run (X : Type) (f : X -> string) (xs : list X)
    (w : world FS) :
  io_for xs (fun r (_ : unit) => io_print (f r)) tt w
  = (Returns tt,
     mk_world (stdin w) (stdout w ++ map (fun r => Line (f r)) xs) (drawn w)
       (files w)).
Proof.
  revert w. induction xs as [| x xs IH]; intros w; cbn [io_for map].
  - rewrite run_ret. now rewrite app_nil_r, world_eta.
  - rewrite run_bind, run_print, IH. cbn [stdin stdout drawn files].
    now rewrite <- app_assoc.
Qed.

Lemma pretty_print_run (mat : ndarray float) (p : nat) :
  exists out, forall w : world FS,
    pretty_print mat p w
    = (Returns tt,
       mk_world (stdin w) (stdout w ++ out) (drawn w) (files w)).
Proof.
  eexists. intros w. unfold pretty_print.
  rewrite run_bind, io_for_print_run, run_print.
  cbn [stdin stdout drawn files]. rewrite <- app_assoc. reflexivity.
Qed.

(** X17. The inverse branch of [main] reports what [invert_matrix]
    raises: once [choose_matrix] has returned [A], a [ValueError] of
    [invert_matrix] (not square, singular, or a failure of the condition
    number) is printed after [Error:] and the branch returns; nothing more
    is read, drawn or saved. *)
Theorem inverse_operation_reports_error (A : ndarray float) (e : exn)
    (w w1 : world FS) :
  choose_matrix loadtxt uniform "A" w = (Returns A, w1) ->
  fst (invert_matrix linalg_cond linalg_inv A []) = inl e ->
  exists out,
    inverse_operation linalg_cond linalg_inv loadtxt savetxt uniform HAS_MPL
      show_figure w
    = (Returns tt,
       mk_world (stdin w1) (stdout w1 ++ out ++ [ErrorLine "Error:" (Std e)])
         (drawn w1) (files w1)).
Proof.
  intros HA He.
  destruct (pretty_print_run A 3) as [ppA HppA].
  destruct (invert_matrix linalg_cond linalg_inv A []) as [r t] eqn:Hinv.
  cbn [fst] in He. subst r.
  exists ([Line ""; Line "Matrix A:"] ++ ppA ++ map Numeric t).
  unfold inverse_operation. rewrite run_bind, HA. io_run.
  rewrite HppA. io_run. unfold lift_py. rewrite Hinv.
  cbn beta iota delta [stdin stdout drawn files].
  replace (is_ValueError (Std e)) with true by (now destruct e).
  io_run. rewrite <- !app_assoc. reflexivity.
Qed.

Lemma length_append (s t : string) :
  String.length (s ++ t) = String.length s + String.length t.
Proof. induction s as [| c s IH]; simpl; auto. Qed.

Lemma repeat_char_length (c : ascii) (n : nat) :
  String.length (repeat_char c n) = n.
Proof. induction n as [| n IH]; simpl; auto. Qed.

Lemma rjust_length (w : nat) (s : string) :
  String.length (rjust w s) = Nat.max w (String.length s).
Proof.
  unfold rjust. rewrite length_append, repeat_char_length. lia.
Qed.

Lemma join_length (parts : list string) (n : nat) :
  Forall (fun p => String.length p = n) parts ->
  String.length (join " " parts) = (n + 1) * length parts - 1.
Proof.
  induction 1 as [| p parts Hp Hl IH]; [simpl; lia |].
  destruct parts as [| q parts].
  - simpl. lia.
  - change (join " " (p :: q :: parts))
      with (p ++ " " ++ join " " (q :: parts))%string.
    rewrite !length_append, IH, Hp. cbn [String.length length]. lia.
Qed.

(** X7. [pretty_print] prints one line per row and then an empty line,
    reads nothing and raises nothing; when every entry, formatted with
    [precision] decimals, takes at most 8 characters, the columns are
    aligned: every row line is [9 * cols - 1] characters long. *)
Theorem pretty_print_aligned (mat : ndarray float) (p : nat) (w : world FS) :
  exists lines,
    pretty_print mat p w
    = (Returns tt,
       mk_world (stdin w) (stdout w ++ map Line lines ++ [Line ""])
         (drawn w) (files w)) /\
    length lines = fst (shape mat) /\
    ((forall r c, r < fst (shape mat) -> c < snd (shape mat) ->
        String.length (format_fixed p (entry mat r c)) <= 8) ->
     Forall (fun l => String.length l = 9 * snd (shape mat) - 1) lines).
Proof.
  exists (map (fun r =>
                 join " "
                   (map (fun c => rjust 8 (format_fixed p (entry mat r c)))
                        (seq 0 (snd (shape mat)))))
              (seq 0 (fst (shape mat)))).
  split; [| split].
  - unfold pretty_print. rewrite run_bind, io_for_print_run, run_print.
    cbn [stdin stdout drawn files]. now rewrite <- app_assoc, map_map.
  - now rewrite length_map, length_seq.
  - intros H. rewrite Forall_forall. intros l Hl. apply in_map_iff in Hl.
    destruct Hl as [r [<- Hr]]. apply in_seq in Hr.
    rewrite (@join_length _ 8).
    + rewrite length_map, length_seq. lia.
    + rewrite Forall_forall. intros q Hq. apply in_map_iff in Hq.
      destruct Hq as [c [<- Hc]]. apply in_seq in Hc.
      rewrite rjust_length. specialize (H r c). lia.
Qed.

(** ** What the functions of the shell guarantee *)

(** X1. [input_matrix] ends on every input, whatever the random generator:
    it returns a rectangular matrix with at least one row and one column
    after reading at least one line, or an exception leaves it, which is
    the [EOFError] of [input] when the input ran out, or the [ValueError]
    of [np.zeros] or [np.random.rand] for a shape of positive sizes that
    NumPy refuses (one beyond its index range); no other exception
    does. *)
Theorem input_matrix_total (name : string) (w : world FS) :
  match input_matrix uniform name w with
  | (Returns M, w') =>
      proper_matrix M /\ length (stdin w') < length (stdin w)
  | (Raises e, w') => e = EOFError \/ shape_refused e
  | (Diverges, _) => False
  end.
Proof.
  generalize (@input_matrix_spec (fun e => e = EOFError \/ shape_refused e)
                name (or_introl eq_refl) (fun e H => or_intror H) w).
  destruct (input_matrix uniform name w) as [[M | e |] w']; tauto.
Qed.

(** X8. [load_matrix_from_file] reads one line, the path, and never
    fails because of the file: when [numpy.loadtxt] gives a matrix for the
    stripped path it returns that matrix, when [numpy.loadtxt] raises
    anything it returns [None]; the files are left as they were.  Only the
    [EOFError] of [input], on an empty input, leaves it. *)
Theorem load_matrix_from_file_outcome (w : world FS) :
  match load_matrix_from_file loadtxt w with
  | (Returns m, w') =>
      files w' = files w /\
      exists l, stdin w = l :: stdin w' /\
        m = match loadtxt (files w) (str_strip l) with
            | inr M => Some M
            | inl _ => None
            end
  | (Raises e, w') => e = EOFError /\ stdin w = []
  | (Diverges, _) => False
  end.
Proof.
  destruct w as [[| l rest] so dr fs].
  - simpl. auto.
  - unfold load_matrix_from_file, io_bind, io_try, input, io_bind, write,
      read_line. cbn [stdin stdout drawn files].
    destruct (loadtxt fs (str_strip l)) as [e | M] eqn:L;
      cbn [is_Exception io_print io_print_exn write io_ret stdin files];
      (split; [reflexivity |]); exists l; rewrite L; auto.
Qed.

(** X9. [save_matrix] reads one line, the file name.  A name that is
    blank after stripping saves nothing and prints nothing more;
    otherwise the files are what [numpy.savetxt] leaves behind, whether it
    raised or not, and the confirmation is printed, or, when
    [numpy.savetxt] raised, its failure, which is not raised again.  Only
    the [EOFError] of [input], on an empty input, leaves it. *)
Theorem save_matrix_outcome (mat : ndarray float) (w : world FS) :
  match save_matrix savetxt mat w with
  | (Returns _, w') =>
      exists l, stdin w = l :: stdin w' /\
        match str_strip l with
        | EmptyString =>
            files w' = files w /\
            stdout w'
            = stdout w
              ++ [Prompt "Enter filename to save (CSV) or leave blank to skip: "]
        | path =>
            files w' = fst (savetxt (files w) path mat) /\
            stdout w'
            = stdout w
              ++ [Prompt "Enter filename to save (CSV) or leave blank to skip: ";
                  match snd (savetxt (files w) path mat) with
                  | None => Line ("Saved to " ++ path)
                  | Some e => ErrorLine "Failed to save:" e
                  end]
        end
  | (Raises e, w') => e = EOFError /\ stdin w = []
  | (Diverges, _) => False
  end.
Proof.
  destruct w as [[| l rest] so dr fs].
  - simpl. auto.
  - unfold save_matrix. rewrite run_bind, run_input. cbn beta iota.
    destruct (str_strip l) as [| a path] eqn:P.
    + rewrite run_ret. exists l. cbn [stdin stdout drawn files].
      split; [reflexivity |]. rewrite P. split; reflexivity.
    + rewrite run_try, run_bind. cbn beta.
      cbn [stdin stdout drawn files].
      destruct (savetxt fs (String a path) mat) as [fs' [e |]] eqn:S;
        cbn [is_Exception]; rewrite ?run_print, ?run_print_exn;
        exists l; cbn [stdin stdout drawn files];
        (split; [reflexivity |]); rewrite P, S; cbn [fst snd];
        rewrite <- app_assoc; split; reflexivity.
Qed.

(** X10. [choose_matrix] ends on every input, whatever the files and the
    random generator: it returns a matrix after reading at least one line,
    or raises the [EOFError] of [input] or a [ValueError] (of [int],
    [float] or [numpy.random.rand] in the random option). *)
Theorem choose_matrix_total (name : string) (w : world FS) :
  match choose_matrix loadtxt uniform name w with
  | (Returns M, w') =>
      ((exists fs path, loadtxt fs path = inr M) \/ wf M) /\
      length (stdin w') < length (stdin w)
  | (Raises e, w') => eof_or_value e
  | (Diverges, _) => False
  end.
Proof.
  assert (HE : eof_or_value EOFError) by now left.
  assert (HV : forall msg, eof_or_value (Std (ValueError msg)))
    by (intros msg; right; now exists msg).
  generalize (@choose_matrix_spec eof_or_value name HE HV w).
  destruct (choose_matrix loadtxt uniform name w) as [[M | e |] w']; tauto.
Qed.

(** X13. The demo of [main] returns whatever [numpy.linalg.cond] and
    [numpy.linalg.inv] answer, errors included: it raises nothing, reads
    no input, draws no random number and touches no file. *)
Theorem demo_returns (w : world FS) :
  exists w',
    demo linalg_cond linalg_inv w = (Returns tt, w') /\
    stdin w' = stdin w /\ drawn w' = drawn w /\ files w' = files w.
Proof.
  generalize (@demo_spec (fun _ => False) w) (quiet_demo w).
  destruct (demo linalg_cond linalg_inv w) as [[[] | e |] w'];
    [| tauto | tauto].
  intros _ H. now exists w'.
Qed.

(** X14. [main] ends on every finite input, whatever numpy, the files,
    the random generator and matplotlib do: it returns, having read at
    least one line, or the input ran out and the [EOFError] of [input]
    leaves it.  No failure of an operation leaves [main]. *)
Theorem main_total (w : world FS) :
  match main linalg_cond linalg_inv loadtxt savetxt uniform HAS_MPL
          show_figure w with
  | (Returns _, w') => length (stdin w') < length (stdin w)
  | (Raises e, w') => e = EOFError
  | (Diverges, _) => False
  end.
Proof.
  generalize (@main_spec (fun e => e = EOFError) eq_refl w).
  destruct (main linalg_cond linalg_inv loadtxt savetxt uniform HAS_MPL
              show_figure w) as [[u | e |] w']; tauto.
Qed.

End ShellFacts.

(** ** Laws of the parser and of addition *)

Lemma flush_nil (rest : list string) : flush EmptyString rest = rest.
Proof. reflexivity. Qed.

Lemma flush_app (cur : string) (a b : list string) :
  flush cur a ++ b = flush cur (a ++ b).
Proof. destruct cur; reflexivity. Qed.

Lemma split_from_app (sep : ascii -> bool) (c : ascii) (b a cur : string) :
  sep c = true ->
  split_from sep cur (a ++ String c b)
  = split_from sep cur a ++ split_from sep EmptyString b.
Proof.
  intros Hc. revert cur. induction a as [| x a IH]; intros cur.
  - cbn [String.append split_from]. rewrite Hc. now rewrite flush_app.
  - cbn [String.append split_from]. destruct (sep x).
    + rewrite IH. now rewrite flush_app.
    + apply IH.
Qed.

Lemma split_from_trailing (sep : ascii -> bool) (ws : list ascii) :
  forallb sep ws = true ->
  forall a cur : string,
    split_from sep cur (a ++ string_of_list_ascii ws)
    = split_from sep cur a.
Proof.
  intros Hws. induction a as [| x a IH]; intros cur.
  - cbn [String.append]. revert cur.
    induction ws as [| c ws IHw]; intros cur; [reflexivity |].
    cbn [forallb] in Hws. apply andb_true_iff in Hws. destruct Hws as [Hc Hw].
    cbn [string_of_list_ascii split_from]. rewrite Hc.
    rewrite (IHw Hw). reflexivity.
  - cbn [String.append split_from]. destruct (sep x); now rewrite IH.
Qed.

Lemma tokens_lstrip (s : string) : tokens (str_lstrip s) = tokens s.
Proof.
  unfold tokens. induction s as [| c s IH]; [reflexivity |].
  cbn [str_lstrip]. destruct (isspace c) eqn:Ec; [| reflexivity].
  cbn [split_from]. unfold is_separator at 2. rewrite Ec. cbn [orb].
  now rewrite flush_nil.
Qed.

(** What [str_lstrip] removes is whitespace. *)
Lemma lstrip_split (l : list ascii) :
  exists ws,
    forallb isspace ws = true /\
    l = ws ++ list_ascii_of_string (str_lstrip (string_of_list_ascii l)).
Proof.
  induction l as [| c l [ws [Hws E]]].
  - exists []. split; reflexivity.
  - cbn [string_of_list_ascii str_lstrip]. destruct (isspace c) eqn:Ec.
    + exists (c :: ws). split.
      * cbn [forallb]. now rewrite Ec, Hws.
      * cbn [app]. now rewrite <- E.
    + exists []. split; [reflexivity |].
      cbn [app list_ascii_of_string].
      now rewrite list_ascii_of_string_of_list_ascii.
Qed.

Lemma string_of_list_ascii_app (a b : list ascii) :
  string_of_list_ascii (a ++ b)
  = (string_of_list_ascii a ++ string_of_list_ascii b)%string.
Proof. induction a as [| x a IH]; simpl; [reflexivity | now rewrite IH]. Qed.

(** What [str.strip] removes at the end is whitespace. *)
Lemma rstrip_split (s : string) :
  exists ws,
    forallb isspace ws = true /\
    s = (str_rev (str_lstrip (str_rev s)) ++ string_of_list_ascii ws)%string.
Proof.
  unfold str_rev at 2.
  destruct (lstrip_split (rev (list_ascii_of_string s))) as [ws [Hws E]].
  exists (rev ws). split.
  - rewrite forallb_forall in *. intros c Hc. apply Hws.
    now apply in_rev.
  - apply (f_equal (@rev ascii)) in E. rewrite rev_involutive, rev_app_distr in E.
    apply (f_equal string_of_list_ascii) in E.
    rewrite string_of_list_ascii_of_string, string_of_list_ascii_app in E.
    exact E.
Qed.

Lemma space_is_separator (ws : list ascii) :
  forallb isspace ws = true -> forallb is_separator ws = true.
Proof.
  rewrite !forallb_forall. intros H c Hc. unfold is_separator.
  now rewrite (H c Hc).
Qed.

Lemma tokens_strip (s : string) : tokens (str_strip s) = tokens s.
Proof.
  unfold str_strip.
  destruct (rstrip_split (str_lstrip s)) as [ws [Hws E]].
  rewrite <- (tokens_lstrip s). rewrite E at 2. unfold tokens.
  now rewrite (split_from_trailing _ _ (space_is_separator _ Hws)).
Qed.

Lemma filter_map_app (X Y : Type) (f : X -> option Y) (a b : list X) :
  filter_map f (a ++ b) = filter_map f a ++ filter_map f b.
Proof.
  induction a as [| x a IH]; [reflexivity |].
  cbn [app filter_map]. destruct (f x); rewrite IH; reflexivity.
Qed.

(** X18. [parse_numbers_from_line] ignores whitespace around the line:
    stripping a line first, as [input_matrix] does, changes nothing of
    what it returns. *)
Theorem parse_numbers_from_line_strip (line : string) (t : trace) :
  parse_numbers_from_line (str_strip line) t = parse_numbers_from_line line t.
Proof.
  rewrite !parse_numbers_from_line_eq. now rewrite tokens_strip.
Qed.

(** X19. [parse_numbers_from_line] reads a line piece by piece: the
    numbers of two texts joined by a comma or a whitespace character are
    the numbers of the first followed by those of the second. *)
Theorem parse_numbers_from_line_app (a b : string) (c : ascii) (t : trace) :
  is_separator c = true ->
  exists na nb,
    parse_numbers_from_line a t = (inr na, t) /\
    parse_numbers_from_line b t = (inr nb, t) /\
    parse_numbers_from_line (a ++ String c b) t = (inr (na ++ nb), t).
Proof.
  intros Hc. do 2 eexists.
  rewrite !parse_numbers_from_line_eq. split; [reflexivity |].
  split; [reflexivity |].
  unfold tokens. rewrite (@split_from_app is_separator c b a EmptyString Hc).
  now rewrite filter_map_app.
Qed.

Lemma SFadd_comm (prec emax : Z) (x y : SpecFloat.spec_float) :
  SpecFloat.SFadd prec emax x y = SpecFloat.SFadd prec emax y x.
Proof.
  destruct x as [sx | sx | | sx mx ex], y as [sy | sy | | sy my ey];
    try reflexivity;
    try (destruct sx, sy; reflexivity).
  unfold SpecFloat.SFadd. rewrite (Z.min_comm ey ex).
  now rewrite Z.add_comm.
Qed.

Lemma float_add_comm (x y : float) : (x + y = y + x)%float.
Proof.
  apply FloatAxioms.Prim2SF_inj. rewrite !FloatAxioms.add_spec.
  apply SFadd_comm.
Qed.

Lemma shape_eqb_sym (s t : nat * nat) : shape_eqb s t = shape_eqb t s.
Proof. unfold shape_eqb. now rewrite (Nat.eqb_sym (fst s)), (Nat.eqb_sym (snd s)). Qed.

Lemma map2_comm (F : Type) (f : F -> F -> F) :
  (forall x y, f x y = f y x) ->
  forall u v, map2 f u v = map2 f v u.
Proof.
  intros Hf. induction u as [| x u IH]; intros [| y v]; simpl; try reflexivity.
  now rewrite Hf, IH.
Qed.

Lemma map2_rows_comm (F : Type) (f : F -> F -> F) :
  (forall x y, f x y = f y x) ->
  forall a b, map2_rows f a b = map2_rows f b a.
Proof.
  intros Hf. induction a as [| r a IH]; intros [| s b]; simpl;
    try reflexivity.
  now rewrite (map2_comm f Hf r s), IH.
Qed.

(** X20. [add_matrices] does not depend on the order of its operands, in
    binary64 (with its one NaN) and in wrap-around 64-bit integers alike:
    [add_matrices A B] and [add_matrices B A] fail together, or return the
    same matrix. *)
Theorem add_matrices_comm :
  (forall A B : ndarray float, add_matrices A B = add_matrices B A) /\
  (forall A B : ndarray Z, add_matrices A B = add_matrices B A).
Proof.
  split; intros A B; unfold add_matrices; rewrite (shape_eqb_sym (shape B));
    destruct (shape_eqb (shape A) (shape B)) eqn:E; try reflexivity;
    cbn [negb]; unfold ndarray_add;
    (replace (shape B) with (shape A)
       by (destruct (shape A), (shape B); unfold shape_eqb in E;
           cbn [fst snd] in E; apply andb_true_iff in E; destruct E as [E1 E2];
           apply Nat.eqb_eq in E1; apply Nat.eqb_eq in E2; now subst));
    f_equal; f_equal; apply map2_rows_comm; intros x y.
  - apply float_add_comm.
  - cbn [dadd int64]. now rewrite Z.add_comm.
Qed.

Lemma wrap64_sub_add (a b : Z) :
  (- 9223372036854775808 <= a < 9223372036854775808)%Z ->
  wrap64 (wrap64 (a + b) - b) = a.
Proof.
  intros Ha. unfold wrap64.
  replace ((a + b + 9223372036854775808) mod 18446744073709551616
           - 9223372036854775808 - b + 9223372036854775808)%Z
    with ((a + b + 9223372036854775808) mod 18446744073709551616 - b)%Z
    by lia.
  rewrite Zminus_mod_idemp_l.
  replace (a + b + 9223372036854775808 - b)%Z
    with (a + 9223372036854775808)%Z by lia.
  rewrite Z.mod_small; lia.
Qed.

(** X21. On 64-bit integer arrays, the dtype of the test file, adding a
    matrix and taking it away again is exact: for [A] and [B] of one shape,
    [A] holding 64-bit values, [sub_matrices(add_matrices(A, B), B)]
    returns [A] itself, overflow in between included. *)
Theorem sub_add_int64_exact (A B : ndarray Z) :
  wf A -> wf B -> shape A = shape B ->
  (forall i j, i < fst (shape A) -> j < snd (shape A) ->
     (- 9223372036854775808 <= entry A i j < 9223372036854775808)%Z) ->
  sub_add A B = inr A.
Proof.
  intros HA HB E Hrange.
  rewrite (sub_add_value A B E). f_equal.
  pose proof (map2_rows_wf dadd HA HB E) as HS.
  fold (ndarray_add A B) in HS.
  assert (ES : shape (ndarray_add A B) = shape B) by exact E.
  pose proof (map2_rows_wf dsub HS HB ES) as HR.
  fold (ndarray_sub (ndarray_add A B) B) in HR.
  apply ndarray_ext; [exact HR | exact HA | reflexivity |].
  intros i j Hi Hj. cbn [ndarray_sub ndarray_add shape] in Hi, Hj.
  unfold ndarray_sub.
  rewrite (map2_rows_entry dsub HS HB ES) by assumption.
  unfold ndarray_add. rewrite (map2_rows_entry dadd HA HB E) by assumption.
  cbn [dadd dsub int64]. apply wrap64_sub_add. now apply Hrange.
Qed.

(** ** Adding then subtracting, exactly *)

Section ExactRounding.
Local Open Scope Z_scope.

Lemma fexp_value (d : Z) : fexp prec emax d = Z.max (d - 53) (-1074).
Proof. reflexivity. Qed.

Lemma pos_iter_xO (m p : positive) :
  Zpos (Pos.iter xO m p) = Zpos m * 2 ^ Zpos p.
Proof.
  induction p as [| p IH] using Pos.peano_ind.
  - simpl. lia.
  - rewrite Pos.iter_succ, Pos2Z.inj_succ, Z.pow_succ_r by lia.
    rewrite Pos2Z.inj_xO, IH. lia.
Qed.

Lemma iter_pos_eq (A : Type) (f : A -> A) (p : positive) (x : A) :
  iter_pos f p x = Pos.iter f x p.
Proof.
  revert x. induction p as [p IH | p IH |]; intros x; simpl.
  - rewrite !IH. now rewrite !Pos.iter_swap.
  - now rewrite !IH.
  - reflexivity.
Qed.

(** Shifting right what was shifted left loses nothing. *)
Lemma shr_shifted (m p : positive) :
  iter_pos shr_1 p (Build_shr_record (Zpos (Pos.iter xO m p)) false false)
  = Build_shr_record (Zpos m) false false.
Proof.
  rewrite iter_pos_eq.
  induction p as [| p IH] using Pos.peano_ind.
  - reflexivity.
  - rewrite Pos.iter_succ_r, Pos.iter_succ. exact IH.
Qed.

Lemma shl_align_value (m : positive) (e ez : Z) :
  snd (shl_align m e ez) = Z.min e ez /\
  Zpos (fst (shl_align m e ez)) = Zpos m * 2 ^ (e - Z.min e ez).
Proof.
  unfold shl_align. destruct (ez - e) as [| d | d] eqn:D; cbn [fst snd].
  - rewrite Z.min_l by lia. rewrite Z.sub_diag. simpl. lia.
  - rewrite Z.min_l by lia. rewrite Z.sub_diag. simpl. lia.
  - rewrite Z.min_r by lia. split; [reflexivity |].
    rewrite pos_iter_xO. f_equal. f_equal. lia.
Qed.

(** The position of the leading bit is a matter of the value. *)
Lemma digits_of_value (a b : positive) (i j : Z) :
  0 <= i -> 0 <= j -> Zpos a * 2 ^ i = Zpos b * 2 ^ j ->
  Zpos (digits2_pos a) + i = Zpos (digits2_pos b) + j.
Proof.
  intros Hi Hj E. rewrite !digits2_pos_log2.
  assert (L : Z.log2 (Zpos a * 2 ^ i) = Z.log2 (Zpos b * 2 ^ j))
    by now rewrite E.
  rewrite !Z.log2_mul_pow2 in L by lia. lia.
Qed.

Lemma bounded_spec (m : positive) (e : Z) :
  bounded prec emax m e = true ->
  fexp prec emax (Zpos (digits2_pos m) + e) = e /\ e <= 971 /\ -1074 <= e.
Proof.
  unfold bounded, canonical_mantissa. intros H.
  apply andb_true_iff in H. destruct H as [C B].
  apply Z.eqb_eq in C. apply Z.leb_le in B.
  split; [exact C |]. split; [exact B |].
  rewrite fexp_value in C. lia.
Qed.

(** The representation of a value as a double is unique. *)
Lemma bounded_unique (m m' : positive) (e e' : Z) :
  bounded prec emax m e = true -> bounded prec emax m' e' = true ->
  Zpos m * 2 ^ (e + 1074) = Zpos m' * 2 ^ (e' + 1074) ->
  m = m' /\ e = e'.
Proof.
  intros B B' E.
  destruct (@bounded_spec _ _ B) as [C [_ L]].
  destruct (@bounded_spec _ _ B') as [C' [_ L']].
  pose proof (@digits_of_value m m' (e + 1074) (e' + 1074)
                ltac:(lia) ltac:(lia) E) as D.
  assert (Ee : e = e').
  { rewrite <- C, <- C'. f_equal. lia. }
  subst e'. split; [| reflexivity].
  assert (P : 0 < 2 ^ (e + 1074)) by (apply Z.pow_pos_nonneg; lia).
  apply Z.mul_reg_r in E; [| lia]. now inversion E.
Qed.

(** Rounding a value that is a double gives that double. *)
Lemma binary_round_exact (s : bool) (m mx : positive) (e ex : Z) :
  bounded prec emax mx ex = true -> -1074 <= e ->
  Zpos m * 2 ^ (e + 1074) = Zpos mx * 2 ^ (ex + 1074) ->
  binary_round prec emax s m e = S754_finite s mx ex.
Proof.
  intros B Le E.
  destruct (@bounded_spec _ _ B) as [C [U L]].
  pose proof (@digits_of_value m mx (e + 1074) (ex + 1074)
                ltac:(lia) ltac:(lia) E) as D.
  assert (F : fexp prec emax (Zpos (digits2_pos m) + e) = ex).
  { rewrite <- C. f_equal. lia. }
  unfold binary_round. rewrite F.
  destruct (shl_align_value m e ex) as [S1 S2].
  destruct (shl_align m e ex) as [mz ez]. cbn [fst snd] in S1, S2.
  assert (Ez : Zpos mz * 2 ^ (ez + 1074) = Zpos mx * 2 ^ (ex + 1074)).
  { rewrite S2, <- E, <- Z.mul_assoc, <- Z.pow_add_r by lia.
    f_equal. f_equal. lia. }
  assert (Lz : ez <= ex) by lia.
  assert (Lz' : -1074 <= ez) by lia.
  clear S1 S2.
  pose proof (@digits_of_value mz mx (ez + 1074) (ex + 1074)
                ltac:(lia) ltac:(lia) Ez) as Dz.
  unfold binary_round_aux, shr_fexp. cbn [Zdigits2 shr_record_of_loc].
  replace (fexp prec emax (Zpos (digits2_pos mz) + ez)) with ex
    by (rewrite <- C; f_equal; lia).
  unfold shr.
  destruct (ex - ez) as [| p | p] eqn:N; [| | lia].
  - assert (ez = ex) by lia. subst ez.
    assert (mz = mx).
    { assert (P : 0 < 2 ^ (ex + 1074)) by (apply Z.pow_pos_nonneg; lia).
      apply Z.mul_reg_r in Ez; [| lia]. now inversion Ez. }
    subst mz. cbn [shr_m loc_of_shr_record round_nearest_even Zdigits2].
    rewrite C, Z.sub_diag. cbn [shr_m].
    apply Z.leb_le in U. change (emax - prec) with 971. now rewrite U.
  - assert (Mz : mz = Pos.iter xO mx p).
    { assert (P : 0 < 2 ^ (ez + 1074)) by (apply Z.pow_pos_nonneg; lia).
      assert (Zpos mz = Zpos mx * 2 ^ Zpos p).
      { replace (ex + 1074) with (Zpos p + (ez + 1074)) in Ez by lia.
        rewrite (Z.pow_add_r 2 (Zpos p) (ez + 1074)), Z.mul_assoc in Ez
          by lia.
        apply Z.mul_reg_r in Ez; [exact Ez | lia]. }
      rewrite <- pos_iter_xO in H. now inversion H. }
    subst mz. rewrite shr_shifted.
    cbn [shr_m loc_of_shr_record round_nearest_even Zdigits2].
    replace (ez + Zpos p) with ex by lia.
    rewrite C, Z.sub_diag. cbn [shr_m].
    apply Z.leb_le in U. change (emax - prec) with 971. now rewrite U.
Qed.


Lemma cond_Zopp_mul (s : bool) (a b : Z) :
  cond_Zopp s a * b = cond_Zopp s (a * b).
Proof. destruct s; simpl; lia. Qed.

(** The sum of two finite doubles, before rounding, in units of
    [2^-1074]. *)
Lemma aligned_units (s : bool) (m : positive) (e ez : Z) :
  -1074 <= ez -> ez <= e ->
  cond_Zopp s (Zpos (fst (shl_align m e ez))) * 2 ^ (ez + 1074)
  = cond_Zopp s (Zpos m) * 2 ^ (e + 1074).
Proof.
  intros L1 L2. destruct (shl_align_value m e ez) as [_ V].
  rewrite V, Z.min_r by lia. rewrite !cond_Zopp_mul. f_equal.
  rewrite <- Z.mul_assoc, <- Z.pow_add_r by lia. f_equal. f_equal. lia.
Qed.

Lemma binary_normalize_exact (z : Z) (e : Z) (s : bool) (mx : positive)
    (ex : Z) :
  bounded prec emax mx ex = true -> -1074 <= e ->
  z * 2 ^ (e + 1074) = cond_Zopp s (Zpos mx) * 2 ^ (ex + 1074) ->
  binary_normalize prec emax z e false = S754_finite s mx ex.
Proof.
  intros B L E.
  destruct (@bounded_spec _ _ B) as [_ [_ Lx]].
  assert (P : 0 < 2 ^ (e + 1074)) by (apply Z.pow_pos_nonneg; lia).
  assert (Px : 0 < 2 ^ (ex + 1074)) by (apply Z.pow_pos_nonneg; lia).
  destruct z as [| q | q]; destruct s; cbn [cond_Zopp binary_normalize] in *;
    try nia.
  - apply binary_round_exact; assumption.
  - apply binary_round_exact; [assumption | assumption |].
    change (Z.neg q) with (- Z.pos q) in E. lia.
Qed.

(** Adding [y] without rounding and subtracting it again gives back [x],
    up to the sign of a zero. *)
Lemma sf_sub_add_exact (x y : spec_float) (u v w : Z) :
  valid_binary x = true -> valid_binary y = true ->
  valid_binary (SFadd prec emax x y) = true ->
  sf_units x = Some u -> sf_units y = Some v ->
  sf_units (SFadd prec emax x y) = Some w -> w = u + v ->
  SFsub prec emax (SFadd prec emax x y) y = x \/
  (x = S754_zero true /\
   SFsub prec emax (SFadd prec emax x y) y = S754_zero false).
Proof.
  intros Vx Vy Vc Ux Uy Uc E.
  destruct x as [sx | sx | | sx mx ex]; try discriminate Ux;
    destruct y as [sy | sy | | sy my ey]; try discriminate Uy.
  - destruct sx, sy; simpl; auto.
  - cbn [SFadd SFsub].
    match goal with
    | |- context [binary_normalize _ _ ?z _ _] =>
        replace z with 0 by (symmetry; apply Z.sub_diag)
    end.
    cbn [binary_normalize]. destruct sx; auto.
  - left. reflexivity.
  - left. unfold valid_binary in Vx, Vy. cbn [SpecFloat.valid_binary] in Vx, Vy.
    destruct (@bounded_spec _ _ Vx) as [_ [_ Lx]].
    destruct (@bounded_spec _ _ Vy) as [_ [_ Ly]].
    subst w. cbn [sf_units] in Ux, Uy.
    assert (Hu : u = cond_Zopp sx (Zpos mx) * 2 ^ (ex + 1074))
      by (inversion Ux; reflexivity).
    assert (Hv : v = cond_Zopp sy (Zpos my) * 2 ^ (ey + 1074))
      by (inversion Uy; reflexivity).
    clear Ux Uy.
    assert (Px : 0 < 2 ^ (ex + 1074)) by (apply Z.pow_pos_nonneg; lia).
    assert (Py : 0 < 2 ^ (ey + 1074)) by (apply Z.pow_pos_nonneg; lia).
    destruct (SFadd prec emax (S754_finite sx mx ex) (S754_finite sy my ey))
      as [sc | sc | | sc mc ec] eqn:C; try discriminate Uc.
    + (* the sum is zero: [y] is the opposite of [x] *)
      cbn [sf_units] in Uc.
      assert (E : 0 = u + v) by (inversion Uc; reflexivity).
      cbn [SFsub].
      assert (S : sx = negb sy /\
                  Zpos mx * 2 ^ (ex + 1074) = Zpos my * 2 ^ (ey + 1074)).
      { destruct sx, sy; cbn [cond_Zopp negb] in Hu, Hv; split;
          try reflexivity; nia. }
      destruct S as [-> S].
      destruct (@bounded_unique _ _ _ _ Vx Vy S) as [-> ->]. reflexivity.
    + unfold valid_binary in Vc. cbn [SpecFloat.valid_binary] in Vc.
      destruct (@bounded_spec _ _ Vc) as [_ [_ Lc]].
      cbn [sf_units] in Uc.
      assert (E : cond_Zopp sc (Zpos mc) * 2 ^ (ec + 1074) = u + v)
        by (inversion Uc; reflexivity).
      clear Uc. cbn [SFsub].
      apply binary_normalize_exact; [exact Vx | lia |].
      rewrite Z.mul_sub_distr_r.
      rewrite !aligned_units by lia. lia.
Qed.

End ExactRounding.

(** Adding [b] without rounding and subtracting it again gives back [a],
    up to the sign of a zero. *)
Lemma float_sub_add_exact (a b : float) :
  exact_sum a b = true ->
  (a + b - b)%float = a \/
  (a = (-0)%float /\ (a + b - b)%float = 0%float).
Proof.
  unfold exact_sum, float_units. intros H.
  destruct (sf_units (Prim2SF a)) as [u |] eqn:Ua; [| discriminate H].
  destruct (sf_units (Prim2SF b)) as [v |] eqn:Ub; [| discriminate H].
  destruct (sf_units (Prim2SF (a + b))) as [w |] eqn:Uc; [| discriminate H].
  apply Z.eqb_eq in H.
  rewrite add_spec in Uc.
  pose proof (Prim2SF_valid (a + b)) as Vc. rewrite add_spec in Vc.
  destruct (@sf_sub_add_exact (Prim2SF a) (Prim2SF b) u v w
              (Prim2SF_valid a) (Prim2SF_valid b) Vc Ua Ub Uc H)
    as [R | [Z0 R]].
  - left. apply Prim2SF_inj. now rewrite sub_spec, add_spec.
  - right. split; apply Prim2SF_inj.
    + exact Z0.
    + now rewrite sub_spec, add_spec.
Qed.

Section ExactSums.
Local Open Scope Z_scope.

(** When the sum of two values is the value of a double, adding gives a
    double of that value. *)
Lemma sf_add_representable (x y z : spec_float) (u v : Z) :
  valid_binary x = true -> valid_binary y = true -> valid_binary z = true ->
  sf_units x = Some u -> sf_units y = Some v -> sf_units z = Some (u + v) ->
  sf_units (SFadd prec emax x y) = Some (u + v).
Proof.
  intros Vx Vy Vz Ux Uy Uz.
  destruct x as [sx | sx | | sx mx ex]; try discriminate Ux;
    destruct y as [sy | sy | | sy my ey]; try discriminate Uy;
    cbn [sf_units] in Ux, Uy.
  - injection Ux as <-. injection Uy as <-. destruct sx, sy; reflexivity.
  - injection Ux as <-. injection Uy as <-. reflexivity.
  - injection Ux as <-. injection Uy as <-. cbn [SFadd sf_units].
    now rewrite Z.add_0_r.
  - unfold valid_binary in Vx, Vy. cbn [SpecFloat.valid_binary] in Vx, Vy.
    destruct (@bounded_spec _ _ Vx) as [_ [_ Lx]].
    destruct (@bounded_spec _ _ Vy) as [_ [_ Ly]].
    assert (Hu : u = cond_Zopp sx (Zpos mx) * 2 ^ (ex + 1074))
      by (inversion Ux; reflexivity).
    assert (Hv : v = cond_Zopp sy (Zpos my) * 2 ^ (ey + 1074))
      by (inversion Uy; reflexivity).
    clear Ux Uy. cbn [SFadd].
    set (ez := Z.min ex ey).
    assert (A : (cond_Zopp sx (Zpos (fst (shl_align mx ex ez)))
                 + cond_Zopp sy (Zpos (fst (shl_align my ey ez))))
                * 2 ^ (ez + 1074) = u + v).
    { rewrite Z.mul_add_distr_r. subst ez.
      rewrite !aligned_units by lia. lia. }
    assert (Pz : 0 < 2 ^ (ez + 1074))
      by (apply Z.pow_pos_nonneg; subst ez; lia).
    destruct z as [sz | sz | | sz mz ez']; try discriminate Uz;
      cbn [sf_units] in Uz.
    + assert (Z0 : u + v = 0) by (inversion Uz; lia).
      rewrite Z0 in A.
      assert (S0 : cond_Zopp sx (Zpos (fst (shl_align mx ex ez)))
                   + cond_Zopp sy (Zpos (fst (shl_align my ey ez))) = 0)
        by nia.
      rewrite S0. cbn [binary_normalize sf_units]. now rewrite Z0.
    + unfold valid_binary in Vz. cbn [SpecFloat.valid_binary] in Vz.
      assert (Hz : cond_Zopp sz (Zpos mz) * 2 ^ (ez' + 1074) = u + v)
        by (inversion Uz; reflexivity).
      rewrite (@binary_normalize_exact _ ez sz mz ez' Vz).
      * cbn [sf_units]. now rewrite Hz.
      * subst ez; lia.
      * rewrite A. now rewrite Hz.
Qed.

End ExactSums.

(** The addition is exact whenever the sum of the two values is the value
    of a double. *)
Lemma exact_sum_representable (a b c : float) (u v : Z) :
  float_units a = Some u -> float_units b = Some v ->
  float_units c = Some (u + v)%Z ->
  exact_sum a b = true.
Proof.
  unfold exact_sum, float_units. intros Ua Ub Uc.
  rewrite Ua, Ub, add_spec.
  change (SF64add (Prim2SF a) (Prim2SF b))
    with (SFadd prec emax (Prim2SF a) (Prim2SF b)).
  rewrite (@sf_add_representable (Prim2SF a) (Prim2SF b) (Prim2SF c) u v
             (Prim2SF_valid a) (Prim2SF_valid b) (Prim2SF_valid c)
             Ua Ub Uc).
  apply Z.eqb_refl.
Qed.

Lemma float_eqb_refl (a : float) (u : Z) :
  float_units a = Some u -> (a =? a)%float = true.
Proof.
  unfold float_units. rewrite eqb_spec. intros H.
  destruct (Prim2SF a) as [s | s | | s m e]; try discriminate H.
  - reflexivity.
  - unfold SFeqb. cbn [SFcompare]. rewrite Z.compare_refl.
    change (Pos.compare_cont Eq m m) with (Pos.compare m m).
    rewrite Pos.compare_refl. destruct s; reflexivity.
Qed.

Lemma sub_add_entry (F : Type) (D : DType F) (A B : ndarray F) :
  wf A -> wf B -> shape A = shape B ->
  wf (ndarray_sub (ndarray_add A B) B) /\
  forall i j, i < fst (shape A) -> j < snd (shape A) ->
    entry (ndarray_sub (ndarray_add A B) B) i j
    = dsub (dadd (entry A i j) (entry B i j)) (entry B i j).
Proof.
  intros HA HB E.
  pose proof (map2_rows_wf dadd HA HB E) as HS.
  fold (ndarray_add A B) in HS.
  assert (ES : shape (ndarray_add A B) = shape B) by exact E.
  pose proof (map2_rows_wf dsub HS HB ES) as HR.
  split; [exact HR |].
  intros i j Hi Hj. unfold ndarray_sub.
  rewrite (map2_rows_entry dsub HS HB ES) by assumption.
  unfold ndarray_add. now rewrite (map2_rows_entry dadd HA HB E).
Qed.

(** When taking [B] away again gives back every entry, the round trip
    returns [A]. *)
Lemma sub_add_identity (F : Type) (D : DType F) (A B : ndarray F) :
  wf A -> wf B -> shape A = shape B ->
  (forall i j, i < fst (shape A) -> j < snd (shape A) ->
     dsub (dadd (entry A i j) (entry B i j)) (entry B i j) = entry A i j) ->
  sub_add A B = inr A.
Proof.
  intros HA HB E Hexact.
  destruct (sub_add_entry D HA HB E) as [HR Hent].
  rewrite (@sub_add_value _ D A B E). f_equal.
  apply ndarray_ext; [exact HR | exact HA | reflexivity |].
  intros i j Hi Hj. simpl in Hi, Hj. rewrite Hent by assumption.
  now apply Hexact.
Qed.

(** C5, amended.  For matrices [A] and [B] of equal shape,
    [sub_matrices(add_matrices(A, B), B)] succeeds, is [add(A, B) - B], has
    the shape of [A], and its entry (i, j) is
    [(A[i][j] + B[i][j]) - B[i][j]] in the element arithmetic.  On arrays
    of doubles the entry equals [A[i][j]] wherever the addition
    [A[i][j] + B[i][j]] was exact (finite, without rounding): it compares
    equal to it, and is the same double unless [A[i][j]] is the negative
    zero, which comes back as the positive zero; so the result is [A]
    itself when every addition was exact and [A] holds no negative zero.
    An addition of doubles is exact whenever the sum of the two values is
    itself the value of a double.  On arrays of 64-bit integers whose
    entries of [A] are in range the result is [A] itself, wrap-around
    included.  Where an addition of doubles rounds or overflows nothing of
    the kind holds. *)
Theorem sub_add_matrices_spec :
  (forall (F : Type) (D : DType F) (A B : ndarray F),
     wf A -> wf B -> shape A = shape B ->
     exists R,
       sub_add A B = inr R /\ R = ndarray_sub (ndarray_add A B) B /\
       wf R /\ shape R = shape A /\
       (forall i j, i < fst (shape A) -> j < snd (shape A) ->
          entry R i j
          = dsub (dadd (entry A i j) (entry B i j)) (entry B i j)) /\
       ((forall i j, i < fst (shape A) -> j < snd (shape A) ->
           dsub (dadd (entry A i j) (entry B i j)) (entry B i j)
           = entry A i j) ->
        R = A))
  /\
  (forall A B : ndarray float,
     wf A -> wf B -> shape A = shape B ->
     exists R,
       sub_add A B = inr R /\
       (forall i j, i < fst (shape A) -> j < snd (shape A) ->
          exact_sum (entry A i j) (entry B i j) = true ->
          (entry R i j =? entry A i j)%float = true /\
          (entry A i j <> (-0)%float -> entry R i j = entry A i j)) /\
       ((forall i j, i < fst (shape A) -> j < snd (shape A) ->
           exact_sum (entry A i j) (entry B i j) = true /\
           entry A i j <> (-0)%float) ->
        R = A))
  /\
  (forall (a b c : float) (u v : Z),
     float_units a = Some u -> float_units b = Some v ->
     float_units c = Some (u + v)%Z ->
     exact_sum a b = true)
  /\
  (forall A B : ndarray Z,
     wf A -> wf B -> shape A = shape B ->
     (forall i j, i < fst (shape A) -> j < snd (shape A) ->
        (- 9223372036854775808 <= entry A i j < 9223372036854775808)%Z) ->
     sub_add A B = inr A).
Proof.
  split; [| split; [| split]].
  - intros F D A B HA HB E.
    destruct (sub_add_entry D HA HB E) as [HR Hent].
    exists (ndarray_sub (ndarray_add A B) B).
    split; [now apply sub_add_value | split; [reflexivity |]].
    split; [exact HR | split; [reflexivity | split; [exact Hent |]]].
    intros Hexact.
    assert (V : sub_add A B = inr A) by now apply sub_add_identity.
    rewrite (@sub_add_value _ D A B E) in V. congruence.
  - intros A B HA HB E.
    destruct (sub_add_entry float64 HA HB E) as [HR Hent].
    exists (ndarray_sub (ndarray_add A B) B).
    split; [now apply sub_add_value | split].
    + intros i j Hi Hj X. rewrite (Hent i j Hi Hj).
      change (dsub (dadd (entry A i j) (entry B i j)) (entry B i j))
        with (entry A i j + entry B i j - entry B i j)%float.
      assert (U : exists u, float_units (entry A i j) = Some u).
      { unfold exact_sum in X.
        destruct (float_units (entry A i j)) as [u |];
          [now exists u | discriminate X]. }
      destruct U as [u U].
      destruct (float_sub_add_exact _ _ X) as [R | [Z0 R]]; rewrite R.
      * split; [exact (float_eqb_refl _ U) | reflexivity].
      * rewrite Z0. split; [reflexivity | intros N; now elim N].
    + intros Hexact.
      assert (V : sub_add A B = inr A).
      { apply sub_add_identity; try assumption.
        intros i j Hi Hj. destruct (Hexact i j Hi Hj) as [X N].
        change (dsub (dadd (entry A i j) (entry B i j)) (entry B i j))
          with (entry A i j + entry B i j - entry B i j)%float.
        destruct (float_sub_add_exact _ _ X) as [R | [Z0 R]];
          [exact R | contradiction]. }
      rewrite (@sub_add_value _ float64 A B E) in V. congruence.
  - exact exact_sum_representable.
  - intros A B HA HB E Hrange.
    apply sub_add_identity; try assumption.
    intros i j Hi Hj. cbn [dadd dsub int64].
    apply wrap64_sub_add. now apply Hrange.
Qed.

Lemma sub_add_matrices_spec_witness :
  sub_add demo_A demo_B = inr demo_A /\
  exact_sum 0.5 0.25 = true /\
  sub_add (np_array [[1; 2]; [3; 4]]%Z)
    (np_array [[9223372036854775807; 6]; [7; 8]]%Z)
  = inr (np_array [[1; 2]; [3; 4]]%Z).
Proof.
  assert (HA : wf demo_A) by wf_literal.
  assert (HB : wf demo_B) by wf_literal.
  split.
  - destruct (proj1 (proj2 sub_add_matrices_spec) demo_A demo_B HA HB
                eq_refl) as [R [ER [_ HR]]].
    rewrite ER. f_equal. apply HR.
    intros [| [| i]] [| [| j]] Hi Hj; simpl in Hi, Hj; try lia;
      (split; [vm_compute; reflexivity |]);
      intros N; apply (f_equal Prim2SF) in N; vm_compute in N;
      discriminate N.
  - split.
    { apply (proj1 (proj2 (proj2 sub_add_matrices_spec))
               0.5%float 0.25%float 0.75%float
               (2 ^ 1073)%Z (2 ^ 1072)%Z); vm_compute; reflexivity. }
    apply (proj2 (proj2 (proj2 sub_add_matrices_spec))).
    + split; [reflexivity | repeat constructor].
    + split; [reflexivity | repeat constructor].
    + reflexivity.
    + intros [| [| i]] [| [| j]] Hi Hj; simpl in Hi, Hj; try lia;
        (vm_compute; split; [discriminate | reflexivity]).
Defined.

(** ** Instances *)

Section Instances.
Local Open Scope string_scope.

Lemma input_matrix_asks_again_witness :
  parse_int (str_strip "two") = None /\
  input_matrix sample_uniform "A" (sample_world ["two"; "2"; "2"])
  = input_matrix sample_uniform "A"
      (mk_world ["2"; "2"]
         ([] ++ [Prompt "Number of rows for matrix A: ";
                 Line "Invalid integer. Try again."])%list 0 tt).
Proof.
  split; [reflexivity |].
  exact (proj1 (@input_matrix_asks_again unit sample_uniform "A" "two" ""
                  ["2"; "2"] [] 0 tt) eq_refl).
Defined.

Lemma input_matrix_paste_witness :
  exists M out,
    input_matrix sample_uniform "A" (sample_world ["2"; "2"; " 2 "; "1, 2, 3 4"])
    = (Returns M, mk_world [] ([] ++ out)%list 0 tt) /\
    wf M /\ shape M = (2, 2) /\ entry M 1 0 = 3%float.
Proof.
  destruct (@input_matrix_paste unit sample_uniform "A" "2" "2" " 2 "
              "1, 2, 3 4" [] 2 2 [] 0 tt eq_refl eq_refl eq_refl eq_refl
              eq_refl eq_refl) as [M [out [E [W [S HE]]]]].
  exists M, out. split; [exact E | split; [exact W | split; [exact S |]]].
  rewrite (HE 1 0); [reflexivity | simpl; lia | simpl; lia].
Defined.

Lemma input_matrix_row_by_row_witness :
  exists out,
    input_matrix sample_uniform "A"
      (sample_world ["2"; "2"; ""; "1 2 3"; "x"; "1 2"; "3,4"])
    = (Returns (np_array [[1; 2]; [3; 4]]%float),
       mk_world [] ([] ++ out)%list 0 tt).
Proof.
  assert (G : Forall
                (fun g => Forall (fun l => good_row 2 l = false) (fst g)
                          /\ good_row 2 (snd g) = true)
                [(["1 2 3"; "x"], "1 2"); ([], "3,4")]).
  { repeat constructor. }
  assert (M2 : str_or (str_strip "") "1" <> "2") by discriminate.
  assert (M3 : str_or (str_strip "") "1" <> "3") by discriminate.
  assert (F : (8 * 2 * 2 <= intp_max)%Z) by (unfold intp_max; lia).
  exact (proj1 (proj2 (@input_matrix_row_by_row unit sample_uniform "A" "2"
                         "2" "" [(["1 2 3"; "x"], "1 2"); ([], "3,4")] []
                         2 2 [] 0 tt eq_refl eq_refl eq_refl eq_refl M2 M3
                         eq_refl G)) F).
Defined.

Lemma input_matrix_paste_falls_back_witness :
  exists out,
    input_matrix sample_uniform "A"
      (sample_world ["2"; "2"; "2"; "1 2 3"; "1 2"; "3 4"])
    = (Returns (np_array [[1; 2]; [3; 4]]%float),
       mk_world [] ([] ++ out)%list 0 tt).
Proof.
  assert (G : Forall
                (fun g => Forall (fun l => good_row 2 l = false) (fst g)
                          /\ good_row 2 (snd g) = true)
                [([], "1 2"); ([], "3 4")]).
  { repeat constructor. }
  assert (N : Z.of_nat (length (row_of "1 2 3")) <> (2 * 2)%Z)
    by discriminate.
  assert (F : (8 * 2 * 2 <= intp_max)%Z) by (unfold intp_max; lia).
  exact (proj1 (@input_matrix_paste_falls_back unit sample_uniform "A" "2"
                  "2" "2" "1 2 3" [([], "1 2"); ([], "3 4")] [] 2 2 [] 0 tt
                  eq_refl eq_refl eq_refl eq_refl eq_refl N eq_refl G) F).
Defined.

Lemma input_matrix_random_witness :
  (exists M out,
     input_matrix sample_uniform "A" (sample_world ["1"; "2"; "3"])
     = (Returns M, mk_world [] ([] ++ out)%list 2 tt) /\
     wf M /\ shape M = (1, 2) /\ entry M 0 1 = 0.5%float)
  /\
  (exists msg out,
     input_matrix sample_uniform "A"
       (sample_world ["99999999999999999999"; "1"; "3"])
     = (Raises (Std (ValueError msg)), mk_world [] ([] ++ out)%list 0 tt)).
Proof.
  split.
  - assert (F : (8 * 1 * 2 <= intp_max)%Z) by (unfold intp_max; lia).
    destruct (proj1 (@input_matrix_random unit sample_uniform "A" "1" "2" "3"
                       [] 1 2 [] 0 tt eq_refl eq_refl eq_refl eq_refl
                       eq_refl) F)
      as [M [out [E [W [S HE]]]]].
    exists M, out. split; [exact E | split; [exact W | split; [exact S |]]].
    rewrite (HE 0 1); [reflexivity | simpl; lia | simpl; lia].
  - assert (F : (intp_max < 8 * 99999999999999999999 * 1)%Z)
      by (unfold intp_max; lia).
    exact (proj2 (@input_matrix_random unit sample_uniform "A"
                    "99999999999999999999" "1" "3" [] 99999999999999999999 1
                    [] 0 tt eq_refl eq_refl eq_refl eq_refl eq_refl) F).
Defined.

Lemma pretty_print_aligned_witness :
  exists lines,
    pretty_print demo_A 3 (sample_world [])
    = (Returns tt, mk_world [] ([] ++ map Line lines ++ [Line ""])%list 0 tt) /\
    length lines = 2 /\
    Forall (fun l => String.length l = 17) lines.
Proof.
  destruct (@pretty_print_aligned unit demo_A 3 (sample_world []))
    as [lines [E [L H]]].
  exists lines. split; [exact E | split; [exact L |]].
  apply H.
  intros [| [| r]] [| [| c]] Hr Hc; simpl in Hr, Hc; try lia;
    vm_compute; repeat constructor.
Defined.

Lemma choose_matrix_from_file_witness :
  exists out,
    choose_matrix sample_loadtxt sample_uniform "A"
      (sample_world ["2"; "m.csv"])
    = input_matrix sample_uniform "A"
        (mk_world []
           ([] ++ out
               ++ [ErrorLine "Failed to load file:"
                     (OtherError "m.csv not found.");
                   Line "Falling back to interactive input."])%list 0 tt).
Proof.
  exact (@choose_matrix_from_file unit sample_loadtxt sample_uniform "A" "2"
           "m.csv" [] [] 0 tt eq_refl).
Defined.

Lemma choose_matrix_random_witness :
  (exists M out,
     choose_matrix sample_loadtxt sample_uniform "A"
       (sample_world ["3"; "0"; "3"; ""])
     = (Returns M, mk_world [] ([] ++ out)%list 0 tt) /\
     wf M /\ shape M = (0, 3))
  /\
  (exists msg out,
     choose_matrix sample_loadtxt sample_uniform "A"
       (sample_world ["3"; "99999999999999999999"; "1"; ""])
     = (Raises (Std (ValueError msg)), mk_world [] ([] ++ out)%list 0 tt))
  /\
  (exists out,
     choose_matrix sample_loadtxt sample_uniform "A"
       (sample_world ["3"; "-1"; "3"; "2.5"])
     = (Raises (Std (ValueError "negative dimensions are not allowed")),
        mk_world [] ([] ++ out)%list 0 tt)).
Proof.
  split; [| split].
  - destruct (proj1 (@choose_matrix_random unit sample_loadtxt sample_uniform
                       "A" "3" "0" "3" "" [] 0 3 1%float [] 0 tt eq_refl
                       eq_refl eq_refl (or_introl (conj eq_refl eq_refl))))
      as [M [out [E [W [S _]]]]]; [lia | lia | unfold intp_max; lia |].
    exists M, out. split; [exact E | split; [exact W | exact S]].
  - apply (proj1 (proj2 (@choose_matrix_random unit sample_loadtxt
                           sample_uniform "A" "3" "99999999999999999999" "1"
                           "" [] 99999999999999999999 1 1%float [] 0 tt
                           eq_refl eq_refl eq_refl
                           (or_introl (conj eq_refl eq_refl))))).
    right. right. unfold intp_max. lia.
  - assert (N : "2.5" <> EmptyString) by discriminate.
    apply (proj2 (proj2 (@choose_matrix_random unit sample_loadtxt
                           sample_uniform "A" "3" "-1" "3" "2.5" [] (-1) 3
                           2.5%float [] 0 tt eq_refl eq_refl eq_refl
                           (or_intror (conj N eq_refl))))).
    + left. lia.
    + reflexivity.
    + reflexivity.
    + unfold intp_max. lia.
Defined.

Lemma main_quit_witness :
  exists out,
    main diag_cond diag_inv sample_loadtxt sample_savetxt sample_uniform false
      sample_show_figure (sample_world [" Q "; "5"])
    = (Returns tt, mk_world ["5"] ([] ++ out ++ [Line "Goodbye!"])%list 0 tt).
Proof.
  exact (@main_quit unit diag_cond diag_inv sample_loadtxt sample_savetxt
           sample_uniform false sample_show_figure " Q " ["5"] [] 0 tt
           eq_refl).
Defined.

Lemma main_returns_after_goodbye_witness :
  exists out,
    stdout
      (snd (main diag_cond diag_inv sample_loadtxt sample_savetxt
              sample_uniform false sample_show_figure
              (sample_world ["5"; "x"; "q"])))
    = (out ++ [Line "Goodbye!"])%list.
Proof.
  apply (@main_returns_after_goodbye unit diag_cond diag_inv sample_loadtxt
           sample_savetxt sample_uniform false sample_show_figure
           (sample_world ["5"; "x"; "q"]) _ tt).
  vm_compute. reflexivity.
Defined.

Lemma inverse_operation_reports_error_witness :
  exists w1 out,
    inverse_operation diag_cond diag_inv sample_loadtxt sample_savetxt
      sample_uniform false sample_show_figure
      (sample_world ["3"; "1"; "2"; ""])
    = (Returns tt,
       mk_world (stdin w1)
         (stdout w1 ++ out ++ [ErrorLine "Error:" (Std NotSquare)])%list
         (drawn w1) (files w1)).
Proof.
  eexists.
  eapply (@inverse_operation_reports_error unit diag_cond diag_inv
            sample_loadtxt sample_savetxt sample_uniform false
            sample_show_figure).
  - vm_compute. reflexivity.
  - vm_compute. reflexivity.
Defined.

Lemma parse_numbers_from_line_app_witness :
  exists na nb,
    parse_numbers_from_line "1 2" [] = (inr na, []) /\
    parse_numbers_from_line "3" [] = (inr nb, []) /\
    parse_numbers_from_line "1 2,3" [] = (inr (na ++ nb)%list, []).
Proof.
  exact (@parse_numbers_from_line_app "1 2" "3" "," [] eq_refl).
Defined.

Lemma sub_add_int64_exact_witness :
  sub_add (np_array [[1; 2]; [3; 4]]%Z)
    (np_array [[9223372036854775807; 6]; [7; 8]]%Z)
  = inr (np_array [[1; 2]; [3; 4]]%Z).
Proof.
  apply sub_add_int64_exact.
  - split; [reflexivity | repeat constructor].
  - split; [reflexivity | repeat constructor].
  - reflexivity.
  - intros [| [| i]] [| [| j]] Hi Hj; simpl in Hi, Hj; try lia;
      (vm_compute; split; [discriminate | reflexivity]).
Defined.

End Instances.
